(** * torchreid.engine.Engine: epoch-interval policy, checkpoint selector,
      freeze policy, evaluation dispatch and the training loop

    A shallow embedding of [src/torchreid/engine/engine.py].

    Conventions of the embedding.
    - Python ints are [Z]; Python floats (learning rates, metrics) are the
      rationals they denote ([Q]); [None] is [option]'s [None].
    - A raised exception is a value of [result]: stateless helpers live in the
      error monad [result], methods that assign to [self] in the state and
      error monad [M] over the record [Engine].
    - What the engine only calls (the network, optimizers and schedulers, the
      functions of [torchreid.metrics], [torch], [numpy]) is an instance of the
      class [Externals]; [Engine.forward_backward] is abstract in the source
      and belongs to it too.
    - Printing, timing meters and the tensorboard writer are left out: the
      embedding is the engine run with [tb_writer=None], no [perf_monitor]
      and a positive [print_freq].
    - Each name of the registry has a model unit of its own (no object is
      registered under two names).
    - Two ghost fields, [trace] and [polls], record what the engine did
      (newest event first) and how often the caller's stop callback was
      polled. *)

From Stdlib Require Import ZArith QArith Qround List String Bool Lia.
From Stdlib Require Import DecimalString DecimalNat DecimalZ DecimalPos.
From Stdlib Require Import Permutation.
Import ListNotations.
Open Scope string_scope.
Open Scope list_scope.
Open Scope Z_scope.

Set Implicit Arguments.

(* ================================================================== *)
(** * Python values, exceptions *)

Inductive exn : Type :=
| RuntimeError
| ValueError
| UnboundLocalError
| AttributeError
| TypeError
| KeyError
| IndexError.

Inductive result (A : Type) : Type :=
| Ok (a : A)
| Err (e : exn).

Arguments Ok {A} a.
Arguments Err {A} e.

Definition rbind {A B} (r : result A) (k : A -> result B) : result B :=
  match r with
  | Ok a => k a
  | Err e => Err e
  end.

Notation "x <-? r ;; k" := (rbind r (fun x => k))
  (at level 61, r at next level, right associativity).

(** [d[key]] on a dict kept as an ordered association list. *)
Fixpoint getitem {V} (d : list (string * V)) (key : string) : result V :=
  match d with
  | [] => Err KeyError
  | (k, v) :: d' => if String.eqb k key then Ok v else getitem d' key
  end.

(** [l[i]] on a sequence. *)
Definition index {V} (l : list V) (i : nat) : result V :=
  match nth_error l i with
  | Some v => Ok v
  | None => Err IndexError
  end.

(** [a == b] where each side is a float or [None]. *)
Definition opt_eqb (a b : option Q) : bool :=
  match a, b with
  | None, None => true
  | Some x, Some y => Qeq_bool x y
  | _, _ => false
  end.

(** Round half to even, as [numpy.rint]. *)
Definition rint (x : Q) : Z :=
  let f := Qfloor x in
  match Qcompare (x - inject_Z f) (1 # 2) with
  | Lt => f
  | Gt => f + 1
  | Eq => if Z.even f then f else f + 1
  end.

(** [np.round(x, decimals)]: scale, round to the nearest integer, scale back. *)
Definition np_round (x : Q) (decimals : nat) : Q :=
  let scale := 10 ^ Z.of_nat decimals in
  inject_Z (rint (x * inject_Z scale)) / inject_Z scale.

(* ================================================================== *)
(** * EpochIntervalToValue *)

Record EpochIntervalToValue (V : Type) : Type := {
  first : option Z;
  last : option Z;
  value_inside : V;
  value_outside : V
}.

Definition is_none {A} (o : option A) : bool :=
  match o with None => true | Some _ => false end.

(** [a < b] guarded by [x is not None]. *)
Definition set_and {A} (o : option A) (p : A -> bool) : bool :=
  match o with None => false | Some a => p a end.

Definition _get_cur_action_from_epoch_interval {V}
    (epoch_interval : EpochIntervalToValue V) (epoch : Z) : result V :=
  if is_none (first epoch_interval) && is_none (last epoch_interval) then
    Err RuntimeError
  else if set_and (first epoch_interval) (fun f => epoch <? f) then
    Ok (value_outside epoch_interval)
  else if set_and (last epoch_interval) (fun l => epoch >? l) then
    Ok (value_outside epoch_interval)
  else
    Ok (value_inside epoch_interval).

(** The policy in the words of the specification: [epoch] falls strictly
    before [first] (when set) or strictly after [last] (when set). *)
Definition falls_outside {V} (iv : EpochIntervalToValue V) (epoch : Z) : Prop :=
  (exists f, first iv = Some f /\ epoch < f) \/
  (exists l, last iv = Some l /\ epoch > l).

Definition both_unset {V} (iv : EpochIntervalToValue V) : Prop :=
  first iv = None /\ last iv = None.

(* ================================================================== *)
(** * What the engine only calls *)

Definition EvalBatch (Images : Type) : Type := (Images * list Z * list Z)%type.
Definition EvalLoader (Images : Type) : Type := list (EvalBatch Images).

Class Externals : Type := {
  (** parameters of the networks, optimizers and schedulers *)
  World : Type;
  (** an item of [train_loader], the loss summary of a step *)
  Batch : Type;
  Loss : Type;
  Images : Type;
  Tensor : Type;
  (** [self.forward_backward(data)], implemented by the subclasses *)
  forward_backward : World -> Batch -> World * Loss;
  (** [self.optims[name].param_groups[0]['lr']] *)
  param_group_lr : World -> string -> Q;
  (** [self.scheds[name].step(...)]; the epoch's losses give the average *)
  sched_step : World -> string -> list Loss -> World;
  (** [model(imgs)] for the model registered as [name] *)
  model_call : World -> string -> Images -> Tensor;
  (** [metrics.evaluate_classification]: [(cmc, mAP)] *)
  evaluate_classification : World -> string -> EvalLoader Images -> list Q * Q;
  F_normalize : Tensor -> Tensor;
  compute_distance_matrix : Tensor -> Tensor -> string -> Tensor;
  re_ranking : Tensor -> Tensor -> Tensor -> Tensor;
  (** [metrics.evaluate_rank(distmat, q_pids, g_pids, q_camids, g_camids,
      use_metric_cuhk03)]: [(cmc, mAP)] *)
  evaluate_rank :
    Tensor -> list Z -> list Z -> list Z -> list Z -> bool -> list Q * Q;
  torch_cat : list Tensor -> result Tensor
}.

(** A Python object as far as [_feature_extraction] looks at it: a tensor,
    or a tuple of tensors. *)
Inductive PyObj (T : Type) : Type :=
| PyTensor (t : T)
| PyTuple (items : list T).

Arguments PyTensor {T} t.
Arguments PyTuple {T} items.

(** [o.data.cpu()]: tensors have [.data], tuples do not. *)
Definition data_cpu {T} (o : PyObj T) : result T :=
  match o with
  | PyTensor t => Ok t
  | PyTuple _ => Err AttributeError
  end.

(* ================================================================== *)
(** * Model units *)

Record ModelUnit : Type := {
  classification : bool;      (* get_model_attr(model, 'classification') *)
  contrastive : bool;         (* get_model_attr(model, 'contrastive') *)
  layers : list string;       (* the named layers of the network *)
  training : bool;            (* train mode (true) or eval mode (false) *)
  trainable : list string;    (* layers whose parameters receive gradients *)
  has_sched : bool            (* self.scheds[name] is not None *)
}.

Definition set_training (b : bool) (m : ModelUnit) : ModelUnit :=
  {| classification := classification m; contrastive := contrastive m;
     layers := layers m; training := b; trainable := trainable m;
     has_sched := has_sched m |}.

Definition set_trainable (l : list string) (m : ModelUnit) : ModelUnit :=
  {| classification := classification m; contrastive := contrastive m;
     layers := layers m; training := training m; trainable := l;
     has_sched := has_sched m |}.

(** [model.train()] and [model.eval()]. *)
Definition model_train : ModelUnit -> ModelUnit := set_training true.
Definition model_eval : ModelUnit -> ModelUnit := set_training false.

Definition mem_string (s : string) (l : list string) : bool :=
  existsb (String.eqb s) l.

(** Modelled from the spec: [torchreid.utils.open_all_layers], which is not
    among the sources; "all layers are opened". *)
Definition open_all_layers (m : ModelUnit) : ModelUnit :=
  set_trainable (layers m) m.

(** Modelled from the spec: [torchreid.utils.open_specified_layers] (called
    with [strict=False]), which is not among the sources; "only those layers
    are made trainable", and with the empty list "zero trainable layers". *)
Definition open_specified_layers (m : ModelUnit) (open_layers : list string)
    : ModelUnit :=
  set_trainable (filter (fun l => mem_string l open_layers) (layers m)) m.

(* ================================================================== *)
(** * The engine *)

(** Where [run] calls [test] and [save_model] from. *)
Inductive Site : Type := TestOnly | BeforeTraining | Periodic | Final.

Inductive Event : Type :=
| EvTest (site : Site) (epoch : option Z)
| EvBatch (epoch : option Z) (batch_idx : nat)
| EvPoll (positive : bool)
| EvSave (site : Site) (epoch : Z) (is_best : bool).

(** The keyword arguments of [Engine.test] that reach the evaluators
    ([visrank], [visrank_topk], [save_dir] and [ranks] only steer output). *)
Module TestArgs.
Record t : Type := {
  dist_metric : string;
  normalize_feature : bool;
  use_metric_cuhk03 : bool;
  rerank : bool;
  lr_finder : bool
}.
End TestArgs.

(** The arguments of [Engine.run]. [stop_callback] is [None] or an object
    whose [n]-th call of [check_stop()] answers [cb n]. *)
Module RunArgs.
Record t : Type := {
  max_epoch : Z;
  start_epoch : Z;
  fixbase_epoch : Z;
  open_layers : option (list string);
  start_eval : Z;
  eval_freq : Z;
  test_only : bool;
  dist_metric : string;
  normalize_feature : bool;
  visrank : bool;
  use_metric_cuhk03 : bool;
  rerank : bool;
  lr_finder : bool;
  stop_callback : option (nat -> bool)
}.
End RunArgs.

(** What [run] returns: [test_results] when [test_only], else [top1_final]. *)
Inductive RunResult : Type :=
| TestResults (top1 top5 mAP : option Q)
| Top1Final (top1_final : option Q).

Section WithExternals.
Context {ext : Externals}.

(** The constructor's arguments that stay as they are. *)
Record Config : Type := {
  train_loader : list Batch;
  test_loader : list (string * list (string * EvalLoader Images));
  use_gpu : bool;
  save_chkpt : bool;
  train_patience : Z;
  lb_lr : Q;
  early_stoping : bool;
  should_freeze_aux_models : bool;
  epoch_interval_for_aux_model_freeze : option (EpochIntervalToValue bool);
  epoch_interval_for_turn_off_mutual_learning :
    option (EpochIntervalToValue bool)
}.

Record Engine : Type := {
  conf : Config;
  models : list (string * ModelUnit);      (* OrderedDict *)
  model_names_to_freeze : list string;
  start_epoch : Z;
  fixbase_epoch : Z;
  max_epoch : option Z;
  epoch : option Z;
  iter_to_wait : Z;
  best_metric : Q;
  lr_prev_best_metric : option Q;
  lr_of_previous_iter : option Q;
  world : World;
  trace : list Event;                      (* ghost: newest first *)
  polls : nat                              (* ghost: check_stop calls so far *)
}.

Definition set_models v (e : Engine) : Engine :=
  Build_Engine (conf e) v (model_names_to_freeze e) (start_epoch e)
    (fixbase_epoch e) (max_epoch e) (epoch e) (iter_to_wait e) (best_metric e)
    (lr_prev_best_metric e) (lr_of_previous_iter e) (world e) (trace e)
    (polls e).

Definition set_model_names_to_freeze v (e : Engine) : Engine :=
  Build_Engine (conf e) (models e) v (start_epoch e) (fixbase_epoch e)
    (max_epoch e) (epoch e) (iter_to_wait e) (best_metric e)
    (lr_prev_best_metric e) (lr_of_previous_iter e) (world e) (trace e)
    (polls e).

(** [self.start_epoch], [self.max_epoch], [self.fixbase_epoch] as [run]
    assigns them. *)
Definition set_run_epochs st fb mx (e : Engine) : Engine :=
  Build_Engine (conf e) (models e) (model_names_to_freeze e) st fb mx
    (epoch e) (iter_to_wait e) (best_metric e) (lr_prev_best_metric e)
    (lr_of_previous_iter e) (world e) (trace e) (polls e).

Definition set_epoch v (e : Engine) : Engine :=
  Build_Engine (conf e) (models e) (model_names_to_freeze e) (start_epoch e)
    (fixbase_epoch e) (max_epoch e) v (iter_to_wait e) (best_metric e)
    (lr_prev_best_metric e) (lr_of_previous_iter e) (world e) (trace e)
    (polls e).

Definition set_iter_to_wait v (e : Engine) : Engine :=
  Build_Engine (conf e) (models e) (model_names_to_freeze e) (start_epoch e)
    (fixbase_epoch e) (max_epoch e) (epoch e) v (best_metric e)
    (lr_prev_best_metric e) (lr_of_previous_iter e) (world e) (trace e)
    (polls e).

(** The three assignments of the "best for this LR" branch. *)
Definition set_best bm itw lr (e : Engine) : Engine :=
  Build_Engine (conf e) (models e) (model_names_to_freeze e) (start_epoch e)
    (fixbase_epoch e) (max_epoch e) (epoch e) itw bm lr
    (lr_of_previous_iter e) (world e) (trace e) (polls e).

Definition set_lr_of_previous_iter v (e : Engine) : Engine :=
  Build_Engine (conf e) (models e) (model_names_to_freeze e) (start_epoch e)
    (fixbase_epoch e) (max_epoch e) (epoch e) (iter_to_wait e) (best_metric e)
    (lr_prev_best_metric e) v (world e) (trace e) (polls e).

Definition set_world v (e : Engine) : Engine :=
  Build_Engine (conf e) (models e) (model_names_to_freeze e) (start_epoch e)
    (fixbase_epoch e) (max_epoch e) (epoch e) (iter_to_wait e) (best_metric e)
    (lr_prev_best_metric e) (lr_of_previous_iter e) v (trace e) (polls e).

Definition set_trace_polls tr p (e : Engine) : Engine :=
  Build_Engine (conf e) (models e) (model_names_to_freeze e) (start_epoch e)
    (fixbase_epoch e) (max_epoch e) (epoch e) (iter_to_wait e) (best_metric e)
    (lr_prev_best_metric e) (lr_of_previous_iter e) (world e) tr p.

(** ** The state and error monad of the methods *)

Definition M (A : Type) : Type := Engine -> Engine * result A.

Definition ret {A} (a : A) : M A := fun e => (e, Ok a).
Definition raise {A} (x : exn) : M A := fun e => (e, Err x).
Definition bind {A B} (m : M A) (k : A -> M B) : M B :=
  fun e =>
    match m e with
    | (e', Ok a) => k a e'
    | (e', Err x) => (e', Err x)
    end.
Definition get : M Engine := fun e => (e, Ok e).
Definition modify (f : Engine -> Engine) : M unit := fun e => (f e, Ok tt).
Definition lift {A} (r : result A) : M A := fun e => (e, r).

Notation "x <- m ;; k" := (bind m (fun x => k))
  (at level 61, m at next level, right associativity).
Notation "m ;;; k" := (bind m (fun _ => k))
  (at level 61, right associativity).

Definition emit (ev : Event) : M unit :=
  modify (fun e => set_trace_polls (ev :: trace e) (polls e) e).

(** A [for] loop whose body may [break]; [s] carries the loop's locals. *)
Fixpoint for_break {A S} (body : A -> S -> M (bool * S)) (l : list A) (s : S)
    : M S :=
  match l with
  | [] => ret s
  | a :: l' =>
      r <- body a s ;;
      if fst r then ret (snd r) else for_break body l' (snd r)
  end.

(** [if stop_callback and stop_callback.check_stop()]: the callback answers
    its [n]-th call with [cb n]. *)
Definition check_stop (stop_callback : option (nat -> bool)) : M bool :=
  match stop_callback with
  | None => ret false
  | Some cb =>
      e <- get ;;
      let b := cb (polls e) in
      modify (set_trace_polls (EvPoll b :: trace e) (S (polls e))) ;;;
      ret b
  end.

Fixpoint for_each {A} (body : A -> M unit) (l : list A) : M unit :=
  match l with
  | [] => ret tt
  | a :: l' => body a ;;; for_each body l'
  end.

Definition enumerate {A} (l : list A) : list (nat * A) :=
  combine (seq 0 (List.length l)) l.

(** ** Construction and the registry *)

(** [d[key] = v]: replaces the binding of [key] or appends a new one. *)
Fixpoint setitem {V} (d : list (string * V)) (key : string) (v : V)
    : list (string * V) :=
  match d with
  | [] => [(key, v)]
  | (k, v') :: d' =>
      if String.eqb k key then (k, v) :: d' else (k, v') :: setitem d' key v
  end.

(** In-place mutation of the object bound to [key]. *)
Fixpoint update_item {V} (d : list (string * V)) (key : string) (f : V -> V)
    : list (string * V) :=
  match d with
  | [] => []
  | (k, v) :: d' =>
      if String.eqb k key then (k, f v) :: d'
      else (k, v) :: update_item d' key f
  end.

Definition register_model (name : string) (model : ModelUnit) (e : Engine)
    : Engine :=
  set_models (setitem (models e) name model) e.

(** [models] is one model (with its optimizer and scheduler) or a list. *)
Inductive ModelsArg : Type :=
| OneModel (model : ModelUnit)
| ModelList (ms : list ModelUnit).

(** [f'model_{model_id}'] *)
Definition model_name_of (model_id : nat) : string :=
  String.append "model_" (NilEmpty.string_of_uint (Nat.to_uint model_id)).

Definition Engine_init (c : Config) (ms : ModelsArg) (w : World) : Engine :=
  let self :=
    {| conf := c; models := []; model_names_to_freeze := [];
       start_epoch := 0; fixbase_epoch := 0; max_epoch := None; epoch := None;
       iter_to_wait := 0; best_metric := 0; lr_prev_best_metric := None;
       lr_of_previous_iter := None; world := w; trace := []; polls := 0 |} in
  match ms with
  | ModelList l =>
      fold_left
        (fun self (item : nat * ModelUnit) =>
           let model_name := model_name_of (fst item) in
           let self := register_model model_name (snd item) self in
           if should_freeze_aux_models c && (0 <? fst item)%nat then
             set_model_names_to_freeze
               (model_names_to_freeze self ++ [model_name]) self
           else self)
        (enumerate l) self
  | OneModel m => register_model "model" m self
  end.

Definition get_model_names (e : Engine) : list string := map fst (models e).

Inductive Mode : Type := mode_train | mode_eval | mode_test.

Definition set_model_mode (mode : Mode) : M unit :=
  modify (fun e =>
    set_models
      (map (fun item : string * ModelUnit =>
              (fst item,
               match mode with
               | mode_train => model_train (snd item)
               | _ => model_eval (snd item)
               end))
           (models e)) e).

Definition get_current_lr : M Q :=
  e <- get ;;
  name <- lift (index (get_model_names e) 0) ;;
  ret (param_group_lr (world e) name).

Definition update_lr (losses : list Loss) : M unit :=
  e <- get ;;
  for_each
    (fun item : string * ModelUnit =>
       if has_sched (snd item) then
         modify (fun e => set_world (sched_step (world e) (fst item) losses) e)
       else ret tt)
    (models e).

(** ** Freezing policy *)

Definition _should_freeze_aux_models (e : Engine) (epoch : option Z)
    : result bool :=
  if negb (should_freeze_aux_models (conf e)) then Ok false
  else
    match epoch_interval_for_aux_model_freeze (conf e) with
    | None => Ok true
    | Some iv =>
        match epoch with
        | Some ep => _get_cur_action_from_epoch_interval iv ep
        | None =>
            (* [None < first] and [None > last] raise TypeError *)
            if is_none (first iv) && is_none (last iv) then Err RuntimeError
            else Err TypeError
        end
    end.

Definition _should_turn_off_mutual_learning (e : Engine) (epoch : option Z)
    : result bool :=
  match epoch_interval_for_turn_off_mutual_learning (conf e) with
  | None => Ok false
  | Some iv =>
      match epoch with
      | Some ep => _get_cur_action_from_epoch_interval iv ep
      | None =>
          if is_none (first iv) && is_none (last iv) then Err RuntimeError
          else Err TypeError
      end
  end.

(** [model = self.models[model_name]] followed by calls that mutate it. *)
Definition on_model (model_name : string) (f : ModelUnit -> ModelUnit)
    : M unit :=
  e <- get ;;
  _ <- lift (getitem (models e) model_name) ;;
  modify (set_models (update_item (models e) model_name f)).

Definition _freeze_aux_models : M unit :=
  e <- get ;;
  for_each
    (fun model_name =>
       on_model model_name
         (fun model => open_specified_layers (model_eval model) []))
    (model_names_to_freeze e).

Definition _unfreeze_aux_models : M unit :=
  e <- get ;;
  for_each
    (fun model_name =>
       on_model model_name (fun model => open_all_layers (model_train model)))
    (model_names_to_freeze e).

Definition on_all_models (f : ModelUnit -> ModelUnit) : M unit :=
  modify (fun e =>
    set_models
      (map (fun item : string * ModelUnit => (fst item, f (snd item)))
           (models e)) e).

Definition two_stepped_transfer_learning (epoch : option Z)
    (fixbase_epoch : Z) (open_layers : option (list string)) : M unit :=
  match epoch with
  | None => raise TypeError                      (* [None + 1] *)
  | Some ep =>
      match open_layers with
      | Some ol =>
          if ep + 1 <=? fixbase_epoch then
            on_all_models (fun model => open_specified_layers model ol)
          else on_all_models open_all_layers
      | None => on_all_models open_all_layers
      end
  end.

(** The first statements of [Engine.train], up to the batch loop. *)
Definition train_prologue (fixbase_epoch : Z)
    (open_layers : option (list string)) : M unit :=
  set_model_mode mode_train ;;;
  e <- get ;;
  freeze <- lift (_should_freeze_aux_models e (epoch e)) ;;
  (if negb freeze then _unfreeze_aux_models else ret tt) ;;;
  two_stepped_transfer_learning (epoch e) fixbase_epoch open_layers ;;;
  e <- get ;;
  freeze <- lift (_should_freeze_aux_models e (epoch e)) ;;
  if freeze then _freeze_aux_models else ret tt.

(** ** Checkpoint selection *)

Definition is_some {A} (o : option A) : bool := negb (is_none o).

(** Returns [(should_exit, is_candidate_for_best)]. *)
Definition exit_on_plateau_and_choose_best (top1 top5 mAP : option Q)
    : M (bool * bool) :=
  e <- get ;;
  _ <- lift (index (get_model_names e) 0) ;;
  let last_lr := lr_of_previous_iter e in
  match top1 with
  | None => raise TypeError                      (* [np.round(None, 4)] *)
  | Some top1 =>
      let current_metric := np_round top1 4 in
      if opt_eqb (lr_prev_best_metric e) last_lr
         && Qle_bool current_metric (best_metric e)
      then
        (* not best *)
        modify (set_iter_to_wait (iter_to_wait e + 1)) ;;;
        e <- get ;;
        if set_and last_lr (fun lr => Qle_bool lr (lb_lr (conf e)))
           && (iter_to_wait e >=? train_patience (conf e))
        then ret (true, false)
        else ret (false, false)
      else
        (* best for this LR *)
        modify (set_best current_metric 0 last_lr) ;;;
        ret (false, true)
  end.

(** [save_checkpoint] and the [latest.pth] link are the file system's; the
    call is recorded in the trace. *)
Definition save_model (site : Site) (epoch : option Z) (is_best : bool)
    : M unit :=
  e <- get ;;
  _ <- lift (index (get_model_names e) 0) ;;
  match epoch with
  | None => raise TypeError                      (* ['epoch': epoch + 1] *)
  | Some ep => emit (EvSave site ep is_best)
  end.

(** ** Evaluation *)

Definition Metrics : Type := (option Q * option Q * option Q)%type.

Definition metrics_of (r : Q * Q * Q) : Metrics :=
  (Some (fst (fst r)), Some (snd (fst r)), Some (snd r)).

(** [return cmc[0], cmc[1], mAP] *)
Definition rank1_rank5_mAP (r : list Q * Q) : result (Q * Q * Q) :=
  c0 <-? index (fst r) 0 ;;
  c1 <-? index (fst r) 1 ;;
  Ok (c0, c1, snd r).

(** The label map built from the dataset's and the model's classes is an
    argument of [metrics.evaluate_classification] only. *)
Definition _evaluate_classification (e : Engine) (model_name : string)
    (data_loader : EvalLoader Images) : result (Q * Q * Q) :=
  rank1_rank5_mAP (evaluate_classification (world e) model_name data_loader).

(** [metrics.evaluate_lfw] is called for its printed output only. *)
Definition _evaluate_pairwise (e : Engine) (model_name : string)
    (data_loader : EvalLoader Images) : result unit :=
  Ok tt.

Fixpoint _feature_extraction_loop (e : Engine) (model_name : string)
    (data_loader : EvalLoader Images)
    (f_ : list Tensor) (pids_ camids_ : list Z)
    : result (list Tensor * list Z * list Z) :=
  match data_loader with
  | [] => Ok (f_, pids_, camids_)
  | data :: rest =>
      (* imgs, pids, camids = self.parse_data_for_eval(data) *)
      let imgs := fst (fst data) in
      let pids := snd (fst data) in
      let camids := snd data in
      (* features = model(imgs),      -- the comma makes a 1-tuple *)
      let features := PyTuple [model_call (world e) model_name imgs] in
      (* features = features.data.cpu() *)
      features <-? data_cpu features ;;
      _feature_extraction_loop e model_name rest
        (f_ ++ [features]) (pids_ ++ pids) (camids_ ++ camids)
  end.

Definition _feature_extraction (e : Engine) (model_name : string)
    (data_loader : EvalLoader Images) : result (Tensor * list Z * list Z) :=
  r <-? _feature_extraction_loop e model_name data_loader [] [] [] ;;
  f_ <-? torch_cat (fst (fst r)) ;;
  Ok (f_, snd (fst r), snd r).

Definition _evaluate_reid (e : Engine) (model_name : string)
    (query_loader gallery_loader : EvalLoader Images) (a : TestArgs.t)
    : result (Q * Q * Q) :=
  q <-? _feature_extraction e model_name query_loader ;;
  g <-? _feature_extraction e model_name gallery_loader ;;
  let qf := fst (fst q) in
  let gf := fst (fst g) in
  let qf' := if TestArgs.normalize_feature a then F_normalize qf else qf in
  let gf' := if TestArgs.normalize_feature a then F_normalize gf else gf in
  let distmat := compute_distance_matrix qf' gf' (TestArgs.dist_metric a) in
  let distmat' :=
    if TestArgs.rerank a then
      re_ranking distmat
        (compute_distance_matrix qf' qf' (TestArgs.dist_metric a))
        (compute_distance_matrix gf' gf' (TestArgs.dist_metric a))
    else distmat in
  rank1_rank5_mAP
    (evaluate_rank distmat' (snd (fst q)) (snd (fst g)) (snd q) (snd g)
       (TestArgs.use_metric_cuhk03 a)).

(** The body of the inner loop of [test] up to [if model_id == 0]: the new
    value of [(cur_top1, cur_top5, cur_mAP)]. *)
Definition test_model (e : Engine) (a : TestArgs.t) (dataset_name : string)
    (model_name : string) (model : ModelUnit) (cur : Metrics)
    : result Metrics :=
  if classification model then
    loaders <-? getitem (test_loader (conf e)) dataset_name ;;
    query <-? getitem loaders "query" ;;
    r <-? _evaluate_classification e model_name query ;;
    Ok (metrics_of r)
  else if contrastive model then
    Ok cur
  else if String.eqb dataset_name "lfw" then
    loaders <-? getitem (test_loader (conf e)) dataset_name ;;
    pairs <-? getitem loaders "pairs" ;;
    _ <-? _evaluate_pairwise e model_name pairs ;;
    Ok cur
  else
    loaders <-? getitem (test_loader (conf e)) dataset_name ;;
    query <-? getitem loaders "query" ;;
    gallery <-? getitem loaders "gallery" ;;
    r <-? _evaluate_reid e model_name query gallery a ;;
    Ok (metrics_of r).

(** [for model_id, (model_name, model) in enumerate(self.models.items())];
    the state of the loop is [(top, cur)]. *)
Fixpoint test_models (e : Engine) (a : TestArgs.t) (dataset_name : string)
    (ms : list (nat * (string * ModelUnit))) (top cur : Metrics)
    : result (Metrics * Metrics) :=
  match ms with
  | [] => Ok (top, cur)
  | (model_id, (model_name, model)) :: rest =>
      cur' <-? test_model e a dataset_name model_name model cur ;;
      let top' := if (model_id =? 0)%nat then cur' else top in
      test_models e a dataset_name rest top' cur'
  end.

(** [for dataset_name in targets] *)
Fixpoint test_datasets (e : Engine) (a : TestArgs.t) (targets : list string)
    (top cur : Metrics) : result (Metrics * Metrics) :=
  match targets with
  | [] => Ok (top, cur)
  | dataset_name :: rest =>
      r <-? test_models e a dataset_name (enumerate (models e)) top cur ;;
      test_datasets e a rest (fst r) (snd r)
  end.

Definition test (epoch : option Z) (a : TestArgs.t) : M Metrics :=
  set_model_mode mode_eval ;;;
  e <- get ;;
  let targets := map fst (test_loader (conf e)) in
  r <- lift (test_datasets e a targets (None, None, None) (None, None, None)) ;;
  ret (fst r).

(** ** Training *)

(** One turn of [for self.batch_idx, data in enumerate(self.train_loader)];
    the result says whether the loop breaks. *)
Definition train_batch (stop_callback : option (nat -> bool))
    (item : nat * Batch) (losses : list Loss) : M (bool * list Loss) :=
  e <- get ;;
  let step := forward_backward (world e) (snd item) in
  modify (set_world (fst step)) ;;;
  emit (EvBatch (epoch e) (fst item)) ;;;
  lr <- get_current_lr ;;
  modify (set_lr_of_previous_iter (Some lr)) ;;;
  stop <- check_stop stop_callback ;;
  ret (stop, losses ++ [snd step]).

Definition train (fixbase_epoch : Z) (open_layers : option (list string))
    (lr_finder : bool) (stop_callback : option (nat -> bool)) : M unit :=
  train_prologue fixbase_epoch open_layers ;;;
  e <- get ;;
  losses <- for_break (train_batch stop_callback)
              (enumerate (train_loader (conf e))) [] ;;
  if negb lr_finder then update_lr losses else ret tt.

(** ** The pipeline *)

Definition test_args (a : RunArgs.t) (rerank lr_finder : bool) : TestArgs.t :=
  {| TestArgs.dist_metric := RunArgs.dist_metric a;
     TestArgs.normalize_feature := RunArgs.normalize_feature a;
     TestArgs.use_metric_cuhk03 := RunArgs.use_metric_cuhk03 a;
     TestArgs.rerank := rerank;
     TestArgs.lr_finder := lr_finder |}.

(** [range(start, stop)] *)
Definition range (start stop : Z) : list Z :=
  map (fun i => start + Z.of_nat i) (seq 0 (Z.to_nat (stop - start))).

(** The periodic evaluation inside the epoch loop; the result says whether
    the loop breaks. *)
Definition run_periodic_eval (a : RunArgs.t) (ep : Z) : M bool :=
  emit (EvTest Periodic (Some ep)) ;;;
  e <- get ;;
  r <- test (epoch e) (test_args a false (RunArgs.lr_finder a)) ;;
  let top1 := fst (fst r) in
  let top5 := snd (fst r) in
  let mAP := snd r in
  (if RunArgs.lr_finder a then _ <- get_current_lr ;; ret tt else ret tt) ;;;
  if negb (RunArgs.lr_finder a) then
    d <- exit_on_plateau_and_choose_best top1 top5 mAP ;;
    e <- get ;;
    let should_exit := early_stoping (conf e) && fst d in
    (if save_chkpt (conf e) then save_model Periodic (epoch e) (snd d)
     else ret tt) ;;;
    ret should_exit
  else ret false.

(** [x == y] for an int [x] and [y] an int or [None]. *)
Definition int_eqb_opt (x : Z) (y : option Z) : bool :=
  match y with
  | Some v => x =? v
  | None => false
  end.

(** One turn of [for self.epoch in range(self.start_epoch, self.max_epoch)]. *)
Definition run_epoch (a : RunArgs.t) (ep : Z) (_ : unit) : M (bool * unit) :=
  modify (set_epoch (Some ep)) ;;;
  train (RunArgs.fixbase_epoch a) (RunArgs.open_layers a)
    (RunArgs.lr_finder a) (RunArgs.stop_callback a) ;;;
  stop <- check_stop (RunArgs.stop_callback a) ;;
  if stop then ret (true, tt)
  else
    e <- get ;;
    if (ep + 1 >=? RunArgs.start_eval a)
       && (RunArgs.eval_freq a >? 0)
       && ((ep + 1) mod RunArgs.eval_freq a =? 0)
       && negb (int_eqb_opt (ep + 1) (max_epoch e))
    then
      brk <- run_periodic_eval a ep ;;
      ret (brk, tt)
    else ret (false, tt).

(** The block under [if self.max_epoch > 0]; the result is [top1_final]. *)
Definition run_final_test (a : RunArgs.t) : M (option Q) :=
  e <- get ;;
  emit (EvTest Final (epoch e)) ;;;
  r <- test (epoch e) (test_args a false (RunArgs.lr_finder a)) ;;
  let top1_final := fst (fst r) in
  let top5 := snd (fst r) in
  let mAP := snd r in
  e <- get ;;
  (if save_chkpt (conf e) && negb (RunArgs.lr_finder a) then
     d <- exit_on_plateau_and_choose_best top1_final top5 mAP ;;
     e <- get ;;
     save_model Final (epoch e) (snd d)
   else ret tt) ;;;
  (if RunArgs.lr_finder a then _ <- get_current_lr ;; ret tt else ret tt) ;;;
  ret top1_final.

Definition run (a : RunArgs.t) : M RunResult :=
  if RunArgs.visrank a && negb (RunArgs.test_only a) then raise ValueError
  else if RunArgs.test_only a then
    emit (EvTest TestOnly (Some 0)) ;;;
    r <- test (Some 0) (test_args a (RunArgs.rerank a) false) ;;
    ret (TestResults (fst (fst r)) (snd (fst r)) (snd r))
  else
    (if negb (RunArgs.lr_finder a) then
       emit (EvTest BeforeTraining (Some 0)) ;;;
       _ <- test (Some 0) (test_args a (RunArgs.rerank a) false) ;;
       ret tt
     else ret tt) ;;;
    modify (set_run_epochs (RunArgs.start_epoch a) (RunArgs.fixbase_epoch a)
              (Some (RunArgs.max_epoch a))) ;;;
    for_break (run_epoch a)
      (range (RunArgs.start_epoch a) (RunArgs.max_epoch a)) tt ;;;
    (* [top1_final] stays unassigned unless the block below runs *)
    top1_final <-
      (if RunArgs.max_epoch a >? 0 then
         t <- run_final_test a ;; ret (Some t)
       else ret None) ;;
    match top1_final with
    | Some t => ret (Top1Final t)
    | None => raise UnboundLocalError            (* [return top1_final] *)
    end.

(** ** Predicates on the registry *)

(** All the named models are registered. *)
Definition registered (names : list string) (e : Engine) : Prop :=
  forall name, In name names -> exists m, getitem (models e) name = Ok m.

(** Every registered model satisfies [P]. *)
Definition all_models (P : ModelUnit -> Prop) (e : Engine) : Prop :=
  forall name m, getitem (models e) name = Ok m -> P m.

(** The layers [two_stepped_transfer_learning] leaves trainable at epoch
    [ep] in a model with the layers of [m]. *)
Definition layers_open_at (ep fixbase_epoch : Z)
    (open_layers : option (list string)) (m : ModelUnit) : list string :=
  match open_layers with
  | Some ol =>
      if ep + 1 <=? fixbase_epoch then
        filter (fun l => mem_string l ol) (layers m)
      else layers m
  | None => layers m
  end.

(** ** Predicates on the trace *)

Definition is_positive_poll (ev : Event) : bool :=
  match ev with
  | EvPoll true => true
  | _ => false
  end.

(** The stop callback has answered positively at some point of [tr]. *)
Definition stop_seen (tr : list Event) : bool := existsb is_positive_poll tr.

(** What may still happen once the callback has answered positively: the
    poll after [train], the final test and its checkpoint. *)
Definition allowed_after_stop (ev : Event) : bool :=
  match ev with
  | EvPoll true => true
  | EvTest Final _ => true
  | EvSave Final _ _ => true
  | _ => false
  end.

(** Every event of [tr] (newest first) that follows a positive poll is
    allowed after a stop. *)
Fixpoint stop_respected (tr : list Event) : bool :=
  match tr with
  | [] => true
  | ev :: older =>
      (negb (stop_seen older) || allowed_after_stop ev)
      && stop_respected older
  end.

(** A stop signal that stays positive once it is. *)
Definition latching (stop_callback : option (nat -> bool)) : Prop :=
  forall cb, stop_callback = Some cb ->
    forall i j, (i <= j)%nat -> cb i = true -> cb j = true.

(** The number of training steps of epoch [ep] in [tr]. *)
Definition batches_done (tr : list Event) (ep : Z) : nat :=
  List.length
    (filter (fun ev => match ev with
                       | EvBatch (Some ep') _ => ep' =? ep
                       | _ => false
                       end) tr).

(** Every epoch passed to [save_model] has trained all [num_batches]
    batches. *)
Definition only_completed_epochs_saved (num_batches : nat) (tr : list Event)
    : bool :=
  forallb (fun ev => match ev with
                     | EvSave _ ep _ => (batches_done tr ep =? num_batches)%nat
                     | _ => true
                     end) tr.

(** ** Assertions on the methods *)

(** [m] neither records an event nor polls the stop callback. *)
Definition quiet {A} (m : M A) : Prop :=
  forall e, trace (fst (m e)) = trace e /\ polls (fst (m e)) = polls e.

(** Run from a state in [P], [m] returns [a] in a state in [Q a], or raises
    in a state in [R]. *)
Definition hoare {A} (P : Engine -> Prop) (m : M A)
    (Q : A -> Engine -> Prop) (R : Engine -> Prop) : Prop :=
  forall e, P e ->
    match m e with
    | (e', Ok a) => Q a e'
    | (e', Err _) => R e'
    end.

(** The stop signal has been respected so far, and if it was seen positive
    the callback will answer positively again. *)
Definition Good (stop_callback : option (nat -> bool)) (e : Engine) : Prop :=
  stop_respected (trace e) = true /\
  (stop_seen (trace e) = true ->
   match stop_callback with
   | Some cb => cb (polls e) = true
   | None => False
   end).

(** [Good], and no positive answer yet. *)
Definition Cold (stop_callback : option (nat -> bool)) (e : Engine) : Prop :=
  Good stop_callback e /\ stop_seen (trace e) = false.

(** After a loop body: [Good] if it breaks, [Cold] if it goes on. *)
Definition after_body {S} (stop_callback : option (nat -> bool))
    (r : bool * S) (e : Engine) : Prop :=
  if fst r then Good stop_callback e else Cold stop_callback e.

(** ** Sequences of selector calls *)

(** What one call of the selector is observed to do. *)
Record Decision : Type := {
  should_exit : bool;
  is_candidate_for_best : bool;
  iter_to_wait_after : Z
}.

(** An evaluation round as the selector sees it: [train] has left [lr] in
    [self.lr_of_previous_iter], [test] has returned [top1]. *)
Definition selector_call (lr : option Q) (top1 : Q) (e : Engine)
    : Engine * result Decision :=
  (d <- exit_on_plateau_and_choose_best (Some top1) None None ;;
   e' <- get ;;
   ret {| should_exit := fst d; is_candidate_for_best := snd d;
          iter_to_wait_after := iter_to_wait e' |})
    (set_lr_of_previous_iter lr e).

(** Consecutive rounds; stops at the first exception. *)
Fixpoint selector_calls (rounds : list (option Q * Q)) (e : Engine)
    : Engine * result (list Decision) :=
  match rounds with
  | [] => (e, Ok [])
  | (lr, top1) :: rest =>
      match selector_call lr top1 e with
      | (e', Ok d) =>
          match selector_calls rest e' with
          | (e'', Ok ds) => (e'', Ok (d :: ds))
          | (e'', Err x) => (e'', Err x)
          end
      | (e', Err x) => (e', Err x)
      end
  end.

End WithExternals.

(* ================================================================== *)
(** * A small concrete world

    The learning rate is the whole state of the optimizer, a scheduler step
    divides it by ten, and an evaluation loader is recognised by the image
    ids it yields. *)

Definition toy_score (model_name : string) (loader : EvalLoader nat) : Q :=
  let base := if String.eqb model_name "model_0" then 10 else 20 in
  let id := match loader with
            | [] => 0
            | data :: _ => Z.of_nat (fst (fst data))
            end in
  (inject_Z (base + id) / 100)%Q.

Definition toy_externals : Externals :=
  {| World := Q;
     Batch := unit;
     Loss := unit;
     Images := nat;
     Tensor := list nat;
     forward_backward := fun w _ => (w, tt);
     param_group_lr := fun w _ => w;
     sched_step := fun w _ _ => (w / 10)%Q;
     model_call := fun _ _ imgs => [imgs];
     evaluate_classification := fun _ model_name loader =>
       ([toy_score model_name loader; toy_score model_name loader],
        toy_score model_name loader);
     F_normalize := fun t => t;
     compute_distance_matrix := fun q g _ => q ++ g;
     re_ranking := fun d _ _ => d;
     evaluate_rank := fun _ _ _ _ _ _ => ([1%Q; 1%Q], 1%Q);
     torch_cat := fun ts => match ts with
                            | [] => Err RuntimeError
                            | _ => Ok (List.concat ts)
                            end |}.

Definition toy_model (is_classification is_contrastive : bool) : ModelUnit :=
  {| classification := is_classification; contrastive := is_contrastive;
     layers := ["backbone"; "classifier"]; training := true;
     trainable := ["backbone"; "classifier"]; has_sched := true |}.

(** A loader that yields one batch holding image [id]. *)
Definition toy_loader (id : nat) : EvalLoader nat := [(id, [7], [0])].

Definition toy_config (patience : Z) (floor : Q) (freeze : bool)
    (interval : option (EpochIntervalToValue bool))
    (datasets : list (string * list (string * EvalLoader nat)))
    (num_batches : nat) : @Config toy_externals :=
  @Build_Config toy_externals
    (repeat tt num_batches)   (* train_loader *)
    datasets                  (* test_loader *)
    false                     (* use_gpu *)
    true                      (* save_chkpt *)
    patience                  (* train_patience *)
    floor                     (* lb_lr *)
    true                      (* early_stoping *)
    freeze                    (* should_freeze_aux_models *)
    interval                  (* epoch_interval_for_aux_model_freeze *)
    None.                     (* epoch_interval_for_turn_off_mutual_learning *)

(** A freshly constructed engine with one classification model. *)
Definition toy_engine (patience : Z) (floor : Q) : @Engine toy_externals :=
  Engine_init (toy_config patience floor false None [] 2)
    (OneModel (toy_model true false)) (1 # 100).

(** Mutual learning: [model_0] with one auxiliary model, auxiliary freezing
    enabled, at epoch 0. *)
Definition mutual_engine (interval : option (EpochIntervalToValue bool))
    : @Engine toy_externals :=
  set_epoch (Some 0)
    (Engine_init (toy_config 3 (1 # 100000) true interval [] 2)
       (ModelList [toy_model true false; toy_model true false]) (1 # 100)).

(** Freeze the auxiliary models from epoch 5 on. *)
Definition freeze_from_5 : EpochIntervalToValue bool :=
  {| first := Some 5; last := None;
     value_inside := true; value_outside := false |}.

(** A contrastive main model with a classification model beside it, tested
    on two datasets. *)
Definition two_dataset_engine : @Engine toy_externals :=
  Engine_init
    (toy_config 3 (1 # 100000) false None
       [("d1", [("query", toy_loader 1); ("gallery", toy_loader 2)]);
        ("d2", [("query", toy_loader 3); ("gallery", toy_loader 4)])] 2)
    (ModelList [toy_model false true; toy_model true false]) (1 # 100).

Definition toy_test_args : TestArgs.t :=
  {| TestArgs.dist_metric := "euclidean";
     TestArgs.normalize_feature := false;
     TestArgs.use_metric_cuhk03 := false;
     TestArgs.rerank := false;
     TestArgs.lr_finder := false |}.

(** A classification model, one test dataset, three batches an epoch. *)
Definition training_engine : @Engine toy_externals :=
  Engine_init
    (toy_config 3 (1 # 100000) false None
       [("d1", [("query", toy_loader 1)])] 3)
    (OneModel (toy_model true false)) (1 # 100).

(** Two epochs with an evaluation after each; [stop] is the stop callback. *)
Definition toy_run_args (max_epoch : Z) (stop : option (nat -> bool))
    : RunArgs.t :=
  {| RunArgs.max_epoch := max_epoch;
     RunArgs.start_epoch := 0;
     RunArgs.fixbase_epoch := 0;
     RunArgs.open_layers := None;
     RunArgs.start_eval := 0;
     RunArgs.eval_freq := 1;
     RunArgs.test_only := false;
     RunArgs.dist_metric := "euclidean";
     RunArgs.normalize_feature := false;
     RunArgs.visrank := false;
     RunArgs.use_metric_cuhk03 := false;
     RunArgs.rerank := false;
     RunArgs.lr_finder := false;
     RunArgs.stop_callback := stop |}.

(** The signal turns positive at the fifth poll and stays so. *)
Definition stop_from_fifth_poll : nat -> bool := fun n => (4 <=? n)%nat.

(** Predicates on lists of metrics. *)
Fixpoint strictly_increasing (l : list Q) : Prop :=
  match l with
  | [] => True
  | x :: l' =>
      match l' with
      | [] => True
      | y :: _ => x < y /\ strictly_increasing l'
      end
  end%Q.

(* ================================================================== *)
(** * Further notions used by the properties of the engine *)

(** The number of selector calls since the last best-candidate, counted from
    [start]. *)
Definition stall_count (start : Z) (ds : list Decision) : Z :=
  fold_left
    (fun k d => if is_candidate_for_best d then 0 else k + 1) ds start.

(** An LR at which the selector may ask to exit: a number, not above the
    floor. *)
Definition at_floor (floor : Q) (lr : option Q) : bool :=
  set_and lr (fun x => Qle_bool x floor).

Section TrainingNotions.
Context {ext : Externals}.

(** [m'] is [m] in another mode or with other trainable layers. *)
Definition mode_change (m m' : ModelUnit) : Prop :=
  classification m' = classification m /\ contrastive m' = contrastive m /\
  layers m' = layers m /\ has_sched m' = has_sched m.

(** [e'] is [e] but for the mode and the trainable layers of its models. *)
Definition same_but_modes (e e' : Engine) : Prop :=
  exists ms,
    e' = set_models ms e /\
    Forall2 (fun item item' => fst item' = fst item /\
                               mode_change (snd item) (snd item'))
      (models e) ms.

(** [m] only switches modes and trainable layers, also when it raises. *)
Definition modes_only {A} (m : M A) : Prop :=
  forall e, same_but_modes e (fst (m e)).

(** The parameters after the training steps on [batches], in order. *)
Definition train_steps (w : World) (batches : list Batch) : World :=
  fold_left (fun w data => fst (forward_backward w data)) batches w.

(** The loss summaries of these steps. *)
Fixpoint train_losses (w : World) (batches : list Batch) : list Loss :=
  match batches with
  | [] => []
  | data :: rest =>
      snd (forward_backward w data)
      :: train_losses (fst (forward_backward w data)) rest
  end.

(** One step of every scheduler there is, in registration order. *)
Definition scheduler_steps (ms : list (string * ModelUnit))
    (losses : list Loss) (w : World) : World :=
  fold_left
    (fun w (item : string * ModelUnit) =>
       if has_sched (snd item) then sched_step w (fst item) losses else w)
    ms w.

(** The engine [e] after training steps: new parameters, recorded LR,
    trace and poll count. *)
Definition after_batches (w : World) (lr : option Q) (tr : list Event)
    (p : nat) (e : Engine) : Engine :=
  set_trace_polls tr p (set_lr_of_previous_iter lr (set_world w e)).

(** The batches [train] trains when the [n]-th poll of the stop callback is
    answered by [cb n] and [p] polls were made before: up to and including
    the first one that is followed by a positive answer. *)
Fixpoint trained_batches (cb : nat -> bool) (p : nat) (batches : list Batch)
    : list Batch :=
  match batches with
  | [] => []
  | data :: rest =>
      if cb p then [data] else data :: trained_batches cb (S p) rest
  end.

(** The events of these steps, oldest first, from batch index [i] on. *)
Fixpoint batch_events (cb : nat -> bool) (ep : option Z) (p i : nat)
    (batches : list Batch) : list Event :=
  match batches with
  | [] => []
  | data :: rest =>
      EvBatch ep i :: EvPoll (cb p)
      :: (if cb p then [] else batch_events cb ep (S p) (S i) rest)
  end.

End TrainingNotions.

Section RunNotions.
Context {ext : Externals}.

(** [ep] is one of [range(start_epoch, max_epoch)]. *)
Definition in_epochs (a : RunArgs.t) (ep : Z) : bool :=
  (RunArgs.start_epoch a <=? ep) && (ep <? RunArgs.max_epoch a).

(** The condition of [run] for a periodic evaluation after epoch [ep]. *)
Definition periodic_due (a : RunArgs.t) (ep : Z) : bool :=
  (ep + 1 >=? RunArgs.start_eval a)
  && (RunArgs.eval_freq a >? 0)
  && ((ep + 1) mod RunArgs.eval_freq a =? 0)
  && negb (ep + 1 =? RunArgs.max_epoch a).

(** The events a call [run a] may record on an engine configured by [c]. *)
Definition may_emit (a : RunArgs.t) (c : Config) (ev : Event) : bool :=
  match ev with
  | EvTest TestOnly _ => RunArgs.test_only a
  | EvTest BeforeTraining _ =>
      negb (RunArgs.test_only a) && negb (RunArgs.lr_finder a)
  | EvTest Periodic (Some ep) =>
      negb (RunArgs.test_only a) && in_epochs a ep && periodic_due a ep
  | EvTest Periodic None => false
  | EvTest Final _ =>
      negb (RunArgs.test_only a) && (RunArgs.max_epoch a >? 0)
  | EvBatch (Some ep) batch_idx =>
      negb (RunArgs.test_only a) && in_epochs a ep
      && (batch_idx <? List.length (train_loader c))%nat
  | EvBatch None _ => false
  | EvPoll _ =>
      negb (RunArgs.test_only a) && is_some (RunArgs.stop_callback a)
  | EvSave Periodic ep _ =>
      negb (RunArgs.test_only a) && in_epochs a ep && periodic_due a ep
      && save_chkpt c && negb (RunArgs.lr_finder a)
  | EvSave Final _ _ =>
      negb (RunArgs.test_only a) && (RunArgs.max_epoch a >? 0)
      && save_chkpt c && negb (RunArgs.lr_finder a)
  | EvSave _ _ _ => false
  end.

(** [m] records no event and keeps the configuration, the epoch and
    [max_epoch]. *)
Definition steady {A} (m : M A) : Prop :=
  forall e,
    trace (fst (m e)) = trace e /\ conf (fst (m e)) = conf e /\
    epoch (fst (m e)) = epoch e /\ max_epoch (fst (m e)) = max_epoch e.

(** The trace of [e] extends [tr0] by events [run a] may record, and the
    configuration is [c]. *)
Definition Emitted (a : RunArgs.t) (c : Config) (tr0 : list Event)
    (e : Engine) : Prop :=
  conf e = c /\
  exists new, trace e = new ++ tr0 /\ forallb (may_emit a c) new = true.

(** [Emitted] between the epochs of the loop of [run]. *)
Definition EmittedLoop (a : RunArgs.t) (c : Config) (tr0 : list Event)
    (e : Engine) : Prop :=
  Emitted a c tr0 e /\ max_epoch e = Some (RunArgs.max_epoch a).

(** [Emitted] inside epoch [ep]. *)
Definition EmittedEpoch (a : RunArgs.t) (c : Config) (tr0 : list Event)
    (ep : Z) (e : Engine) : Prop :=
  EmittedLoop a c tr0 e /\ epoch e = Some ep /\ in_epochs a ep = true.

End RunNotions.

(* ================================================================== *)
(** * tools/convert_to_onnx.py *)

Module ConvertToOnnx.

(** An entry of [cfg.data.sources]: a tuple or list of dataset names
    (clustered sources), or one name. *)
Inductive Source : Type :=
| SourceGroup (names : list string)
| SourceName (name : string).

(** What [chkpt['num_classes']] holds in the snapshot, if the key is there. *)
Inductive SnapClasses : Type :=
| NoNumClasses
| NumClassesInt (n : Z)
| NumClassesList (l : list Z).

(** A value, or a failed [assert]. *)
Inductive checked (A : Type) : Type :=
| Passed (a : A)
| AssertionError.

Arguments Passed {A} a.
Arguments AssertionError {A}.

(** [x is not None and len(x) > 0] *)
Definition given (num_classes : option (list Z)) : bool :=
  match num_classes with
  | Some (_ :: _) => true
  | _ => false
  end.

Definition is_group (src : Source) : bool :=
  match src with
  | SourceGroup _ => true
  | SourceName _ => false
  end.

Section WithCheckpoints.
(** [load_checkpoint(snap_path)], the file system's. *)
Variable load_checkpoint : string -> SnapClasses.

Definition parse_num_classes (source_datasets : list Source)
    (classification : bool) (num_classes : option (list Z))
    (snap_path : option string) : checked (list Z) :=
  let after_snapshot :=
    if classification then
      let num_classes' :=
        match snap_path with
        | Some path =>
            let num_classes_from_snap :=
              match load_checkpoint path with
              | NoNumClasses => None
              | NumClassesInt n => Some [n]
              | NumClassesList l => Some l
              end in
            match num_classes with
            | None => num_classes_from_snap
            | Some _ => num_classes
            end
        | None => num_classes
        end in
      if given num_classes' then Passed num_classes' else AssertionError
    else Passed num_classes in
  match after_snapshot with
  | AssertionError => AssertionError
  | Passed num_classes' =>
      match num_classes' with
      | Some (n :: l) => Passed (n :: l)
      | _ =>
          let num_clustered := List.length (filter is_group source_datasets) in
          let num_rest :=
            List.length
              (filter (fun src => negb (is_group src)) source_datasets) in
          let total_num_sources :=
            (num_clustered + (if (0 <? num_rest)%nat then 1 else 0))%nat in
          if (0 <? total_num_sources)%nat
          then Passed (repeat 0 total_num_sources)
          else AssertionError
      end
  end.

End WithCheckpoints.

End ConvertToOnnx.

(* ================================================================== *)
(** * tools/data/prepare_submission.py *)

Module PrepareSubmission.

(** The exceptions of this script: [int(s)] raises ValueError; the others
    are the failed assertions of [load_tracks], told apart by their place,
    and the errors numpy raises in [find_matches]. *)
Inductive Error : Type :=
| BadInteger           (* int(s) *)
| EmptyLine            (* assert len(ids) > 0 *)
| OutOfRange           (* assert 0 <= sample_id < gallery_size *)
| DuplicateId          (* assert len(track_ids) == len(set(track_ids)) *)
| SizeMismatch         (* assert sum(...) == gallery_size *)
| NothingToConcatenate (* np.concatenate of no array *)
| BadIndex.            (* an index out of bounds, or too many indices *)

Inductive outcome (A : Type) : Type :=
| Done (a : A)
| Raised (err : Error).

Arguments Done {A} a.
Arguments Raised {A} err.

Definition and_then {A B} (o : outcome A) (k : A -> outcome B) : outcome B :=
  match o with
  | Done a => k a
  | Raised err => Raised err
  end.

(** [for x in l: ...] collecting results, stopping at the first raise. *)
Fixpoint traverse {A B} (f : A -> outcome B) (l : list A) : outcome (list B) :=
  match l with
  | [] => Done []
  | x :: l' =>
      and_then (f x) (fun y =>
      and_then (traverse f l') (fun ys => Done (y :: ys)))
  end.

Definition space : Ascii.ascii := Ascii.ascii_of_nat 32.
Definition newline : Ascii.ascii := Ascii.ascii_of_nat 10.

(** [s.replace(c, '')] for a one-character [c]. *)
Fixpoint remove_char (c : Ascii.ascii) (s : string) : string :=
  match s with
  | EmptyString => EmptyString
  | String x s' =>
      if Ascii.eqb x c then remove_char c s' else String x (remove_char c s')
  end.

(** [s.split(c)]: the pieces between the occurrences of [c], empty ones
    included. *)
Fixpoint split_char (c : Ascii.ascii) (s : string) : list string :=
  match s with
  | EmptyString => [EmptyString]
  | String x s' =>
      if Ascii.eqb x c then EmptyString :: split_char c s'
      else
        match split_char c s' with
        | [] => [String x EmptyString]
        | piece :: pieces => String x piece :: pieces
        end
  end.

(** [c.join(pieces)] *)
Fixpoint join_char (c : Ascii.ascii) (pieces : list string) : string :=
  match pieces with
  | [] => EmptyString
  | [piece] => piece
  | piece :: pieces' => String.append piece (String c (join_char c pieces'))
  end.

(** [[s for s in line.replace('\n', '').split(' ') if len(s) > 0]] *)
Definition str_values (line : string) : list string :=
  filter (fun s => negb (String.eqb s EmptyString))
    (split_char space (remove_char newline line)).

(** [str(n)] for an int. *)
Definition str (n : Z) : string := NilZero.string_of_int (Z.to_int n).

Definition mem_Z (x : Z) (l : list Z) : bool := existsb (Z.eqb x) l.

(** [len(l) == len(set(l))] *)
Fixpoint all_distinct (l : list Z) : bool :=
  match l with
  | [] => true
  | x :: l' => negb (mem_Z x l') && all_distinct l'
  end.

(** [range(n)] *)
Definition ids_upto (n : nat) : list Z := map Z.of_nat (seq 0 n).

Section WithInt.
(** [int(s)]; [None] stands for ValueError. *)
Variable int : string -> option Z.

(** The body of the loop over the lines of the tracks file. *)
Definition parse_track (gallery_size : nat) (line : string)
    : outcome (list Z) :=
  and_then
    (traverse (fun s => match int s with
                        | Some v => Done (v - 1)
                        | None => Raised BadInteger
                        end) (str_values line)) (fun ids =>
  if (0 <? List.length ids)%nat then
    and_then
      (traverse (fun sample_id =>
                   if (0 <=? sample_id) && (sample_id <? Z.of_nat gallery_size)
                   then Done sample_id else Raised OutOfRange) ids)
      (fun _ => Done ids)
  else Raised EmptyLine).

(** [lines] are the lines of the file. The gallery images without track
    info are appended as tracks of their own, in the iteration order of a
    Python set, here ascending. *)
Definition load_tracks (lines : list string) (gallery_size : nat)
    : outcome (list (list Z)) :=
  and_then (traverse (parse_track gallery_size) lines) (fun tracks =>
  let track_ids := List.concat tracks in
  if all_distinct track_ids then
    let rest_ids :=
      filter (fun i => negb (mem_Z i track_ids)) (ids_upto gallery_size) in
    let tracks' := tracks ++ map (fun rest_id => [rest_id]) rest_ids in
    if (list_sum (map (@List.length Z) tracks') =? gallery_size)%nat
    then Done tracks'
    else Raised SizeMismatch
  else Raised DuplicateId).

End WithInt.

(** One line of the submission file for a row of the matches. *)
Definition dump_row (row : list Z) : string :=
  String.append (join_char space (map str (map (fun m => m + 1) row)))
    (String newline EmptyString).

(** The lines [dump_matches] writes. *)
Definition dump_matches (matches : list (list Z)) : list string :=
  map dump_row matches.

Section WithNumpy.
(** Distances, [np.percentile(values, 10)] and [np.argsort(values)]. *)
Variable Dist : Type.
Variable percentile10 : list Dist -> Dist.
Variable argsort : list Dist -> list nat.

(** [l[i]] for every [i] of [ids]. *)
Definition take_ids {A} (l : list A) (ids : list nat) : outcome (list A) :=
  traverse (fun i => match nth_error l i with
                     | Some x => Done x
                     | None => Raised BadIndex
                     end) ids.

(** [np.array(rows)[:, :top_k]]: needs a row to be two-dimensional. *)
Definition first_columns (top_k : nat) (rows : list (list nat))
    : outcome (list (list nat)) :=
  match rows with
  | [] => Raised BadIndex
  | _ => Done (map (firstn top_k) rows)
  end.

(** [distance_matrix] has a row per query and a column per gallery image;
    [tracks] partition the gallery. *)
Definition find_matches (distance_matrix : list (list Dist))
    (tracks : list (list nat)) (top_k : nat) (enable_track_info : bool)
    : outcome (list (list nat)) :=
  if negb enable_track_info then
    Done (map (fun row => firstn top_k (argsort row)) distance_matrix)
  else
    match tracks with
    | [] => Raised NothingToConcatenate
    | _ =>
        (* track_distances[q][t] = percentile of the distances of query q
           to the members of track t *)
        and_then
          (traverse (fun row =>
             traverse (fun track_ids =>
               and_then (take_ids row track_ids) (fun distances =>
               Done (percentile10 distances))) tracks) distance_matrix)
          (fun track_distances =>
        and_then
          (traverse (fun group_distances =>
             and_then (take_ids tracks (argsort group_distances))
               (fun ordered => Done (List.concat ordered)))
             track_distances)
          (fun out_matches => first_columns top_k out_matches))
    end.

End WithNumpy.

(** A reader of plain decimal numerals, for concrete runs. *)
Definition decimal_int (s : string) : option Z :=
  option_map Z.of_int (NilZero.int_of_string s).

End PrepareSubmission.

(** Reference versions of the two numpy calls of [find_matches] on rational
    distances, for concrete runs: [np.argsort] as a stable insertion sort of
    the indices, [np.percentile(values, 10)] with numpy's default linear
    interpolation (for a non-empty list of values). *)
Module NumpyQ.

Fixpoint insert_by_value (p : nat * Q) (l : list (nat * Q))
    : list (nat * Q) :=
  match l with
  | [] => [p]
  | q :: l' =>
      if Qle_bool (snd p) (snd q) then p :: l
      else q :: insert_by_value p l'
  end.

Definition sort_indexed (values : list Q) : list (nat * Q) :=
  fold_right insert_by_value []
    (combine (seq 0 (List.length values)) values).

Definition argsort (values : list Q) : list nat :=
  map fst (sort_indexed values).

Definition percentile10 (values : list Q) : Q :=
  let sorted := map snd (sort_indexed values) in
  let last := (List.length values - 1)%nat in
  let lower := nth (last / 10) sorted 0%Q in
  let upper := nth (last / 10 + 1) sorted lower in
  if (last mod 10 =? 0)%nat then lower
  else (lower + (Z.of_nat (last mod 10) # 10) * (upper - lower))%Q.

End NumpyQ.

(** [c in s] *)
Fixpoint has_char (c : Ascii.ascii) (s : string) : bool :=
  match s with
  | EmptyString => false
  | String x s' => Ascii.eqb x c || has_char c s'
  end.

Unset Implicit Arguments.

(* ================================================================== *)
(** * The epoch-interval policy *)

(** C6. For every interval and every epoch the policy raises a configuration
    error when both [first] and [last] are unset; otherwise it returns
    [value_outside] if the epoch is strictly less than [first] (when set) or
    strictly greater than [last] (when set), and [value_inside] if not. *)
Theorem epoch_interval_policy :
  forall (V : Type) (iv : EpochIntervalToValue V) (epoch : Z),
    (both_unset iv ->
     _get_cur_action_from_epoch_interval iv epoch = Err RuntimeError) /\
    (~ both_unset iv -> falls_outside iv epoch ->
     _get_cur_action_from_epoch_interval iv epoch = Ok (value_outside iv)) /\
    (~ both_unset iv -> ~ falls_outside iv epoch ->
     _get_cur_action_from_epoch_interval iv epoch = Ok (value_inside iv)).
Proof.
  intros V [f l vin vout] epoch.
  unfold both_unset, falls_outside, _get_cur_action_from_epoch_interval.
  cbn [first last value_inside value_outside].
  repeat split.
  - intros [-> ->]. reflexivity.
  - intros Hset Hout.
    destruct f as [f|], l as [l|]; cbn [is_none set_and andb];
      try (exfalso; apply Hset; split; reflexivity).
    + destruct (Z.ltb_spec epoch f); [reflexivity|].
      destruct (Z.gtb_spec epoch l); [reflexivity|].
      destruct Hout as [(f' & Hf & Hlt) | (l' & Hl & Hgt)];
        [injection Hf as <- | injection Hl as <-]; lia.
    + destruct (Z.ltb_spec epoch f); [reflexivity|].
      destruct Hout as [(f' & Hf & Hlt) | (l' & Hl & Hgt)];
        [injection Hf as <-; lia | discriminate].
    + destruct (Z.gtb_spec epoch l); [reflexivity|].
      destruct Hout as [(f' & Hf & Hlt) | (l' & Hl & Hgt)];
        [discriminate | injection Hl as <-; lia].
  - intros Hset Hin.
    destruct f as [f|], l as [l|]; cbn [is_none set_and andb];
      try (exfalso; apply Hset; split; reflexivity).
    + destruct (Z.ltb_spec epoch f).
      { exfalso. apply Hin. left. exists f. split; [reflexivity | assumption]. }
      destruct (Z.gtb_spec epoch l); [|reflexivity].
      exfalso. apply Hin. right. exists l. split; [reflexivity | lia].
    + destruct (Z.ltb_spec epoch f); [|reflexivity].
      exfalso. apply Hin. left. exists f. split; [reflexivity | assumption].
    + destruct (Z.gtb_spec epoch l); [|reflexivity].
      exfalso. apply Hin. right. exists l. split; [reflexivity | lia].
Qed.

(** The interval [first=5, last=None] at epochs 4 and 5, and the interval
    with no bound. *)
Lemma epoch_interval_policy_witness :
  _get_cur_action_from_epoch_interval
    {| first := Some 5; last := None;
       value_inside := true; value_outside := false |} 4 = Ok false /\
  _get_cur_action_from_epoch_interval
    {| first := Some 5; last := None;
       value_inside := true; value_outside := false |} 5 = Ok true /\
  _get_cur_action_from_epoch_interval
    {| first := None; last := None;
       value_inside := true; value_outside := false |} 5 = Err RuntimeError.
Proof.
  split; [|split].
  - apply (epoch_interval_policy bool
             {| first := Some 5; last := None;
                value_inside := true; value_outside := false |} 4).
    + intros [H _]. discriminate H.
    + left. exists 5. split; [reflexivity | lia].
  - apply (epoch_interval_policy bool
             {| first := Some 5; last := None;
                value_inside := true; value_outside := false |} 5).
    + intros [H _]. discriminate H.
    + intros [(f & Hf & Hlt) | (l & Hl & _)];
        [injection Hf as <-; lia | discriminate Hl].
  - apply (epoch_interval_policy bool
             {| first := None; last := None;
                value_inside := true; value_outside := false |} 5).
    split; reflexivity.
Defined.

(* ================================================================== *)
(** * The checkpoint selector *)

Lemma opt_eqb_refl (a : option Q) : opt_eqb a a = true.
Proof.
  destruct a as [x|]; [|reflexivity].
  apply Qeq_bool_iff. reflexivity.
Qed.

Lemma opt_eqb_trans_neq (a b c : option Q) :
  opt_eqb a b = true -> opt_eqb b c = false -> opt_eqb a c = false.
Proof.
  destruct a as [x|], b as [y|], c as [z|]; cbn; try congruence.
  intros Hxy Hyz.
  destruct (Qeq_bool x z) eqn:Hxz; [|reflexivity].
  apply Qeq_bool_iff in Hxy, Hxz.
  rewrite <- Hyz. symmetry. apply Qeq_bool_iff.
  rewrite <- Hxy. exact Hxz.
Qed.

Section Selector.
Context {ext : Externals}.

Lemma first_model_name (e : Engine) :
  models e <> [] -> exists name, index (get_model_names e) 0 = Ok name.
Proof.
  unfold get_model_names, index.
  destruct (models e) as [|[name m] ms]; [congruence|].
  intros _. exists name. reflexivity.
Qed.

(** A round in which the LR bucket is the same and the rounded metric does
    not exceed the best one. *)
Lemma selector_call_stall (lr : option Q) (top1 : Q) (e : Engine) :
  models e <> [] ->
  opt_eqb (lr_prev_best_metric e) lr = true ->
  Qle_bool (np_round top1 4) (best_metric e) = true ->
  selector_call lr top1 e =
    (set_iter_to_wait (iter_to_wait e + 1) (set_lr_of_previous_iter lr e),
     Ok {| should_exit :=
             set_and lr (fun x => Qle_bool x (lb_lr (conf e)))
             && (iter_to_wait e + 1 >=? train_patience (conf e));
           is_candidate_for_best := false;
           iter_to_wait_after := iter_to_wait e + 1 |}).
Proof.
  intros Hm Hlr Hle.
  destruct (first_model_name (set_lr_of_previous_iter lr e) Hm) as [name Hn].
  unfold selector_call, exit_on_plateau_and_choose_best, bind, get, lift,
    modify, ret.
  rewrite Hn. cbn [lr_prev_best_metric lr_of_previous_iter best_metric
                   set_lr_of_previous_iter].
  rewrite Hlr, Hle. cbn [andb].
  cbn [iter_to_wait conf set_iter_to_wait set_lr_of_previous_iter].
  destruct (set_and lr (fun x => Qle_bool x (lb_lr (conf e)))
            && (iter_to_wait e + 1 >=? train_patience (conf e)));
    reflexivity.
Qed.

(** A round in a new LR bucket, or with a better rounded metric. *)
Lemma selector_call_best (lr : option Q) (top1 : Q) (e : Engine) :
  models e <> [] ->
  opt_eqb (lr_prev_best_metric e) lr
  && Qle_bool (np_round top1 4) (best_metric e) = false ->
  selector_call lr top1 e =
    (set_best (np_round top1 4) 0 lr (set_lr_of_previous_iter lr e),
     Ok {| should_exit := false;
           is_candidate_for_best := true;
           iter_to_wait_after := 0 |}).
Proof.
  intros Hm Hc.
  destruct (first_model_name (set_lr_of_previous_iter lr e) Hm) as [name Hn].
  unfold selector_call, exit_on_plateau_and_choose_best, bind, get, lift,
    modify, ret.
  rewrite Hn. cbn [lr_prev_best_metric lr_of_previous_iter best_metric
                   set_lr_of_previous_iter].
  rewrite Hc. reflexivity.
Qed.

End Selector.

Section SelectorSequences.
Context {ext : Externals}.

Lemma selector_calls_app (l1 l2 : list (option Q * Q)) (e : Engine) :
  selector_calls (l1 ++ l2) e =
    match selector_calls l1 e with
    | (e', Ok ds1) =>
        match selector_calls l2 e' with
        | (e'', Ok ds2) => (e'', Ok (ds1 ++ ds2))
        | (e'', Err x) => (e'', Err x)
        end
    | (e', Err x) => (e', Err x)
    end.
Proof.
  revert e. induction l1 as [|[lr t] l1 IH]; intros e; cbn [app selector_calls].
  - destruct (selector_calls l2 e) as [e'' [ds2|x]]; reflexivity.
  - destruct (selector_call lr t e) as [e1 [d|x]]; [|reflexivity].
    rewrite IH.
    destruct (selector_calls l1 e1) as [e2 [ds1|x]]; [|reflexivity].
    destruct (selector_calls l2 e2) as [e3 [ds2|x]]; reflexivity.
Qed.

(** Every round returns, and leaves the LR it saw in [lr_prev_best_metric]. *)
Lemma selector_call_total (lr : option Q) (top1 : Q) (e : Engine) :
  models e <> [] ->
  exists e' d,
    selector_call lr top1 e = (e', Ok d) /\
    opt_eqb (lr_prev_best_metric e') lr = true /\
    models e' = models e /\ conf e' = conf e.
Proof.
  intros Hm.
  destruct (opt_eqb (lr_prev_best_metric e) lr
            && Qle_bool (np_round top1 4) (best_metric e)) eqn:Hc.
  - apply andb_prop in Hc as [Hlr Hle].
    eexists _, _. split; [apply selector_call_stall; assumption|].
    cbn. auto.
  - eexists _, _. split; [apply selector_call_best; assumption|].
    cbn. auto using opt_eqb_refl.
Qed.

(** [n] further rounds at the same LR and metric while the patience is not
    yet used up: none of them asks to exit, each one counts. *)
Lemma stalled_rounds (lr top1 : Q) (n : nat) :
  forall e : Engine,
    models e <> [] ->
    opt_eqb (lr_prev_best_metric e) (Some lr) = true ->
    Qle_bool (np_round top1 4) (best_metric e) = true ->
    iter_to_wait e + Z.of_nat n < train_patience (conf e) ->
    exists e' ds,
      selector_calls (repeat (Some lr, top1) n) e = (e', Ok ds) /\
      map should_exit ds = repeat false n /\
      models e' = models e /\ conf e' = conf e /\
      opt_eqb (lr_prev_best_metric e') (Some lr) = true /\
      best_metric e' = best_metric e /\
      iter_to_wait e' = iter_to_wait e + Z.of_nat n.
Proof.
  induction n as [|n IH]; intros e Hm Hlr Hle Hlt.
  - exists e, []. cbn. repeat split; auto. lia.
  - cbn [repeat selector_calls].
    rewrite (selector_call_stall _ _ _ Hm Hlr Hle).
    set (e1 := set_iter_to_wait _ _).
    destruct (IH e1) as (e' & ds & Hrun & Hex & Hms & Hcf & Hlr' & Hbm & Hit);
      try assumption.
    { cbn. lia. }
    rewrite Hrun. eexists _, _. split; [reflexivity|].
    cbn [map should_exit repeat].
    replace (iter_to_wait e + 1 >=? train_patience (conf e)) with false
      by (symmetry; rewrite Z.geb_leb; apply Z.leb_gt; lia).
    rewrite andb_false_r, Hex.
    repeat split; try assumption.
    rewrite Hit. cbn. lia.
Qed.

End SelectorSequences.

(** C9. After every call of [exit_on_plateau_and_choose_best] that returns,
    whichever branch was taken, [lr_prev_best_metric] equals the
    [lr_of_previous_iter] read at the start of the call: the guard of the
    "not best" branch requires it, the other branch assigns it. The call
    returns whenever a model is registered and [top1] is a number. *)
Theorem lr_prev_best_metric_tracks_last_call :
  forall (ext : Externals) (e : Engine) (top1 : Q) (top5 mAP : option Q),
    models e <> [] ->
    exists e' d,
      exit_on_plateau_and_choose_best (Some top1) top5 mAP e = (e', Ok d) /\
      opt_eqb (lr_prev_best_metric e') (lr_of_previous_iter e) = true /\
      (snd d = true -> lr_prev_best_metric e' = lr_of_previous_iter e) /\
      lr_of_previous_iter e' = lr_of_previous_iter e.
Proof.
  intros ext e top1 top5 mAP Hm.
  destruct (first_model_name e Hm) as [name Hn].
  unfold exit_on_plateau_and_choose_best, bind, get, lift, modify, ret.
  rewrite Hn.
  destruct (opt_eqb (lr_prev_best_metric e) (lr_of_previous_iter e)) eqn:Hlr;
    cbn [andb].
  - destruct (Qle_bool (np_round top1 4) (best_metric e)).
    + cbn [iter_to_wait conf set_iter_to_wait lr_of_previous_iter].
      match goal with
      | |- context [if ?c then _ else _] => destruct c
      end; eexists _, _; (split; [reflexivity|]); cbn;
        (repeat split; auto; discriminate).
    + eexists _, _. split; [reflexivity|]. cbn.
      repeat split; auto using opt_eqb_refl.
  - eexists _, _. split; [reflexivity|]. cbn.
    repeat split; auto using opt_eqb_refl.
Qed.

Lemma lr_prev_best_metric_tracks_last_call_witness :
  exists e' d,
    exit_on_plateau_and_choose_best (Some (1 # 2)) None None
      (set_lr_of_previous_iter (Some (1 # 100)) (toy_engine 3 (1 # 100000)))
    = (e', Ok d) /\
    opt_eqb (lr_prev_best_metric e') (Some (1 # 100)) = true /\
    (snd d = true -> lr_prev_best_metric e' = Some (1 # 100)) /\
    lr_of_previous_iter e' = Some (1 # 100).
Proof.
  apply (lr_prev_best_metric_tracks_last_call toy_externals
           (set_lr_of_previous_iter (Some (1 # 100))
              (toy_engine 3 (1 # 100000)))
           (1 # 2) None None).
  vm_compute. discriminate.
Defined.

(** C7. Of two consecutive calls of [exit_on_plateau_and_choose_best], when
    [lr_of_previous_iter] at the second call differs from its value at the
    first, the second call resets [iter_to_wait] to 0 and returns
    [is_candidate_for_best = True], whatever the two metrics are. *)
Theorem lr_change_resets_patience :
  forall (ext : Externals) (e : Engine) (lr1 lr2 : option Q) (top1 top1' : Q),
    models e <> [] ->
    opt_eqb lr1 lr2 = false ->
    exists e1 d1 e2 d2,
      selector_call lr1 top1 e = (e1, Ok d1) /\
      selector_call lr2 top1' e1 = (e2, Ok d2) /\
      is_candidate_for_best d2 = true /\
      iter_to_wait_after d2 = 0 /\
      iter_to_wait e2 = 0.
Proof.
  intros ext e lr1 lr2 top1 top1' Hm Hneq.
  destruct (selector_call_total lr1 top1 e Hm)
    as (e1 & d1 & Hcall1 & Hlr & Hms & _).
  assert (Hm1 : models e1 <> []) by (rewrite Hms; exact Hm).
  exists e1, d1. eexists _, _.
  split; [exact Hcall1|].
  split.
  - apply selector_call_best; [exact Hm1|].
    rewrite (opt_eqb_trans_neq _ _ _ Hlr Hneq). reflexivity.
  - cbn. auto.
Qed.

(** The LR drops from 0.1 to 0.01 while the metric falls from 0.9 to 0.5. *)
Lemma lr_change_resets_patience_witness :
  exists e1 d1 e2 d2,
    selector_call (Some (1 # 10)) (9 # 10) (toy_engine 3 (1 # 100000))
    = (e1, Ok d1) /\
    selector_call (Some (1 # 100)) (1 # 2) e1 = (e2, Ok d2) /\
    is_candidate_for_best d2 = true /\
    iter_to_wait_after d2 = 0 /\
    iter_to_wait e2 = 0.
Proof.
  apply (lr_change_resets_patience toy_externals (toy_engine 3 (1 # 100000))
           (Some (1 # 10)) (Some (1 # 100)) (9 # 10) (1 # 2)).
  - vm_compute. discriminate.
  - reflexivity.
Defined.

(** C2. With a constant top-1 and [lr_of_previous_iter] constant and equal to
    the floor [lb_lr], starting from the initial selector state
    ([lr_prev_best_metric = None]): the first call opens the LR bucket, the
    following [train_patience] calls do not improve, and [should_exit] is
    false on every call before the [train_patience]-th of them and true on
    it. With [train_patience = 3], LR [1e-5] and top-1 [50] the four results
    are [False, False, False, True]. *)
Theorem should_exit_on_patience_th_stall :
  forall (ext : Externals) (e : Engine) (lr top1 : Q),
    models e <> [] ->
    lr_prev_best_metric e = None ->
    1 <= train_patience (conf e) ->
    (lr == lb_lr (conf e))%Q ->
    exists e' ds,
      selector_calls
        (repeat (Some lr, top1) (S (Z.to_nat (train_patience (conf e))))) e
      = (e', Ok ds) /\
      map should_exit ds
      = repeat false (Z.to_nat (train_patience (conf e))) ++ [true].
Proof.
  intros ext e lr top1 Hm Hnone Hp Hfloor.
  destruct (Z.to_nat (train_patience (conf e))) as [|n] eqn:Hn; [lia|].
  (* first call, [n] stalled calls, the [train_patience]-th stalled call *)
  cbn [repeat]. rewrite repeat_cons.
  change ((Some lr, top1) :: repeat (Some lr, top1) n ++ [(Some lr, top1)])
    with ([(Some lr, top1)] ++ repeat (Some lr, top1) n ++ [(Some lr, top1)]).
  rewrite selector_calls_app. cbn [selector_calls].
  rewrite selector_call_best; [|exact Hm|rewrite Hnone; reflexivity].
  set (e1 := set_best _ _ _ _).
  destruct (stalled_rounds lr top1 n e1)
    as (e2 & ds & Hrun & Hex & Hms & Hcf & Hlr & Hbm & Hit).
  { exact Hm. }
  { apply opt_eqb_refl. }
  { apply Qle_bool_iff. cbn. apply Qle_refl. }
  { cbn. lia. }
  rewrite selector_calls_app, Hrun. cbn [selector_calls].
  rewrite selector_call_stall.
  - eexists _, _. split; [reflexivity|].
    cbn [app map should_exit]. rewrite map_app, Hex. cbn [map should_exit].
    rewrite Hcf, Hit. cbn [conf iter_to_wait e1 set_best set_and
                           set_lr_of_previous_iter].
    replace (Qle_bool lr (lb_lr (conf e))) with true
      by (symmetry; apply Qle_bool_iff; rewrite Hfloor; apply Qle_refl).
    replace (0 + Z.of_nat n + 1 >=? train_patience (conf e)) with true
      by (symmetry; rewrite Z.geb_leb; apply Z.leb_le; lia).
    reflexivity.
  - rewrite Hms. exact Hm.
  - exact Hlr.
  - rewrite Hbm. apply Qle_bool_iff. cbn. apply Qle_refl.
Qed.

(** Scenario B: [train_patience=3], floor [1e-5], four calls at LR [1e-5]
    with top-1 [50]. *)
Lemma should_exit_scenario_B :
  exists e' ds,
    selector_calls
      [(Some (1 # 100000), 50%Q); (Some (1 # 100000), 50%Q);
       (Some (1 # 100000), 50%Q); (Some (1 # 100000), 50%Q)]
      (toy_engine 3 (1 # 100000))
    = (e', Ok ds) /\
    map should_exit ds = [false; false; false; true].
Proof.
  apply (should_exit_on_patience_th_stall toy_externals
           (toy_engine 3 (1 # 100000)) (1 # 100000) 50%Q).
  - vm_compute. discriminate.
  - reflexivity.
  - vm_compute. discriminate.
  - reflexivity.
Defined.

Section IncreasingMetric.
Context {ext : Externals}.

(** Rounds at one LR whose rounded metric grows each time, entered in a state
    in which the first of them is "best for this LR". *)
Lemma increasing_rounds (lr : Q) (tops : list Q) :
  forall e : Engine,
    models e <> [] ->
    match tops with
    | [] => True
    | top1 :: _ =>
        opt_eqb (lr_prev_best_metric e) (Some lr)
        && Qle_bool (np_round top1 4) (best_metric e) = false
    end ->
    strictly_increasing (map (fun t => np_round t 4) tops) ->
    exists e' ds,
      selector_calls (map (fun t => (Some lr, t)) tops) e = (e', Ok ds) /\
      List.length ds = List.length tops /\
      Forall (fun d => is_candidate_for_best d = true /\
                       iter_to_wait_after d = 0) ds.
Proof.
  induction tops as [|top1 tops IH]; intros e Hm Hhead Hinc.
  - exists e, []. cbn. auto.
  - cbn [map selector_calls].
    rewrite selector_call_best by assumption.
    set (e1 := set_best _ _ _ _).
    destruct (IH e1) as (e' & ds & Hrun & Hlen & Hall).
    + exact Hm.
    + destruct tops as [|top1' tops']; [exact I|].
      cbn [map strictly_increasing] in Hinc. destruct Hinc as [Hlt _].
      cbn [best_metric e1 set_best].
      apply andb_false_iff. right.
      destruct (Qle_bool (np_round top1' 4) (np_round top1 4)) eqn:Hle;
        [|reflexivity].
      apply Qle_bool_iff in Hle. exfalso. exact (Qlt_not_le _ _ Hlt Hle).
    + cbn [map strictly_increasing] in Hinc.
      destruct tops as [|top1' tops']; [exact I|].
      exact (proj2 Hinc).
    + rewrite Hrun. eexists _, _. split; [reflexivity|].
      cbn [List.length]. split; [congruence|].
      constructor; [cbn; auto | exact Hall].
Qed.

End IncreasingMetric.




(* ================================================================== *)
(** * Freezing of the auxiliary models *)

Lemma getitem_map {V} (f : V -> V) (d : list (string * V)) (key : string) :
  getitem (map (fun item => (fst item, f (snd item))) d) key
  = match getitem d key with
    | Ok v => Ok (f v)
    | Err x => Err x
    end.
Proof.
  induction d as [|[k v] d IH]; cbn; [reflexivity|].
  destruct (String.eqb k key); [reflexivity | exact IH].
Qed.

Lemma getitem_update_item {V} (f : V -> V) (d : list (string * V))
    (key key' : string) :
  getitem (update_item d key f) key'
  = if String.eqb key key' then
      match getitem d key' with
      | Ok v => Ok (f v)
      | Err x => Err x
      end
    else getitem d key'.
Proof.
  induction d as [|[k v] d IH]; cbn.
  - destruct (String.eqb key key'); reflexivity.
  - destruct (String.eqb k key) eqn:Hk; cbn.
    + apply String.eqb_eq in Hk. subst k.
      destruct (String.eqb key key'); reflexivity.
    + destruct (String.eqb k key') eqn:Hk'.
      * apply String.eqb_eq in Hk'. subst k. rewrite String.eqb_sym, Hk.
        reflexivity.
      * exact IH.
Qed.

Lemma filter_mem_nil (l : list string) :
  filter (fun x => mem_string x []) l = [].
Proof. induction l; cbn; auto. Qed.

Section Freeze.
Context {ext : Externals}.

(** What a loop over model names that mutates each named model by [f] does,
    when [f] establishes [P] and keeps [Q]. *)
Lemma for_each_on_model (f : ModelUnit -> ModelUnit)
    (P Q : ModelUnit -> Prop) :
  (forall m, P (f m)) ->
  (forall m, P m -> P (f m)) ->
  (forall m, Q m -> Q (f m)) ->
  forall (names : list string) (e : Engine),
    registered names e ->
    exists e',
      for_each (fun name => on_model name f) names e = (e', Ok tt) /\
      (forall name, In name names ->
         exists m, getitem (models e') name = Ok m /\ P m) /\
      (forall others, registered others e -> registered others e') /\
      (all_models Q e -> all_models Q e') /\
      conf e' = conf e /\ epoch e' = epoch e /\
      model_names_to_freeze e' = model_names_to_freeze e.
Proof.
  intros HP HPf HQ names.
  induction names as [|name names IH]; intros e Hreg.
  - exists e. cbn. repeat split; auto. intros ? [].
  - destruct (Hreg name (or_introl eq_refl)) as [m Hm].
    cbn [for_each]. unfold bind at 1. unfold on_model at 1.
    unfold bind, get, lift, modify. rewrite Hm.
    set (e1 := set_models _ e).
    assert (Hget1 : forall k, getitem (models e1) k
                     = if String.eqb name k then
                         match getitem (models e) k with
                         | Ok v => Ok (f v) | Err x => Err x end
                       else getitem (models e) k).
    { intros k. apply getitem_update_item. }
    assert (Hkeep : forall others, registered others e -> registered others e1).
    { intros others Ho k Hk. destruct (Ho k Hk) as [mk Hmk].
      rewrite Hget1, Hmk. destruct (String.eqb name k); eauto. }
    destruct (IH e1) as (e' & Hrun & HP' & Hreg' & HQ' & Hc & Hep & Hnm).
    { apply Hkeep. intros k Hk. apply Hreg. right. exact Hk. }
    exists e'. split; [exact Hrun|].
    repeat split; auto.
    + intros k [<-|Hk]; [|apply HP'; exact Hk].
      (* [name] itself: [P] holds after [f] and is kept by the rest *)
      clear HP'.
      assert (H1 : exists m1, getitem (models e1) name = Ok m1 /\ P m1).
      { rewrite Hget1, String.eqb_refl, Hm. eauto. }
      revert H1 Hrun. generalize e1. clear - HP HPf.
      induction names as [|n names IHn]; intros e1 (m1 & Hm1 & Hp1) Hrun.
      * cbn in Hrun. injection Hrun as <-. eauto.
      * cbn [for_each] in Hrun. unfold bind at 1 in Hrun.
        unfold on_model at 1 in Hrun.
        unfold bind, get, lift, modify in Hrun.
        destruct (getitem (models e1) n) as [mn|x]; [|discriminate].
        apply IHn in Hrun; [exact Hrun|].
        cbn [models set_models]. rewrite getitem_update_item, Hm1.
        destruct (String.eqb n name); eauto.
    + intros HQe. apply HQ'. intros k mk. rewrite Hget1.
      destruct (String.eqb name k).
      * destruct (getitem (models e) k) as [v|x] eqn:Hv; [|discriminate].
        intros [= <-]. apply HQ. exact (HQe k v Hv).
      * apply HQe.
Qed.

End Freeze.

Section MonadSteps.
Context {ext : Externals}.

Lemma bind_ok {A B} (m : M A) (k : A -> M B) (e e' : Engine) (a : A) :
  m e = (e', Ok a) -> bind m k e = k a e'.
Proof. intros H. unfold bind. rewrite H. reflexivity. Qed.

Lemma bind_err {A B} (m : M A) (k : A -> M B) (e e' : Engine) (x : exn) :
  m e = (e', Err x) -> bind m k e = (e', Err x).
Proof. intros H. unfold bind. rewrite H. reflexivity. Qed.

Lemma bind_get {B} (k : Engine -> M B) (e : Engine) : bind get k e = k e e.
Proof. reflexivity. Qed.

Lemma bind_ret {A B} (a : A) (k : A -> M B) (e : Engine) :
  bind (ret a) k e = k a e.
Proof. reflexivity. Qed.

Lemma bind_modify {B} (f : Engine -> Engine) (k : unit -> M B) (e : Engine) :
  bind (modify f) k e = k tt (f e).
Proof. reflexivity. Qed.

Lemma bind_lift {A B} (r : result A) (k : A -> M B) (e : Engine) :
  bind (lift r) k e = match r with Ok a => k a e | Err x => (e, Err x) end.
Proof. unfold bind, lift. destruct r; reflexivity. Qed.

Lemma should_freeze_depends_on_conf (e1 e2 : Engine) (ep : option Z) :
  conf e1 = conf e2 ->
  _should_freeze_aux_models e1 ep = _should_freeze_aux_models e2 ep.
Proof. intros H. unfold _should_freeze_aux_models. rewrite H. reflexivity. Qed.

End MonadSteps.

(** C5, as the code has it. After the prologue of [Engine.train] (train mode,
    unfreeze, [two_stepped_transfer_learning], freeze) at an epoch flagged for
    auxiliary freezing, every auxiliary model unit is in eval mode with zero
    trainable layers; at an epoch not flagged, every auxiliary unit is in
    train mode and its trainable layers are those
    [two_stepped_transfer_learning] opens: only [open_layers] while
    [epoch + 1 <= fixbase_epoch] and [open_layers] is given, all layers
    otherwise. *)
Theorem freeze_contract :
  forall (ext : Externals) (e : Engine) (ep fixbase_epoch : Z)
         (open_layers : option (list string)) (freeze : bool),
    epoch e = Some ep ->
    registered (model_names_to_freeze e) e ->
    _should_freeze_aux_models e (Some ep) = Ok freeze ->
    exists e',
      train_prologue fixbase_epoch open_layers e = (e', Ok tt) /\
      forall name, In name (model_names_to_freeze e) ->
        exists m,
          getitem (models e') name = Ok m /\
          if freeze then training m = false /\ trainable m = []
          else training m = true /\
               trainable m = layers_open_at ep fixbase_epoch open_layers m.
Proof.
  intros ext e ep fixbase_epoch open_layers freeze Hep Hreg Hflag.
  unfold train_prologue.
  unfold set_model_mode. rewrite bind_modify, bind_get.
  set (e1 := set_models _ e).
  assert (Hreg1 : registered (model_names_to_freeze e) e1).
  { intros k Hk. destruct (Hreg k Hk) as [m Hm].
    cbn [models e1 set_models]. rewrite getitem_map, Hm. eauto. }
  assert (Htrain1 : all_models (fun m => training m = true) e1).
  { intros k m. cbn [models e1 set_models]. rewrite getitem_map.
    destruct (getitem (models e) k); [|discriminate].
    intros [= <-]. reflexivity. }
  change (epoch e1) with (epoch e). rewrite Hep.
  rewrite (should_freeze_depends_on_conf e1 e (Some ep) eq_refl), Hflag.
  rewrite bind_lift.
  (* what [two_stepped_transfer_learning] applies to every model *)
  set (g := match open_layers with
            | Some ol => if ep + 1 <=? fixbase_epoch
                         then fun model => open_specified_layers model ol
                         else open_all_layers
            | None => open_all_layers
            end).
  assert (Htwo : forall e0,
             two_stepped_transfer_learning (Some ep) fixbase_epoch open_layers e0
             = (set_models (map (fun item => (fst item, g (snd item)))
                              (models e0)) e0, Ok tt)).
  { intros e0. unfold two_stepped_transfer_learning, g.
    destruct open_layers as [ol|]; [destruct (ep + 1 <=? fixbase_epoch)|];
      reflexivity. }
  destruct freeze; cbn [negb].
  - (* flagged: freezing comes last *)
    rewrite bind_ret, (bind_ok _ _ _ _ _ (Htwo e1)), bind_get.
    set (e2 := set_models _ e1).
    change (epoch e2) with (epoch e). rewrite Hep.
    rewrite (should_freeze_depends_on_conf e2 e (Some ep) eq_refl).
    rewrite Hflag, bind_lift.
    unfold _freeze_aux_models. rewrite bind_get.
    change (model_names_to_freeze e2) with (model_names_to_freeze e).
    destruct (for_each_on_model
                (fun model => open_specified_layers (model_eval model) [])
                (fun m => training m = false /\ trainable m = [])
                (fun _ => True))
      with (names := model_names_to_freeze e) (e := e2)
      as (e' & Hrun & HP & _); auto.
    + intros m. cbn. split; [reflexivity | apply filter_mem_nil].
    + intros m _. cbn. split; [reflexivity | apply filter_mem_nil].
    + intros k Hk. destruct (Hreg1 k Hk) as [m Hm].
      cbn [models e2 set_models]. rewrite getitem_map, Hm. eauto.
    + exists e'. split; [exact Hrun | exact HP].
  - (* not flagged: unfreezing comes first, then the layer policy *)
    destruct (for_each_on_model
                (fun model => open_all_layers (model_train model))
                (fun _ => True)
                (fun m => training m = true))
      with (names := model_names_to_freeze e) (e := e1)
      as (e2 & Hrun & _ & Hreg2 & Htrain2 & Hc2 & Hep2 & _); auto.
    assert (Hun : _unfreeze_aux_models e1 = (e2, Ok tt)) by exact Hrun.
    rewrite (bind_ok _ _ _ _ _ Hun), (bind_ok _ _ _ _ _ (Htwo e2)), bind_get.
    set (e3 := set_models _ e2).
    change (epoch e3) with (epoch e2). rewrite Hep2.
    change (epoch e1) with (epoch e). rewrite Hep.
    rewrite (should_freeze_depends_on_conf e3 e (Some ep)) by exact Hc2.
    rewrite Hflag, bind_lift.
    exists e3. split; [reflexivity|].
    intros k Hk.
    destruct (Hreg2 _ Hreg1 k Hk) as [m Hm].
    exists (g m). split.
    + cbn [models e3 set_models]. rewrite getitem_map, Hm. reflexivity.
    + pose proof (Htrain2 Htrain1 k m Hm) as Ht.
      unfold g, layers_open_at.
      destruct open_layers as [ol|]; [destruct (ep + 1 <=? fixbase_epoch)|];
        cbn; auto.
Qed.

(** Scenario A (freezing on every epoch: [model_1] ends frozen) and an epoch
    before the freezing interval during the fixbase phase. *)
Lemma freeze_contract_witness :
  (exists e',
     train_prologue 0 None (mutual_engine None) = (e', Ok tt) /\
     forall name, In name ["model_1"] ->
       exists m, getitem (models e') name = Ok m /\
                 training m = false /\ trainable m = []) /\
  (exists e',
     train_prologue 2 (Some ["classifier"]) (mutual_engine (Some freeze_from_5))
     = (e', Ok tt) /\
     forall name, In name ["model_1"] ->
       exists m, getitem (models e') name = Ok m /\
                 training m = true /\
                 trainable m = layers_open_at 0 2 (Some ["classifier"]) m).
Proof.
  split.
  - apply (freeze_contract toy_externals (mutual_engine None) 0 0 None true).
    + reflexivity.
    + intros name [<-|[]]. eexists. vm_compute. reflexivity.
    + reflexivity.
  - apply (freeze_contract toy_externals (mutual_engine (Some freeze_from_5))
             0 2 (Some ["classifier"]) false).
    + reflexivity.
    + intros name [<-|[]]. eexists. vm_compute. reflexivity.
    + reflexivity.
Defined.

(** C5 as stated fails in its second half: epoch 0 is not flagged for
    freezing (the interval starts at 5), yet with [fixbase_epoch=2] and
    [open_layers=['classifier']] the auxiliary [model_1] leaves the prologue
    in train mode with only [classifier] trainable, not all its layers. *)
Lemma unfrozen_aux_model_not_all_layers_open :
  _should_freeze_aux_models (mutual_engine (Some freeze_from_5)) (Some 0)
  = Ok false /\
  exists e' m,
    train_prologue 2 (Some ["classifier"]) (mutual_engine (Some freeze_from_5))
    = (e', Ok tt) /\
    In "model_1" (model_names_to_freeze e') /\
    getitem (models e') "model_1" = Ok m /\
    training m = true /\
    layers m = ["backbone"; "classifier"] /\
    trainable m = ["classifier"].
Proof.
  split; [reflexivity|].
  eexists _, _. vm_compute.
  repeat split. left. reflexivity.
Qed.

(* ================================================================== *)
(** * Evaluation dispatch *)

Section MainModelMetrics.
Context {ext : Externals}.

(** Models behind the first one never assign [top1], [top5], [mAP]. *)
Lemma test_models_keeps_top (e : Engine) (a : TestArgs.t) (d : string)
    (ms : list (string * ModelUnit)) :
  forall (k : nat) (top cur top' cur' : Metrics),
    (1 <= k)%nat ->
    test_models e a d (combine (seq k (List.length ms)) ms) top cur
    = Ok (top', cur') ->
    top' = top.
Proof.
  induction ms as [|[name m] ms IH]; intros k top cur top' cur' Hk;
    cbn [List.length seq combine test_models].
  - intros [= <- _]. reflexivity.
  - destruct (test_model e a d name m cur) as [c|x]; cbn [rbind];
      [|discriminate].
    replace (k =? 0)%nat with false by (symmetry; apply Nat.eqb_neq; lia).
    apply IH. lia.
Qed.

(** With a classification model registered first, the tuple a dataset
    leaves in [top1], [top5], [mAP] is the one of that model. *)
Lemma test_models_first_classification (e : Engine) (a : TestArgs.t)
    (d n0 : string) (m0 : ModelUnit) (rest : list (string * ModelUnit))
    (top cur top' cur' : Metrics) :
  classification m0 = true ->
  test_models e a d (enumerate ((n0, m0) :: rest)) top cur = Ok (top', cur') ->
  exists loaders query r,
    getitem (test_loader (conf e)) d = Ok loaders /\
    getitem loaders "query" = Ok query /\
    _evaluate_classification e n0 query = Ok r /\
    top' = metrics_of r.
Proof.
  intros Hc. unfold enumerate.
  cbn [List.length seq combine test_models]. unfold test_model at 1.
  rewrite Hc.
  destruct (getitem (test_loader (conf e)) d) as [loaders|x] eqn:Hl;
    cbn [rbind]; [|discriminate].
  destruct (getitem loaders "query") as [query|x] eqn:Hq; cbn [rbind];
    [|discriminate].
  destruct (_evaluate_classification e n0 query) as [r|x] eqn:Hr;
    cbn [rbind]; [|discriminate].
  cbn [Nat.eqb]. intros H.
  apply test_models_keeps_top in H; [|lia].
  exists loaders, query, r. repeat split; auto.
Qed.

(** Whenever [test] returns, with a classification model registered first
    and at least one dataset, it returns that model's tuple on the last
    dataset, whatever other models are registered. *)
Lemma test_returns_first_classification_model (e e' : Engine)
    (epoch : option Z) (a : TestArgs.t) (n0 : string) (m0 : ModelUnit)
    (rest : list (string * ModelUnit))
    (ds : list (string * list (string * EvalLoader Images)))
    (d : string) (l : list (string * EvalLoader Images)) (t : Metrics) :
  models e = (n0, m0) :: rest ->
  classification m0 = true ->
  test_loader (conf e) = ds ++ [(d, l)] ->
  test epoch a e = (e', Ok t) ->
  exists loaders query r,
    getitem (test_loader (conf e)) d = Ok loaders /\
    getitem loaders "query" = Ok query /\
    rank1_rank5_mAP (evaluate_classification (world e) n0 query) = Ok r /\
    t = metrics_of r.
Proof.
  intros Hms Hc Hld. unfold test, set_model_mode.
  rewrite bind_modify, bind_get, bind_lift.
  set (e1 := set_models _ e).
  change (conf e1) with (conf e). rewrite Hld, map_app. cbn [map fst].
  generalize (@None Q, @None Q, @None Q) at 1 as top.
  generalize (@None Q, @None Q, @None Q) as cur.
  induction (map fst ds) as [|d0 targets IH]; intros cur top;
    cbn [app test_datasets].
  - destruct (test_models e1 a d (enumerate (models e1)) top cur)
      as [[top' cur']|x] eqn:Hrun; cbn [rbind]; [|discriminate].
    intros [= <- <-].
    cbn [models e1 set_models] in Hrun. rewrite Hms in Hrun.
    cbn [map fst snd] in Hrun.
    apply test_models_first_classification in Hrun; [|exact Hc].
    destruct Hrun as (loaders & query & r & H1 & H2 & H3 & H4).
    exists loaders, query, r.
    change (conf e1) with (conf e) in H1. rewrite Hld in H1. auto.
  - destruct (test_models e1 a d0 (enumerate (models e1)) top cur)
      as [[top' cur']|x]; cbn [rbind]; [|discriminate].
    apply IH.
Qed.

End MainModelMetrics.

(** C1 fails on the code. [cur_top1], [cur_top5], [cur_mAP] are set once
    before both loops and keep the tuple of the last evaluation that returned
    one. With a contrastive model registered first (it is skipped), a
    classification model second and two datasets, the tuple copied at
    [model_id == 0] in the second dataset is the one the second model
    produced on the first dataset, and [test] returns it. *)
Theorem test_returns_metrics_of_second_model :
  forall (ext : Externals) (e : Engine) (epoch : option Z) (a : TestArgs.t)
         (n0 n1 d1 d2 : string) (m0 m1 : ModelUnit)
         (l1 l2 : list (string * EvalLoader Images))
         (q1 q2 : EvalLoader Images) (r1 r2 : Q * Q * Q),
    models e = [(n0, m0); (n1, m1)] ->
    classification m0 = false -> contrastive m0 = true ->
    classification m1 = true ->
    test_loader (conf e) = [(d1, l1); (d2, l2)] -> d1 <> d2 ->
    getitem l1 "query" = Ok q1 -> getitem l2 "query" = Ok q2 ->
    rank1_rank5_mAP (evaluate_classification (world e) n1 q1) = Ok r1 ->
    rank1_rank5_mAP (evaluate_classification (world e) n1 q2) = Ok r2 ->
    exists e', test epoch a e = (e', Ok (metrics_of r1)).
Proof.
  intros ext e epoch a n0 n1 d1 d2 m0 m1 l1 l2 q1 q2 r1 r2
    Hms Hc0 Hk0 Hc1 Hld Hd Hq1 Hq2 Hr1 Hr2.
  unfold test, set_model_mode. rewrite bind_modify, bind_get.
  set (e1 := set_models _ e).
  eexists. rewrite bind_lift.
  assert (Hd12 : String.eqb d1 d2 = false) by (apply String.eqb_neq; exact Hd).
  replace (test_datasets e1 a (map fst (test_loader (conf e1)))
             (None, None, None) (None, None, None))
    with (Ok (metrics_of r1, metrics_of r2)); [reflexivity|].
  change (conf e1) with (conf e). rewrite Hld.
  cbn [map fst test_datasets]. cbn [models e1 set_models]. rewrite Hms.
  cbn [map fst snd enumerate List.length seq combine test_models].
  unfold test_model.
  cbn [classification contrastive model_eval set_training].
  rewrite Hc0, Hk0, Hc1. change (conf e1) with (conf e). rewrite Hld.
  cbn [getitem rbind Nat.eqb]. rewrite !String.eqb_refl, Hd12.
  unfold _evaluate_classification. change (world e1) with (world e).
  cbn [rbind]. rewrite Hq1, Hq2. cbn [rbind]. rewrite Hr1, Hr2.
  reflexivity.
Qed.

(** On [two_dataset_engine] the toy scores are 0.21 for [model_1] on [d1]
    and 0.23 on [d2]; [model_0] is never evaluated. [test] returns 0.21. *)
Lemma test_returns_metrics_of_second_model_witness :
  exists e',
    test (Some 0) toy_test_args two_dataset_engine
    = (e', Ok (Some (21 # 100), Some (21 # 100), Some (21 # 100))).
Proof.
  apply (test_returns_metrics_of_second_model toy_externals two_dataset_engine
           (Some 0) toy_test_args "model_0" "model_1" "d1" "d2"
           (toy_model false true) (toy_model true false)
           [("query", toy_loader 1); ("gallery", toy_loader 2)]
           [("query", toy_loader 3); ("gallery", toy_loader 4)]
           (toy_loader 1) (toy_loader 3)
           (21 # 100, 21 # 100, 21 # 100) (23 # 100, 23 # 100, 23 # 100));
    try reflexivity.
  discriminate.
Defined.

(** C3 fails on the code. [features = model(imgs),] binds a 1-tuple, so
    [features.data] raises AttributeError on the first batch: with a
    non-empty query loader [_evaluate_reid] never reaches the distance
    matrix and returns nothing. *)
Theorem evaluate_reid_raises_on_first_batch :
  forall (ext : Externals) (e : Engine) (model_name : string)
         (data : EvalBatch Images) (rest gallery_loader : EvalLoader Images)
         (a : TestArgs.t),
    _feature_extraction e model_name (data :: rest) = Err AttributeError /\
    _evaluate_reid e model_name (data :: rest) gallery_loader a
    = Err AttributeError.
Proof.
  intros. split; reflexivity.
Qed.

(* ================================================================== *)
(** * The training loop and the stop signal *)

Section Quiet.
Context {ext : Externals}.

Lemma quiet_ret {A} (a : A) : quiet (ret a).
Proof. intros e. split; reflexivity. Qed.

Lemma quiet_raise {A} (x : exn) : quiet (@raise _ A x).
Proof. intros e. split; reflexivity. Qed.

Lemma quiet_get : quiet get.
Proof. intros e. split; reflexivity. Qed.

Lemma quiet_lift {A} (r : result A) : quiet (lift r).
Proof. intros e. split; reflexivity. Qed.

Lemma quiet_modify (f : Engine -> Engine) :
  (forall e, trace (f e) = trace e /\ polls (f e) = polls e) ->
  quiet (modify f).
Proof. intros H e. exact (H e). Qed.

Lemma quiet_bind {A B} (m : M A) (k : A -> M B) :
  quiet m -> (forall a, quiet (k a)) -> quiet (bind m k).
Proof.
  intros Hm Hk e. unfold bind.
  destruct (Hm e) as [Ht Hp]. destruct (m e) as [e1 [a|x]]; cbn in *.
  - destruct (Hk a e1) as [Ht' Hp']. split; congruence.
  - split; assumption.
Qed.

Lemma quiet_for_each {A} (body : A -> M unit) (l : list A) :
  (forall a, quiet (body a)) -> quiet (for_each body l).
Proof.
  intros Hb. induction l as [|a l IH]; cbn [for_each].
  - apply quiet_ret.
  - apply quiet_bind; [apply Hb | intros _; exact IH].
Qed.

Lemma quiet_if {A} (b : bool) (m1 m2 : M A) :
  quiet m1 -> quiet m2 -> quiet (if b then m1 else m2).
Proof. destruct b; auto. Qed.

Lemma quiet_set_models (f : Engine -> list (string * ModelUnit)) :
  quiet (modify (fun e => set_models (f e) e)).
Proof. apply quiet_modify. intros e. split; reflexivity. Qed.

Lemma quiet_set_model_mode (mode : Mode) : quiet (set_model_mode mode).
Proof. apply quiet_set_models. Qed.

Lemma quiet_on_all_models (f : ModelUnit -> ModelUnit) :
  quiet (on_all_models f).
Proof. apply quiet_set_models. Qed.

Lemma quiet_on_model (name : string) (f : ModelUnit -> ModelUnit) :
  quiet (on_model name f).
Proof.
  unfold on_model.
  apply quiet_bind; [apply quiet_get | intros e].
  apply quiet_bind; [apply quiet_lift | intros _].
  apply quiet_modify. intros e'. split; reflexivity.
Qed.

Lemma quiet_get_current_lr : quiet get_current_lr.
Proof.
  unfold get_current_lr.
  apply quiet_bind; [apply quiet_get | intros e].
  apply quiet_bind; [apply quiet_lift | intros name].
  apply quiet_ret.
Qed.

Lemma quiet_update_lr (losses : list Loss) : quiet (update_lr losses).
Proof.
  unfold update_lr.
  apply quiet_bind; [apply quiet_get | intros e].
  apply quiet_for_each. intros item.
  apply quiet_if; [|apply quiet_ret].
  apply quiet_modify. intros e'. split; reflexivity.
Qed.

Lemma quiet_two_stepped_transfer_learning (epoch : option Z)
    (fixbase_epoch : Z) (open_layers : option (list string)) :
  quiet (two_stepped_transfer_learning epoch fixbase_epoch open_layers).
Proof.
  unfold two_stepped_transfer_learning.
  destruct epoch; [|apply quiet_raise].
  destruct open_layers; [apply quiet_if|]; apply quiet_on_all_models.
Qed.

Lemma quiet_train_prologue (fixbase_epoch : Z)
    (open_layers : option (list string)) :
  quiet (train_prologue fixbase_epoch open_layers).
Proof.
  unfold train_prologue, _unfreeze_aux_models, _freeze_aux_models.
  apply quiet_bind; [apply quiet_set_model_mode | intros _].
  apply quiet_bind; [apply quiet_get | intros e].
  apply quiet_bind; [apply quiet_lift | intros freeze].
  apply quiet_bind.
  { apply quiet_if; [|apply quiet_ret].
    apply quiet_bind; [apply quiet_get | intros e'].
    apply quiet_for_each. intros name. apply quiet_on_model. }
  intros _.
  apply quiet_bind;
    [apply quiet_two_stepped_transfer_learning | intros _].
  apply quiet_bind; [apply quiet_get | intros e'].
  apply quiet_bind; [apply quiet_lift | intros freeze'].
  apply quiet_if; [|apply quiet_ret].
  apply quiet_bind; [apply quiet_get | intros e''].
  apply quiet_for_each. intros name. apply quiet_on_model.
Qed.

Lemma quiet_exit_on_plateau_and_choose_best (top1 top5 mAP : option Q) :
  quiet (exit_on_plateau_and_choose_best top1 top5 mAP).
Proof.
  unfold exit_on_plateau_and_choose_best.
  apply quiet_bind; [apply quiet_get | intros e].
  apply quiet_bind; [apply quiet_lift | intros _].
  destruct top1 as [t|]; [|apply quiet_raise].
  apply quiet_if.
  - apply quiet_bind.
    { apply quiet_modify. intros e'. split; reflexivity. }
    intros _. apply quiet_bind; [apply quiet_get | intros e'].
    apply quiet_if; apply quiet_ret.
  - apply quiet_bind; [|intros _; apply quiet_ret].
    apply quiet_modify. intros e'. split; reflexivity.
Qed.

Lemma quiet_test (epoch : option Z) (a : TestArgs.t) : quiet (test epoch a).
Proof.
  unfold test.
  apply quiet_bind; [apply quiet_set_model_mode | intros _].
  apply quiet_bind; [apply quiet_get | intros e].
  apply quiet_bind; [apply quiet_lift | intros r].
  apply quiet_ret.
Qed.

End Quiet.

Section StopSignal.
Context {ext : Externals}.
Variable cb : option (nat -> bool).
Hypothesis Hlatch : latching cb.

Lemma cold_good (e : Engine) : Cold cb e -> Good cb e.
Proof. intros [H _]. exact H. Qed.

Lemma hoare_bind {A B} (P : Engine -> Prop) (m : M A) (k : A -> M B)
    (Q1 : A -> Engine -> Prop) (Q : B -> Engine -> Prop) (R : Engine -> Prop) :
  hoare P m Q1 R -> (forall a, hoare (Q1 a) (k a) Q R) ->
  hoare P (bind m k) Q R.
Proof.
  intros Hm Hk e HP. unfold bind. specialize (Hm e HP).
  destruct (m e) as [e1 [a|x]]; [exact (Hk a e1 Hm) | exact Hm].
Qed.

Lemma hoare_weaken {A} (P P' : Engine -> Prop) (m : M A)
    (Q Q' : A -> Engine -> Prop) (R R' : Engine -> Prop) :
  hoare P' m Q' R' ->
  (forall e, P e -> P' e) -> (forall a e, Q' a e -> Q a e) ->
  (forall e, R' e -> R e) ->
  hoare P m Q R.
Proof.
  intros H HP HQ HR e He. specialize (H e (HP e He)).
  destruct (m e) as [e1 [a|x]]; auto.
Qed.

Lemma hoare_ret {A} (a : A) (Q : A -> Engine -> Prop) (R : Engine -> Prop) :
  hoare (Q a) (ret a) Q R.
Proof. intros e H. exact H. Qed.

(** A quiet method keeps [Good] and [Cold]. *)
Lemma hoare_quiet_good {A} (m : M A) :
  quiet m -> hoare (Good cb) m (fun _ => Good cb) (Good cb).
Proof.
  intros Hq e [Hr Hs]. destruct (Hq e) as [Ht Hp].
  assert (G : Good cb (fst (m e))).
  { unfold Good. rewrite Ht, Hp. split; assumption. }
  destruct (m e) as [e1 [a|x]]; exact G.
Qed.

Lemma hoare_quiet_cold {A} (m : M A) :
  quiet m -> hoare (Cold cb) m (fun _ => Cold cb) (Good cb).
Proof.
  intros Hq e [[Hr Hs] Hc]. destruct (Hq e) as [Ht Hp].
  assert (G : Cold cb (fst (m e))).
  { unfold Cold, Good. rewrite Ht, Hp. repeat split; assumption. }
  destruct (m e) as [e1 [a|x]]; [exact G | exact (cold_good _ G)].
Qed.

(** Recording an event before any positive poll. *)
Lemma hoare_emit_cold (ev : Event) :
  is_positive_poll ev = false ->
  hoare (Cold cb) (emit ev) (fun _ => Cold cb) (Good cb).
Proof.
  intros Hev e [[Hr Hs] Hc]. cbn.
  unfold Cold, Good. cbn [trace polls set_trace_polls stop_respected stop_seen
                          existsb].
  fold (stop_seen (trace e)). rewrite Hc, Hr, Hev. cbn.
  repeat split; auto. discriminate.
Qed.

(** Recording an event of the final block. *)
Lemma hoare_emit_good (ev : Event) :
  is_positive_poll ev = false -> allowed_after_stop ev = true ->
  hoare (Good cb) (emit ev) (fun _ => Good cb) (Good cb).
Proof.
  intros Hev Hal e [Hr Hs]. cbn.
  unfold Good. cbn [trace polls set_trace_polls stop_respected stop_seen
                    existsb].
  fold (stop_seen (trace e)). rewrite Hr, Hal, Hev, orb_true_r. cbn.
  split; [reflexivity | exact Hs].
Qed.

(** Polling: a positive answer leaves [Good], a negative one [Cold]. *)
Lemma hoare_check_stop :
  hoare (Good cb) (check_stop cb)
    (fun b e => if b then Good cb e else Cold cb e) (Good cb).
Proof.
  intros e [Hr Hs]. unfold check_stop.
  destruct cb as [f|] eqn:Hcb.
  - cbn. unfold Cold, Good.
    cbn [trace polls set_trace_polls stop_respected stop_seen existsb
         is_positive_poll].
    fold (stop_seen (trace e)).
    destruct (stop_seen (trace e)) eqn:Hseen.
    + rewrite (Hs eq_refl). cbn. rewrite Hr. split; [reflexivity|].
      intros _. apply (Hlatch f eq_refl (polls e)); [lia | exact (Hs eq_refl)].
    + destruct (f (polls e)) eqn:Hb; cbn; rewrite Hr.
      * split; [reflexivity|]. intros _.
        apply (Hlatch f eq_refl (polls e)); [lia | exact Hb].
      * repeat split; auto. discriminate.
  - cbn. destruct (stop_seen (trace e)) eqn:Hseen.
    + destruct (Hs eq_refl).
    + unfold Cold, Good. rewrite Hseen. repeat split; auto.
Qed.

Lemma hoare_cold_good {A} (m : M A) :
  hoare (Cold cb) m (fun _ => Cold cb) (Good cb) ->
  hoare (Cold cb) m (fun _ => Good cb) (Good cb).
Proof.
  intros H e He. specialize (H e He).
  destruct (m e) as [e1 [x|x]]; [apply cold_good|]; exact H.
Qed.

(** A loop whose body respects the stop signal does so as a whole. *)
Lemma hoare_for_break {A S} (body : A -> S -> M (bool * S)) :
  (forall a s, hoare (Cold cb) (body a s) (after_body cb) (Good cb)) ->
  forall l s, hoare (Cold cb) (for_break body l s) (fun _ => Good cb) (Good cb).
Proof.
  intros Hb. induction l as [|a l IH]; intros s; cbn [for_break].
  - intros e H. exact (cold_good _ H).
  - eapply hoare_bind; [apply Hb|].
    intros [brk s']. unfold after_body. cbn [fst snd].
    destruct brk; [intros e H; exact H | apply IH].
Qed.

End StopSignal.

Section RunRespectsStop.
Context {ext : Externals}.
Variable a : RunArgs.t.
Hypothesis Hlatch : latching (RunArgs.stop_callback a).

Let cb := RunArgs.stop_callback a.

Ltac quiet_cold H :=
  eapply hoare_bind; [apply hoare_quiet_cold; H|].
Ltac quiet_good H :=
  eapply hoare_bind; [apply hoare_quiet_good; H|].

Lemma hoare_save_model_cold (site : Site) (epoch : option Z) (is_best : bool) :
  hoare (Cold cb) (save_model site epoch is_best) (fun _ => Cold cb) (Good cb).
Proof.
  unfold save_model.
  quiet_cold ltac:(apply quiet_get). intros e; cbv beta.
  quiet_cold ltac:(apply quiet_lift). intros ?; cbv beta.
  destruct epoch as [ep|].
  - apply hoare_emit_cold. reflexivity.
  - apply hoare_quiet_cold, quiet_raise.
Qed.

Lemma hoare_save_model_final (epoch : option Z) (is_best : bool) :
  hoare (Good cb) (save_model Final epoch is_best) (fun _ => Good cb) (Good cb).
Proof.
  unfold save_model.
  quiet_good ltac:(apply quiet_get). intros e; cbv beta.
  quiet_good ltac:(apply quiet_lift). intros ?; cbv beta.
  destruct epoch as [ep|].
  - apply hoare_emit_good; reflexivity.
  - apply hoare_quiet_good, quiet_raise.
Qed.

Lemma hoare_train_batch (item : nat * Batch) (losses : list Loss) :
  hoare (Cold cb) (train_batch cb item losses) (after_body cb) (Good cb).
Proof.
  unfold train_batch.
  quiet_cold ltac:(apply quiet_get). intros e; cbv beta.
  quiet_cold ltac:(apply quiet_modify; intros e'; split; reflexivity).
  intros ?; cbv beta.
  eapply hoare_bind; [apply hoare_emit_cold; reflexivity|]. intros ?; cbv beta.
  quiet_cold ltac:(apply quiet_get_current_lr). intros lr; cbv beta.
  quiet_cold ltac:(apply quiet_modify; intros e'; split; reflexivity).
  intros ?; cbv beta.
  eapply hoare_bind.
  { eapply hoare_weaken;
      [apply (hoare_check_stop cb Hlatch) | apply cold_good | | ];
      intros; eassumption. }
  intros stop e1 H. exact H.
Qed.

Lemma hoare_train (fixbase_epoch : Z) (open_layers : option (list string))
    (lr_finder : bool) :
  hoare (Cold cb) (train fixbase_epoch open_layers lr_finder cb)
    (fun _ => Good cb) (Good cb).
Proof.
  unfold train.
  quiet_cold ltac:(apply quiet_train_prologue). intros ?; cbv beta.
  quiet_cold ltac:(apply quiet_get). intros e; cbv beta.
  eapply hoare_bind; [apply hoare_for_break, hoare_train_batch|].
  intros losses; cbv beta. apply hoare_quiet_good.
  apply quiet_if; [apply quiet_update_lr | apply quiet_ret].
Qed.

Lemma hoare_run_periodic_eval (ep : Z) :
  hoare (Cold cb) (run_periodic_eval a ep) (fun _ => Cold cb) (Good cb).
Proof.
  unfold run_periodic_eval.
  eapply hoare_bind; [apply hoare_emit_cold; reflexivity|]. intros ?; cbv beta.
  quiet_cold ltac:(apply quiet_get). intros e; cbv beta.
  quiet_cold ltac:(apply quiet_test). intros r; cbv beta.
  quiet_cold ltac:(apply quiet_if;
                   [apply quiet_bind;
                    [apply quiet_get_current_lr | intros; apply quiet_ret]
                   | apply quiet_ret]).
  intros ?; cbv beta.
  destruct (negb (RunArgs.lr_finder a)).
  - quiet_cold ltac:(apply quiet_exit_on_plateau_and_choose_best).
    intros d; cbv beta.
    quiet_cold ltac:(apply quiet_get). intros e'; cbv beta.
    eapply hoare_bind.
    { destruct (save_chkpt (conf e'));
        [apply hoare_save_model_cold | apply hoare_quiet_cold, quiet_ret]. }
    intros ?; cbv beta. apply hoare_quiet_cold, quiet_ret.
  - apply hoare_quiet_cold, quiet_ret.
Qed.

Lemma hoare_run_epoch (ep : Z) (u : unit) :
  hoare (Cold cb) (run_epoch a ep u) (after_body cb) (Good cb).
Proof.
  unfold run_epoch.
  quiet_cold ltac:(apply quiet_modify; intros e'; split; reflexivity).
  intros ?; cbv beta.
  eapply hoare_bind; [apply hoare_train|]. intros ?; cbv beta.
  eapply hoare_bind; [apply (hoare_check_stop cb Hlatch)|].
  intros [|].
  - intros e H. exact H.
  - eapply hoare_bind.
    { apply hoare_quiet_cold, quiet_get. }
    intros e; cbv beta.
    match goal with |- context [if ?c then _ else _] => destruct c end.
    + eapply hoare_bind; [apply hoare_run_periodic_eval|].
      intros brk e' H. unfold after_body. cbn.
      destruct brk; [apply cold_good|]; exact H.
    + intros e' H. exact H.
Qed.

Lemma hoare_run_final_test :
  hoare (Good cb) (run_final_test a) (fun _ => Good cb) (Good cb).
Proof.
  unfold run_final_test.
  quiet_good ltac:(apply quiet_get). intros e; cbv beta.
  eapply hoare_bind; [apply hoare_emit_good; reflexivity|]. intros ?; cbv beta.
  quiet_good ltac:(apply quiet_test). intros r; cbv beta.
  quiet_good ltac:(apply quiet_get). intros e'; cbv beta.
  eapply hoare_bind.
  { destruct (save_chkpt (conf e') && negb (RunArgs.lr_finder a)).
    - quiet_good ltac:(apply quiet_exit_on_plateau_and_choose_best).
      intros d; cbv beta.
      quiet_good ltac:(apply quiet_get). intros e''; cbv beta.
      apply hoare_save_model_final.
    - apply hoare_quiet_good, quiet_ret. }
  intros ?; cbv beta.
  quiet_good ltac:(apply quiet_if;
                   [apply quiet_bind;
                    [apply quiet_get_current_lr | intros; apply quiet_ret]
                   | apply quiet_ret]).
  intros ?; cbv beta. apply hoare_quiet_good, quiet_ret.
Qed.

Lemma hoare_run : hoare (Cold cb) (run a) (fun _ => Good cb) (Good cb).
Proof.
  unfold run.
  destruct (RunArgs.visrank a && negb (RunArgs.test_only a)).
  { apply hoare_cold_good, hoare_quiet_cold, quiet_raise. }
  destruct (RunArgs.test_only a).
  { apply hoare_cold_good.
    eapply hoare_bind; [apply hoare_emit_cold; reflexivity|].
    intros ?; cbv beta.
    quiet_cold ltac:(apply quiet_test). intros r; cbv beta.
    apply hoare_quiet_cold, quiet_ret. }
  eapply hoare_bind.
  { destruct (negb (RunArgs.lr_finder a)).
    - eapply hoare_bind; [apply hoare_emit_cold; reflexivity|].
      intros ?; cbv beta.
      quiet_cold ltac:(apply quiet_test). intros r; cbv beta.
      apply hoare_quiet_cold, quiet_ret.
    - apply hoare_quiet_cold, quiet_ret. }
  intros ?; cbv beta.
  quiet_cold ltac:(apply quiet_modify; intros e'; split; reflexivity).
  intros ?; cbv beta.
  eapply hoare_bind; [apply hoare_for_break, hoare_run_epoch|].
  intros ?; cbv beta.
  eapply hoare_bind.
  { destruct (RunArgs.max_epoch a >? 0).
    - eapply hoare_bind; [apply hoare_run_final_test|].
      intros t; cbv beta. apply hoare_quiet_good, quiet_ret.
    - apply hoare_quiet_good, quiet_ret. }
  intros [t|]; apply hoare_quiet_good; [apply quiet_ret | apply quiet_raise].
Qed.

End RunRespectsStop.




(* ================================================================== *)
(** * A run without epochs *)

Section NoEpochs.
Context {ext : Externals}.

Lemma range_empty (start stop : Z) : stop <= start -> range start stop = [].
Proof.
  intros H. unfold range.
  replace (Z.to_nat (stop - start)) with 0%nat by lia. reflexivity.
Qed.

Lemma bind_always_raises {A B} (m : M A) (k : A -> M B) :
  (forall a e, exists e' x, k a e = (e', Err x)) ->
  forall e, exists e' x, bind m k e = (e', Err x).
Proof.
  intros Hk e. unfold bind.
  destruct (m e) as [e1 [a|x]]; [apply Hk | eauto].
Qed.

(** Without the final block [top1_final] is unassigned at [return]. *)
Lemma run_raises_without_final_test (a : RunArgs.t) (e : Engine) :
  RunArgs.test_only a = false -> RunArgs.max_epoch a <= 0 ->
  exists e' x, run a e = (e', Err x).
Proof.
  intros Hto Hmax. unfold run. rewrite Hto. cbn [negb].
  rewrite andb_true_r.
  destruct (RunArgs.visrank a); [unfold raise; eauto|].
  replace (RunArgs.max_epoch a >? 0) with false
    by (symmetry; rewrite Z.gtb_ltb; apply Z.ltb_ge; exact Hmax).
  apply bind_always_raises. intros _ e1.
  apply bind_always_raises. intros _ e2.
  apply bind_always_raises. intros _ e3.
  rewrite bind_ret. unfold raise. eauto.
Qed.

End NoEpochs.

(** C10. Called with [test_only=False] and [max_epoch=0], [run] skips the
    epoch loop (epochs start at [start_epoch >= 0]) and the final-test block:
    all it does is the test before training (unless [lr_finder]) and the
    assignment of the epoch bounds, and [return top1_final] then raises on
    the unassigned local (a [visrank] request or a failing first test raise
    before that). In every case [run] raises instead of returning a metric,
    and a normal return of a training run requires [max_epoch > 0]. *)
Theorem run_without_epochs_raises :
  forall (ext : Externals) (a : RunArgs.t) (e : Engine),
    RunArgs.test_only a = false ->
    (RunArgs.max_epoch a = 0 -> 0 <= RunArgs.start_epoch a ->
     run a e =
       if RunArgs.visrank a then (e, Err ValueError)
       else
         let assign :=
           set_run_epochs (RunArgs.start_epoch a) (RunArgs.fixbase_epoch a)
             (Some 0) in
         if RunArgs.lr_finder a then (assign e, Err UnboundLocalError)
         else
           match test (Some 0) (test_args a (RunArgs.rerank a) false)
                   (fst (emit (EvTest BeforeTraining (Some 0)) e)) with
           | (e1, Ok _) => (assign e1, Err UnboundLocalError)
           | (e1, Err x) => (e1, Err x)
           end) /\
    (RunArgs.max_epoch a = 0 -> exists e' x, run a e = (e', Err x)) /\
    (forall e' r, run a e = (e', Ok r) -> 0 < RunArgs.max_epoch a).
Proof.
  intros ext a e Hto. split; [|split].
  - intros Hmax Hstart. unfold run. rewrite Hto, Hmax. cbn [negb].
    rewrite andb_true_r.
    destruct (RunArgs.visrank a); [reflexivity|].
    rewrite range_empty by exact Hstart. cbn [for_break Z.gtb Z.compare].
    destruct (RunArgs.lr_finder a); cbn [negb].
    + reflexivity.
    + unfold bind at 1. unfold bind at 1. unfold emit at 1.
      unfold modify at 1. cbn [fst emit modify].
      unfold bind at 1.
      destruct (test (Some 0) (test_args a (RunArgs.rerank a) false) _)
        as [e1 [r|x]]; reflexivity.
  - intros Hmax. apply run_raises_without_final_test; [exact Hto | lia].
  - intros e' r Hrun.
    destruct (Z.ltb_spec 0 (RunArgs.max_epoch a)) as [H|H]; [exact H|].
    destruct (run_raises_without_final_test a e Hto H) as (e1 & x & Hx).
    congruence.
Qed.

Lemma run_without_epochs_raises_witness :
  run (toy_run_args 0 None) training_engine
  = (set_run_epochs 0 0 (Some 0)
       (fst (test (Some 0) toy_test_args
               (fst (emit (EvTest BeforeTraining (Some 0)) training_engine)))),
     Err UnboundLocalError) /\
  (exists e' x, run (toy_run_args 0 None) training_engine = (e', Err x)).
Proof.
  destruct (run_without_epochs_raises toy_externals (toy_run_args 0 None)
              training_engine eq_refl) as (Hskip & Hraise & _).
  split.
  - rewrite Hskip; [reflexivity | reflexivity | discriminate].
  - apply Hraise. reflexivity.
Defined.

(* ================================================================== *)
(** * More on the checkpoint selector *)

Section SelectorInvariants.
Context {ext : Externals}.

(** One round, whatever the state: the two outcomes. *)
Lemma selector_call_cases (lr : option Q) (top1 : Q) (e : Engine) :
  models e <> [] ->
  exists e' d,
    selector_call lr top1 e = (e', Ok d) /\
    models e' = models e /\ conf e' = conf e /\
    opt_eqb (lr_prev_best_metric e') lr = true /\
    ((is_candidate_for_best d = false /\
      should_exit d
      = at_floor (lb_lr (conf e)) lr
        && (iter_to_wait e + 1 >=? train_patience (conf e)) /\
      iter_to_wait e' = iter_to_wait e + 1 /\
      iter_to_wait_after d = iter_to_wait e + 1 /\
      best_metric e' = best_metric e /\
      opt_eqb (lr_prev_best_metric e) lr = true /\
      (np_round top1 4 <= best_metric e)%Q)
     \/
     (is_candidate_for_best d = true /\ should_exit d = false /\
      iter_to_wait e' = 0 /\ iter_to_wait_after d = 0 /\
      best_metric e' = np_round top1 4 /\
      (opt_eqb (lr_prev_best_metric e) lr = true ->
       (best_metric e < np_round top1 4)%Q))).
Proof.
  intros Hm.
  destruct (opt_eqb (lr_prev_best_metric e) lr
            && Qle_bool (np_round top1 4) (best_metric e)) eqn:Hc.
  - apply andb_prop in Hc as [Hlr Hle].
    eexists _, _. split; [apply selector_call_stall; assumption|].
    cbn. repeat split; auto. left. repeat split; auto.
    apply Qle_bool_iff. exact Hle.
  - eexists _, _. split; [apply selector_call_best; assumption|].
    cbn. repeat split; auto using opt_eqb_refl. right. repeat split; auto.
    intros Hlr. rewrite Hlr in Hc. cbn in Hc.
    apply Qnot_le_lt. intros Hle. apply Qle_bool_iff in Hle. congruence.
Qed.

(** Consecutive rounds always return when a model is registered. *)
Lemma selector_calls_total (rounds : list (option Q * Q)) :
  forall e : Engine,
    models e <> [] ->
    exists e' ds,
      selector_calls rounds e = (e', Ok ds) /\
      List.length ds = List.length rounds /\
      models e' = models e /\ conf e' = conf e.
Proof.
  induction rounds as [|[lr t] rounds IH]; intros e Hm.
  - exists e, []. cbn. auto.
  - destruct (selector_call_total lr t e Hm) as (e1 & d & H1 & _ & Hms & Hc).
    destruct (IH e1) as (e2 & ds & H2 & Hlen & Hms2 & Hc2).
    { rewrite Hms. exact Hm. }
    exists e2, (d :: ds). cbn [selector_calls]. rewrite H1, H2.
    cbn [List.length]. repeat split; congruence.
Qed.

End SelectorInvariants.

(** X1. The selector never asks to exit while the LR of the evaluated epoch
    is above the floor [lb_lr] or unknown ([None]): through any number of
    rounds at such LRs, whatever the metrics, every call returns
    [should_exit = False]. *)
Theorem no_exit_above_floor :
  forall (ext : Externals) (rounds : list (option Q * Q)) (e : Engine),
    models e <> [] ->
    Forall (fun round => at_floor (lb_lr (conf e)) (fst round) = false) rounds ->
    exists e' ds,
      selector_calls rounds e = (e', Ok ds) /\
      List.length ds = List.length rounds /\
      Forall (fun d => should_exit d = false) ds.
Proof.
  intros ext rounds.
  induction rounds as [|[lr t] rounds IH]; intros e Hm Hall.
  - exists e, []. cbn. auto.
  - inversion Hall as [|r rs Hlr Hrest]; subst. cbn [fst] in Hlr.
    destruct (selector_call_cases lr t e Hm)
      as (e1 & d & H1 & Hms & Hc & _ & Hcase).
    destruct (IH e1) as (e2 & ds & H2 & Hlen & Hex).
    { rewrite Hms. exact Hm. }
    { rewrite Hc. exact Hrest. }
    exists e2, (d :: ds). cbn [selector_calls]. rewrite H1, H2.
    cbn [List.length]. repeat split; [congruence|].
    constructor; [|exact Hex].
    destruct Hcase as [(_ & Hs & _) | (_ & Hs & _)]; [|exact Hs].
    rewrite Hs, Hlr. reflexivity.
Qed.

(** Ten rounds of a constant metric at LR 0.01, floor 1e-5, patience 3. *)
Lemma no_exit_above_floor_witness :
  exists e' ds,
    selector_calls (repeat (Some (1 # 100), 1 # 2) 10)
      (toy_engine 3 (1 # 100000)) = (e', Ok ds) /\
    List.length ds = 10%nat /\
    Forall (fun d => should_exit d = false) ds.
Proof.
  apply (no_exit_above_floor toy_externals
           (repeat (Some (1 # 100), 1 # 2) 10) (toy_engine 3 (1 # 100000))).
  - vm_compute. discriminate.
  - vm_compute. repeat constructor.
Defined.

(** X2. [iter_to_wait] counts the calls since the last best-candidate:
    after any sequence of rounds (any LRs, any metrics) it is the number of
    trailing rounds that were not a candidate, added to its initial value
    when none was; and no call is both a candidate and a request to exit. *)
Theorem iter_to_wait_counts_stalls :
  forall (ext : Externals) (rounds : list (option Q * Q)) (e : Engine),
    models e <> [] ->
    exists e' ds,
      selector_calls rounds e = (e', Ok ds) /\
      iter_to_wait e' = stall_count (iter_to_wait e) ds /\
      Forall (fun d => is_candidate_for_best d && should_exit d = false) ds.
Proof.
  intros ext rounds.
  induction rounds as [|[lr t] rounds IH]; intros e Hm.
  - exists e, []. cbn. auto.
  - destruct (selector_call_cases lr t e Hm)
      as (e1 & d & H1 & Hms & Hc & _ & Hcase).
    destruct (IH e1) as (e2 & ds & H2 & Hcount & Hex).
    { rewrite Hms. exact Hm. }
    exists e2, (d :: ds). cbn [selector_calls]. rewrite H1, H2.
    split; [reflexivity|]. unfold stall_count in *. cbn [fold_left].
    destruct Hcase as [(Hcand & _ & Hit & _) | (Hcand & Hs & Hit & _)];
      rewrite Hcand; rewrite Hit in Hcount.
    + split; [exact Hcount|]. constructor; [|exact Hex].
      cbv beta. rewrite Hcand. reflexivity.
    + split; [exact Hcount|]. constructor; [|exact Hex].
      cbv beta. rewrite Hs. apply andb_false_r.
Qed.

Lemma iter_to_wait_counts_stalls_witness :
  exists e' ds,
    selector_calls
      [(Some (1 # 10), 1 # 2); (Some (1 # 10), 1 # 2); (Some (1 # 10), 1 # 3)]
      (toy_engine 3 (1 # 100000)) = (e', Ok ds) /\
    iter_to_wait e' = stall_count 0 ds /\
    Forall (fun d => is_candidate_for_best d && should_exit d = false) ds.
Proof.
  apply (iter_to_wait_counts_stalls toy_externals
           [(Some (1 # 10), 1 # 2); (Some (1 # 10), 1 # 2);
            (Some (1 # 10), 1 # 3)] (toy_engine 3 (1 # 100000))).
  vm_compute. discriminate.
Defined.

Section BestMetric.
Context {ext : Externals}.

(** Within an LR bucket [best_metric] never decreases, and it is at least
    every rounded metric of the rounds. *)
Lemma best_metric_grows_in_bucket (lr : Q) (tops : list Q) :
  forall e : Engine,
    models e <> [] ->
    opt_eqb (lr_prev_best_metric e) (Some lr) = true ->
    exists e' ds,
      selector_calls (map (fun t => (Some lr, t)) tops) e = (e', Ok ds) /\
      (best_metric e <= best_metric e')%Q /\
      Forall (fun t => (np_round t 4 <= best_metric e')%Q) tops.
Proof.
  induction tops as [|t tops IH]; intros e Hm Hlr.
  - exists e, []. cbn. repeat split; auto. apply Qle_refl.
  - destruct (selector_call_cases (Some lr) t e Hm)
      as (e1 & d & H1 & Hms & _ & Hlr1 & Hcase).
    destruct (IH e1) as (e2 & ds & H2 & Hmono & Hall); [congruence | exact Hlr1 |].
    assert (Hstep : (best_metric e <= best_metric e1)%Q /\
                    (np_round t 4 <= best_metric e1)%Q).
    { destruct Hcase as [(_ & _ & _ & _ & Hb & _ & Hle)
                        | (_ & _ & _ & _ & Hb & Hlt)]; rewrite Hb.
      - split; [apply Qle_refl | exact Hle].
      - split; [apply Qlt_le_weak, Hlt, Hlr | apply Qle_refl]. }
    destruct Hstep as [Hb1 Ht1].
    exists e2, (d :: ds). cbn [map selector_calls]. rewrite H1, H2.
    repeat split.
    + exact (Qle_trans _ _ _ Hb1 Hmono).
    + constructor; [exact (Qle_trans _ _ _ Ht1 Hmono) | exact Hall].
Qed.

End BestMetric.



(* ================================================================== *)
(** * The registry the constructor builds *)

Lemma model_name_of_inj (i j : nat) :
  model_name_of i = model_name_of j -> i = j.
Proof.
  unfold model_name_of. cbn [String.append]. intros H.
  injection H as H.
  apply DecimalNat.Unsigned.to_uint_inj.
  assert (Hs : Some (Nat.to_uint i) = Some (Nat.to_uint j)).
  { rewrite <- !NilEmpty.usu. f_equal. exact H. }
  injection Hs as Hs. exact Hs.
Qed.

Lemma setitem_fresh {V} (d : list (string * V)) (key : string) (v : V) :
  ~ In key (map fst d) -> setitem d key v = d ++ [(key, v)].
Proof.
  induction d as [|[k v'] d IH]; cbn; intros Hnin; [reflexivity|].
  destruct (String.eqb_spec k key) as [->|Hne].
  - exfalso. apply Hnin. left. reflexivity.
  - rewrite IH; [reflexivity|]. intros Hin. apply Hnin. right. exact Hin.
Qed.

Lemma getitem_in_keys {V} (d : list (string * V)) (key : string) :
  In key (map fst d) -> exists v, getitem d key = Ok v.
Proof.
  induction d as [|[k v] d IH]; cbn; intros Hin; [contradiction|].
  destruct (String.eqb_spec k key) as [->|Hne]; [eauto|].
  destruct Hin as [Hk|Hin]; [congruence | exact (IH Hin)].
Qed.

Lemma getitem_not_in_keys {V} (d : list (string * V)) (key : string) :
  ~ In key (map fst d) -> getitem d key = Err KeyError.
Proof.
  induction d as [|[k v] d IH]; cbn; intros Hnin; [reflexivity|].
  destruct (String.eqb_spec k key) as [->|Hne].
  - exfalso. apply Hnin. left. reflexivity.
  - apply IH. intros Hin. apply Hnin. right. exact Hin.
Qed.

Section Constructor.
Context {ext : Externals}.

(** The loop of [__init__] over [enumerate(models)], entered at index [k]
    with [k] models registered. *)
Lemma Engine_init_loop (c : Config) (l : list ModelUnit) :
  forall (k : nat) (e : Engine),
    map fst (models e) = map model_name_of (seq 0 k) ->
    let e' :=
      fold_left
        (fun self (item : nat * ModelUnit) =>
           let model_name := model_name_of (fst item) in
           let self := register_model model_name (snd item) self in
           if should_freeze_aux_models c && (0 <? fst item)%nat then
             set_model_names_to_freeze
               (model_names_to_freeze self ++ [model_name]) self
           else self)
        (combine (seq k (List.length l)) l) e in
    map fst (models e') = map model_name_of (seq 0 (k + List.length l)) /\
    map snd (models e') = map snd (models e) ++ l /\
    model_names_to_freeze e'
    = model_names_to_freeze e
      ++ map model_name_of
           (filter (fun i => should_freeze_aux_models c && (0 <? i)%nat)
              (seq k (List.length l))) /\
    conf e' = conf e /\ iter_to_wait e' = iter_to_wait e /\
    best_metric e' = best_metric e /\
    lr_prev_best_metric e' = lr_prev_best_metric e /\
    lr_of_previous_iter e' = lr_of_previous_iter e /\
    epoch e' = epoch e /\ trace e' = trace e.
Proof.
  induction l as [|m l IH]; intros k e Hkeys; cbn [List.length seq combine
                                                    fold_left filter map].
  - rewrite Nat.add_0_r, !app_nil_r. repeat split; auto.
  - cbn [fst snd].
    assert (Hfresh : ~ In (model_name_of k) (map fst (models e))).
    { rewrite Hkeys. intros Hin. apply in_map_iff in Hin as (i & Hi & Hin).
      apply model_name_of_inj in Hi. apply in_seq in Hin. lia. }
    set (e1 := register_model (model_name_of k) m e).
    assert (Hm1 : models e1 = models e ++ [(model_name_of k, m)]).
    { cbn. apply setitem_fresh. exact Hfresh. }
    set (e2 := if should_freeze_aux_models c && (0 <? k)%nat
               then set_model_names_to_freeze
                      (model_names_to_freeze e1 ++ [model_name_of k]) e1
               else e1).
    assert (Hm2 : models e2 = models e1)
      by (unfold e2; destruct (_ && _); reflexivity).
    assert (Hf2 : model_names_to_freeze e2
                  = model_names_to_freeze e
                    ++ (if should_freeze_aux_models c && (0 <? k)%nat
                        then [model_name_of k] else [])).
    { unfold e2. destruct (_ && _); cbn; [reflexivity|].
      rewrite app_nil_r. reflexivity. }
    assert (Hrest : conf e2 = conf e /\ iter_to_wait e2 = iter_to_wait e /\
                    best_metric e2 = best_metric e /\
                    lr_prev_best_metric e2 = lr_prev_best_metric e /\
                    lr_of_previous_iter e2 = lr_of_previous_iter e /\
                    epoch e2 = epoch e /\ trace e2 = trace e).
    { unfold e2. destruct (_ && _); cbn; repeat split; reflexivity. }
    assert (Hk2 : map fst (models e2) = map model_name_of (seq 0 (S k))).
    { rewrite Hm2, Hm1, map_app, Hkeys, seq_S, map_app. reflexivity. }
    specialize (IH (S k) e2 Hk2). cbv zeta in IH |- *.
    match goal with
    | |- context [fold_left _ _ ?x] => change x with e2
    end.
    destruct IH as (H1 & H2 & H3 & H4).
    split; [rewrite H1; f_equal; f_equal; lia|].
    split; [rewrite H2, Hm2, Hm1, map_app, <- app_assoc; reflexivity|].
    split.
    + rewrite H3, Hf2, <- app_assoc. f_equal.
      destruct (should_freeze_aux_models c && (0 <? k)%nat); reflexivity.
    + destruct Hrest as (R1 & R2 & R3 & R4 & R5 & R6 & R7).
      destruct H4 as (S1 & S2 & S3 & S4 & S5 & S6 & S7).
      repeat split; congruence.
Qed.

Lemma filter_positive_seq (n : nat) :
  filter (fun i => (0 <? i)%nat) (seq 0 n) = seq 1 (n - 1).
Proof.
  destruct n as [|n]; [reflexivity|].
  cbn [seq filter Nat.ltb Nat.leb]. rewrite Nat.sub_succ, Nat.sub_0_r.
  apply forallb_filter_id. apply forallb_forall.
  intros i Hi. apply in_seq in Hi. destruct i; [lia | reflexivity].
Qed.

End Constructor.


(* ================================================================== *)
(** * The main model and the prologue of an epoch *)

Section MainModel.
Context {ext : Externals}.

(** A loop that mutates the named models leaves the others as they are. *)
Lemma for_each_on_model_others (f : ModelUnit -> ModelUnit)
    (names : list string) :
  forall e e' : Engine,
    for_each (fun name => on_model name f) names e = (e', Ok tt) ->
    forall key, ~ In key names ->
      getitem (models e') key = getitem (models e) key.
Proof.
  induction names as [|name names IH]; intros e e' Hrun key Hnin.
  - cbn in Hrun. injection Hrun as <-. reflexivity.
  - cbn [for_each] in Hrun. unfold bind at 1 in Hrun.
    unfold on_model at 1 in Hrun. unfold bind, get, lift, modify in Hrun.
    destruct (getitem (models e) name) as [m|x]; [|discriminate].
    rewrite (IH _ _ Hrun key); [|intros Hin; apply Hnin; right; exact Hin].
    cbn [models set_models]. rewrite getitem_update_item.
    destruct (String.eqb_spec name key) as [->|Hne]; [|reflexivity].
    exfalso. apply Hnin. left. reflexivity.
Qed.

(** The prologue keeps the names of the registry and their order. *)
Lemma map_fst_update_item {V} (d : list (string * V)) (key : string)
    (f : V -> V) :
  map fst (update_item d key f) = map fst d.
Proof.
  induction d as [|[k v] d IH]; cbn; [reflexivity|].
  destruct (String.eqb k key); cbn; [reflexivity | rewrite IH; reflexivity].
Qed.

End MainModel.

(** X5. The prologue of [Engine.train] never freezes a model that is not
    listed in [model_names_to_freeze] (the main model of every constructed
    engine): whether or not the epoch is flagged for freezing, such a model
    leaves the prologue in train mode, with the trainable layers
    [two_stepped_transfer_learning] gives it. *)
Theorem unlisted_model_never_frozen :
  forall (ext : Externals) (e : Engine) (ep fixbase_epoch : Z)
         (open_layers : option (list string)) (freeze : bool)
         (name : string) (m0 : ModelUnit),
    epoch e = Some ep ->
    registered (model_names_to_freeze e) e ->
    _should_freeze_aux_models e (Some ep) = Ok freeze ->
    getitem (models e) name = Ok m0 ->
    ~ In name (model_names_to_freeze e) ->
    exists e' m,
      train_prologue fixbase_epoch open_layers e = (e', Ok tt) /\
      getitem (models e') name = Ok m /\
      training m = true /\
      trainable m = layers_open_at ep fixbase_epoch open_layers m /\
      layers m = layers m0.
Proof.
  intros ext e ep fixbase_epoch open_layers freeze name m0
    Hep Hreg Hflag Hget Hnin.
  unfold train_prologue.
  unfold set_model_mode. rewrite bind_modify, bind_get.
  set (e1 := set_models _ e).
  assert (Hreg1 : registered (model_names_to_freeze e) e1).
  { intros k Hk. destruct (Hreg k Hk) as [m Hm].
    cbn [models e1 set_models]. rewrite getitem_map, Hm. eauto. }
  assert (Hget1 : getitem (models e1) name = Ok (model_train m0)).
  { cbn [models e1 set_models]. rewrite getitem_map, Hget. reflexivity. }
  change (epoch e1) with (epoch e). rewrite Hep.
  rewrite (should_freeze_depends_on_conf e1 e (Some ep) eq_refl), Hflag.
  rewrite bind_lift.
  set (g := match open_layers with
            | Some ol => if ep + 1 <=? fixbase_epoch
                         then fun model => open_specified_layers model ol
                         else open_all_layers
            | None => open_all_layers
            end).
  assert (Htwo : forall e0,
             two_stepped_transfer_learning (Some ep) fixbase_epoch open_layers e0
             = (set_models (map (fun item => (fst item, g (snd item)))
                              (models e0)) e0, Ok tt)).
  { intros e0. unfold two_stepped_transfer_learning, g.
    destruct open_layers as [ol|]; [destruct (ep + 1 <=? fixbase_epoch)|];
      reflexivity. }
  assert (Hg : training (g (model_train m0)) = true /\
               trainable (g (model_train m0))
               = layers_open_at ep fixbase_epoch open_layers
                   (g (model_train m0)) /\
               layers (g (model_train m0)) = layers m0).
  { unfold g, layers_open_at.
    destruct open_layers as [ol|]; [destruct (ep + 1 <=? fixbase_epoch)|];
      cbn; auto. }
  destruct freeze; cbn [negb].
  - rewrite bind_ret, (bind_ok _ _ _ _ _ (Htwo e1)), bind_get.
    set (e2 := set_models _ e1).
    change (epoch e2) with (epoch e). rewrite Hep.
    rewrite (should_freeze_depends_on_conf e2 e (Some ep) eq_refl).
    rewrite Hflag, bind_lift.
    destruct (for_each_on_model
                (fun model => open_specified_layers (model_eval model) [])
                (fun _ => True) (fun _ => True))
      with (names := model_names_to_freeze e) (e := e2)
      as (e' & Hrun & _); auto.
    { intros k Hk. destruct (Hreg1 k Hk) as [m Hm].
      cbn [models e2 set_models]. rewrite getitem_map, Hm. eauto. }
    assert (Hfr : _freeze_aux_models e2 = (e', Ok tt)) by exact Hrun.
    exists e', (g (model_train m0)). split; [exact Hfr|]. split; [|exact Hg].
    rewrite (for_each_on_model_others _ _ _ _ Hrun name Hnin).
    cbn [models e2 set_models]. rewrite getitem_map, Hget1. reflexivity.
  - destruct (for_each_on_model
                (fun model => open_all_layers (model_train model))
                (fun _ => True) (fun _ => True))
      with (names := model_names_to_freeze e) (e := e1)
      as (e2 & Hrun & _ & _ & _ & Hc2 & Hep2 & _); auto.
    assert (Hun : _unfreeze_aux_models e1 = (e2, Ok tt)) by exact Hrun.
    rewrite (bind_ok _ _ _ _ _ Hun), (bind_ok _ _ _ _ _ (Htwo e2)), bind_get.
    set (e3 := set_models _ e2).
    change (epoch e3) with (epoch e2). rewrite Hep2.
    change (epoch e1) with (epoch e). rewrite Hep.
    rewrite (should_freeze_depends_on_conf e3 e (Some ep)) by exact Hc2.
    rewrite Hflag, bind_lift.
    exists e3, (g (model_train m0)). split; [reflexivity|]. split; [|exact Hg].
    cbn [models e3 set_models]. rewrite getitem_map.
    rewrite (for_each_on_model_others _ _ _ _ Hrun name Hnin), Hget1.
    reflexivity.
Qed.

(** Scenario A: freezing on every epoch; [model_0] stays trainable. *)
Lemma unlisted_model_never_frozen_witness :
  exists e' m,
    train_prologue 0 None (mutual_engine None) = (e', Ok tt) /\
    getitem (models e') "model_0" = Ok m /\
    training m = true /\
    trainable m = layers_open_at 0 0 None m /\
    layers m = layers (toy_model true false).
Proof.
  apply (unlisted_model_never_frozen toy_externals (mutual_engine None)
           0 0 None true "model_0" (toy_model true false)).
  - reflexivity.
  - intros name [<-|[]]. eexists. vm_compute. reflexivity.
  - reflexivity.
  - reflexivity.
  - intros [H|[]]. discriminate H.
Defined.

(* ================================================================== *)
(** * What evaluation and the prologue leave untouched *)

Section Frames.
Context {ext : Externals}.

Lemma set_models_same (e : Engine) : set_models (models e) e = e.
Proof. destruct e. reflexivity. Qed.

Lemma mode_change_refl (m : ModelUnit) : mode_change m m.
Proof. repeat split. Qed.

Lemma mode_change_trans (m1 m2 m3 : ModelUnit) :
  mode_change m1 m2 -> mode_change m2 m3 -> mode_change m1 m3.
Proof.
  intros (A1 & A2 & A3 & A4) (B1 & B2 & B3 & B4).
  repeat split; congruence.
Qed.

Lemma same_but_modes_refl (e : Engine) : same_but_modes e e.
Proof.
  exists (models e). split; [symmetry; apply set_models_same|].
  induction (models e) as [|item ms IH]; constructor; auto.
  split; [reflexivity | apply mode_change_refl].
Qed.

Lemma same_but_modes_trans (e1 e2 e3 : Engine) :
  same_but_modes e1 e2 -> same_but_modes e2 e3 -> same_but_modes e1 e3.
Proof.
  intros (ms2 & -> & H12) (ms3 & -> & H23).
  exists ms3. split; [reflexivity|].
  cbn [models set_models] in H23.
  revert ms3 H23. induction H12 as [|i1 i2 l1 l2 [Hn Hm] _ IH];
    intros ms3 H23; inversion H23 as [|i2' i3 l2' l3 [Hn' Hm'] Hrest]; subst;
    constructor; auto.
  split; [congruence | exact (mode_change_trans _ _ _ Hm Hm')].
Qed.

Lemma modes_only_ret {A} (a : A) : modes_only (ret a).
Proof. intros e. apply same_but_modes_refl. Qed.

Lemma modes_only_raise {A} (x : exn) : modes_only (@raise _ A x).
Proof. intros e. apply same_but_modes_refl. Qed.

Lemma modes_only_get : modes_only get.
Proof. intros e. apply same_but_modes_refl. Qed.

Lemma modes_only_lift {A} (r : result A) : modes_only (lift r).
Proof. intros e. apply same_but_modes_refl. Qed.

Lemma modes_only_bind {A B} (m : M A) (k : A -> M B) :
  modes_only m -> (forall a, modes_only (k a)) -> modes_only (bind m k).
Proof.
  intros Hm Hk e. unfold bind. specialize (Hm e).
  destruct (m e) as [e1 [a|x]]; cbn [fst] in *; [|exact Hm].
  exact (same_but_modes_trans _ _ _ Hm (Hk a e1)).
Qed.

Lemma modes_only_for_each {A} (body : A -> M unit) (l : list A) :
  (forall a, modes_only (body a)) -> modes_only (for_each body l).
Proof.
  intros Hb. induction l as [|a l IH]; cbn [for_each].
  - apply modes_only_ret.
  - apply modes_only_bind; [apply Hb | intros _; exact IH].
Qed.

Lemma modes_only_if {A} (b : bool) (m1 m2 : M A) :
  modes_only m1 -> modes_only m2 -> modes_only (if b then m1 else m2).
Proof. destruct b; auto. Qed.

Lemma modes_only_on_all_models (f : ModelUnit -> ModelUnit) :
  (forall m, mode_change m (f m)) -> modes_only (on_all_models f).
Proof.
  intros Hf e. cbn. eexists. split; [reflexivity|].
  induction (models e) as [|item ms IH]; cbn; constructor; auto.
Qed.

Lemma modes_only_on_model (name : string) (f : ModelUnit -> ModelUnit) :
  (forall m, mode_change m (f m)) -> modes_only (on_model name f).
Proof.
  intros Hf e. unfold on_model, bind, get, lift, modify.
  destruct (getitem (models e) name) as [m|x]; cbn [fst];
    [|apply same_but_modes_refl].
  eexists. split; [reflexivity|].
  induction (models e) as [|[k v] ms IH]; cbn; [constructor|].
  destruct (String.eqb k name); constructor; cbn; auto.
  - clear. induction ms as [|item ms IH]; constructor; auto.
    split; [reflexivity | apply mode_change_refl].
  - split; [reflexivity | apply mode_change_refl].
Qed.

Lemma mode_change_set_training (b : bool) (m : ModelUnit) :
  mode_change m (set_training b m).
Proof. repeat split. Qed.

Lemma mode_change_set_trainable (l : list string) (m : ModelUnit) :
  mode_change m (set_trainable l m).
Proof. repeat split. Qed.

Lemma modes_only_set_model_mode (mode : Mode) :
  modes_only (set_model_mode mode).
Proof.
  intros e. cbn. eexists. split; [reflexivity|].
  induction (models e) as [|item ms IH]; cbn; constructor; auto.
  split; [reflexivity|]. destruct mode; apply mode_change_set_training.
Qed.

Lemma modes_only_two_stepped_transfer_learning (epoch : option Z)
    (fixbase_epoch : Z) (open_layers : option (list string)) :
  modes_only (two_stepped_transfer_learning epoch fixbase_epoch open_layers).
Proof.
  unfold two_stepped_transfer_learning.
  destruct epoch; [|apply modes_only_raise].
  destruct open_layers; [apply modes_only_if|];
    apply modes_only_on_all_models; intros m;
    apply mode_change_set_trainable.
Qed.

Lemma modes_only_train_prologue (fixbase_epoch : Z)
    (open_layers : option (list string)) :
  modes_only (train_prologue fixbase_epoch open_layers).
Proof.
  unfold train_prologue, _unfreeze_aux_models, _freeze_aux_models.
  apply modes_only_bind; [apply modes_only_set_model_mode | intros _].
  apply modes_only_bind; [apply modes_only_get | intros e].
  apply modes_only_bind; [apply modes_only_lift | intros freeze].
  apply modes_only_bind.
  { apply modes_only_if; [|apply modes_only_ret].
    apply modes_only_bind; [apply modes_only_get | intros e'].
    apply modes_only_for_each. intros name. apply modes_only_on_model.
    intros m. repeat split. }
  intros _.
  apply modes_only_bind;
    [apply modes_only_two_stepped_transfer_learning | intros _].
  apply modes_only_bind; [apply modes_only_get | intros e'].
  apply modes_only_bind; [apply modes_only_lift | intros freeze'].
  apply modes_only_if; [|apply modes_only_ret].
  apply modes_only_bind; [apply modes_only_get | intros e''].
  apply modes_only_for_each. intros name. apply modes_only_on_model.
  intros m. repeat split.
Qed.

(** The state [test] ends in does not depend on what the evaluators do. *)
Lemma test_state (epoch : option Z) (a : TestArgs.t) (e : Engine) :
  fst (test epoch a e) = fst (set_model_mode mode_eval e).
Proof.
  unfold test.
  rewrite bind_ok with (e' := fst (set_model_mode mode_eval e)) (a := tt)
    by reflexivity.
  rewrite bind_get, bind_lift.
  destruct (test_datasets _ _ _ _ _); reflexivity.
Qed.

End Frames.


(** X7. The prologue of [Engine.train] changes nothing but the mode and the
    trainable layers of the registered models: names and order of the
    registry, tags and layers of the models, selector state, epoch,
    recorded LR, parameters and trace are kept, also when it raises. *)
Theorem train_prologue_changes_modes_only :
  forall (ext : Externals) (fixbase_epoch : Z)
         (open_layers : option (list string)) (e : Engine),
    same_but_modes e (fst (train_prologue fixbase_epoch open_layers e)).
Proof.
  intros ext fixbase_epoch open_layers e.
  apply modes_only_train_prologue.
Qed.

(* ================================================================== *)
(** * One epoch of training *)

Section TrainEpoch.
Context {ext : Externals}.

Lemma after_batches_same (e : Engine) :
  after_batches (world e) (lr_of_previous_iter e) (trace e) (polls e) e = e.
Proof. destruct e. reflexivity. Qed.

Lemma set_world_same (e : Engine) : set_world (world e) e = e.
Proof. destruct e. reflexivity. Qed.

Lemma for_each_sched_steps (losses : list Loss)
    (ms : list (string * ModelUnit)) :
  forall e : Engine,
    for_each
      (fun item : string * ModelUnit =>
         if has_sched (snd item) then
           modify (fun e => set_world (sched_step (world e) (fst item) losses) e)
         else ret tt) ms e
    = (set_world (scheduler_steps ms losses (world e)) e, Ok tt).
Proof.
  induction ms as [|item ms IH]; intros e; cbn [for_each].
  - cbn. rewrite set_world_same. reflexivity.
  - unfold scheduler_steps. cbn [fold_left].
    destruct (has_sched (snd item)).
    + rewrite bind_modify, IH. reflexivity.
    + rewrite bind_ret, IH. reflexivity.
Qed.

Lemma update_lr_steps (losses : list Loss) (e : Engine) :
  update_lr losses e
  = (set_world (scheduler_steps (models e) losses (world e)) e, Ok tt).
Proof. unfold update_lr. rewrite bind_get. apply for_each_sched_steps. Qed.

(** The batch loop without a stop callback. *)
Lemma train_batches_all (n0 : string) (e0 : Engine) (batches : list Batch) :
  index (get_model_names e0) 0 = Ok n0 ->
  forall (k : nat) (losses : list Loss) (w : World) (lr : option Q)
         (tr : list Event) (p : nat),
    for_break (train_batch None)
      (combine (seq k (List.length batches)) batches) losses
      (after_batches w lr tr p e0)
    = (after_batches (train_steps w batches)
         (match batches with
          | [] => lr
          | _ => Some (param_group_lr (train_steps w batches) n0)
          end)
         (rev (map (EvBatch (epoch e0)) (seq k (List.length batches))) ++ tr)
         p e0,
       Ok (losses ++ train_losses w batches)).
Proof.
  intros Hn. induction batches as [|data rest IH]; intros k losses w lr tr p.
  - cbn. rewrite app_nil_r. reflexivity.
  - cbn [List.length seq combine for_break].
    assert (Hstep :
      train_batch None (k, data) losses (after_batches w lr tr p e0)
      = (after_batches (fst (forward_backward w data))
           (Some (param_group_lr (fst (forward_backward w data)) n0))
           (EvBatch (epoch e0) k :: tr) p e0,
         Ok (false, losses ++ [snd (forward_backward w data)]))).
    { unfold train_batch, get_current_lr, emit, check_stop.
      rewrite bind_get, bind_modify, bind_modify.
      unfold bind at 1. unfold bind at 1. cbn [get]. unfold bind at 1.
      cbn [lift]. change (get_model_names _) with (get_model_names e0).
      rewrite Hn. reflexivity. }
    rewrite (bind_ok _ _ _ _ _ Hstep). cbn [fst snd].
    rewrite IH. unfold train_steps.
    cbn [fold_left train_losses map rev List.length seq].
    rewrite <- !app_assoc. cbn [app].
    destruct rest; reflexivity.
Qed.

(** The batch loop with a stop callback. *)
Lemma train_batches_until_stop (cb : nat -> bool) (n0 : string) (e0 : Engine)
    (batches : list Batch) :
  index (get_model_names e0) 0 = Ok n0 ->
  forall (k : nat) (losses : list Loss) (w : World) (lr : option Q)
         (tr : list Event) (p : nat),
    for_break (train_batch (Some cb))
      (combine (seq k (List.length batches)) batches) losses
      (after_batches w lr tr p e0)
    = (after_batches (train_steps w (trained_batches cb p batches))
         (match batches with
          | [] => lr
          | _ => Some (param_group_lr
                         (train_steps w (trained_batches cb p batches)) n0)
          end)
         (rev (batch_events cb (epoch e0) p k batches) ++ tr)
         (p + List.length (trained_batches cb p batches)) e0,
       Ok (losses ++ train_losses w (trained_batches cb p batches))).
Proof.
  intros Hn. induction batches as [|data rest IH]; intros k losses w lr tr p.
  - cbn. rewrite app_nil_r, Nat.add_0_r. reflexivity.
  - cbn [List.length seq combine for_break].
    assert (Hstep :
      train_batch (Some cb) (k, data) losses (after_batches w lr tr p e0)
      = (after_batches (fst (forward_backward w data))
           (Some (param_group_lr (fst (forward_backward w data)) n0))
           (EvPoll (cb p) :: EvBatch (epoch e0) k :: tr) (S p) e0,
         Ok (cb p, losses ++ [snd (forward_backward w data)]))).
    { unfold train_batch, get_current_lr, emit, check_stop.
      rewrite bind_get, bind_modify, bind_modify.
      unfold bind at 1. unfold bind at 1. cbn [get]. unfold bind at 1.
      cbn [lift]. change (get_model_names _) with (get_model_names e0).
      rewrite Hn. reflexivity. }
    rewrite (bind_ok _ _ _ _ _ Hstep). cbn [fst snd].
    cbn [trained_batches batch_events].
    destruct (cb p).
    + cbn [for_break fst snd ret train_losses train_steps fold_left
           List.length rev app].
      rewrite Nat.add_1_r. reflexivity.
    + rewrite IH. unfold train_steps.
      cbn [fold_left train_losses map rev List.length].
      rewrite <- !app_assoc, Nat.add_succ_r. cbn [app].
      destruct rest; reflexivity.
Qed.

End TrainEpoch.







(* ================================================================== *)
(** * What a run records *)

Section Steady.
Context {ext : Externals}.

Lemma steady_ret {A} (a : A) : steady (ret a).
Proof. intros e. repeat split. Qed.

Lemma steady_raise {A} (x : exn) : steady (@raise _ A x).
Proof. intros e. repeat split. Qed.

Lemma steady_get : steady get.
Proof. intros e. repeat split. Qed.

Lemma steady_lift {A} (r : result A) : steady (lift r).
Proof. intros e. repeat split. Qed.

Lemma steady_modify (f : Engine -> Engine) :
  (forall e, trace (f e) = trace e /\ conf (f e) = conf e /\
             epoch (f e) = epoch e /\ max_epoch (f e) = max_epoch e) ->
  steady (modify f).
Proof. intros H e. exact (H e). Qed.

Lemma steady_bind {A B} (m : M A) (k : A -> M B) :
  steady m -> (forall a, steady (k a)) -> steady (bind m k).
Proof.
  intros Hm Hk e. unfold bind.
  destruct (Hm e) as (H1 & H2 & H3 & H4).
  destruct (m e) as [e1 [a|x]]; cbn [fst] in *.
  - destruct (Hk a e1) as (K1 & K2 & K3 & K4). repeat split; congruence.
  - repeat split; assumption.
Qed.

Lemma steady_for_each {A} (body : A -> M unit) (l : list A) :
  (forall a, steady (body a)) -> steady (for_each body l).
Proof.
  intros Hb. induction l as [|a l IH]; cbn [for_each].
  - apply steady_ret.
  - apply steady_bind; [apply Hb | intros _; exact IH].
Qed.

Lemma steady_if {A} (b : bool) (m1 m2 : M A) :
  steady m1 -> steady m2 -> steady (if b then m1 else m2).
Proof. destruct b; auto. Qed.

Ltac steady_step :=
  first
    [ apply steady_ret | apply steady_raise | apply steady_get
    | apply steady_lift
    | apply steady_modify; intros ?; repeat split; reflexivity
    | apply steady_bind; [|intros ?]
    | apply steady_for_each; intros ?
    | apply steady_if
    | match goal with
      | |- steady (match ?x with _ => _ end) => destruct x
      end ].

Lemma steady_set_model_mode (mode : Mode) : steady (set_model_mode mode).
Proof. unfold set_model_mode. repeat steady_step. Qed.

Lemma steady_get_current_lr : steady get_current_lr.
Proof. unfold get_current_lr. repeat steady_step. Qed.

Lemma steady_update_lr (losses : list Loss) : steady (update_lr losses).
Proof. unfold update_lr. repeat steady_step. Qed.

Lemma steady_train_prologue (fixbase_epoch : Z)
    (open_layers : option (list string)) :
  steady (train_prologue fixbase_epoch open_layers).
Proof.
  unfold train_prologue, _unfreeze_aux_models, _freeze_aux_models,
    two_stepped_transfer_learning, on_all_models, on_model, set_model_mode.
  repeat steady_step.
Qed.

Lemma steady_exit_on_plateau_and_choose_best (top1 top5 mAP : option Q) :
  steady (exit_on_plateau_and_choose_best top1 top5 mAP).
Proof.
  unfold exit_on_plateau_and_choose_best. cbv zeta. repeat steady_step.
Qed.

Lemma steady_test (epoch : option Z) (a : TestArgs.t) : steady (test epoch a).
Proof. unfold test, set_model_mode. cbv zeta. repeat steady_step. Qed.

End Steady.

Section RunEmits.
Context {ext : Externals}.
Variable a : RunArgs.t.
Variable c : Config.
Variable tr0 : list Event.

Lemma emitted_loop_weaken (e : Engine) :
  EmittedLoop a c tr0 e -> Emitted a c tr0 e.
Proof. intros [H _]. exact H. Qed.

Lemma emitted_epoch_weaken (ep : Z) (e : Engine) :
  EmittedEpoch a c tr0 ep e -> EmittedLoop a c tr0 e.
Proof. intros [H _]. exact H. Qed.

Lemma hoare_bind_get {B} (P : Engine -> Prop) (k : Engine -> M B)
    (Q : B -> Engine -> Prop) (R : Engine -> Prop) :
  (forall e0, P e0 -> hoare P (k e0) Q R) -> hoare P (bind get k) Q R.
Proof. intros H e HP. rewrite bind_get. exact (H e HP e HP). Qed.

Lemma emitted_steady {A} (m : M A) :
  steady m ->
  hoare (Emitted a c tr0) m (fun _ => Emitted a c tr0) (Emitted a c tr0).
Proof.
  intros Hs e (Hc & new & Htr & Hall).
  destruct (Hs e) as (H1 & H2 & _).
  assert (G : Emitted a c tr0 (fst (m e))).
  { split; [congruence|]. exists new. split; [congruence | exact Hall]. }
  destruct (m e) as [e1 [x|x]]; exact G.
Qed.

Lemma emitted_loop_steady {A} (m : M A) :
  steady m ->
  hoare (EmittedLoop a c tr0) m (fun _ => EmittedLoop a c tr0)
    (Emitted a c tr0).
Proof.
  intros Hs e [He Hm].
  pose proof (emitted_steady m Hs e He) as G.
  destruct (Hs e) as (_ & _ & _ & H4).
  destruct (m e) as [e1 [x|x]]; cbn [fst] in *; [|exact G].
  split; [exact G | congruence].
Qed.

Lemma emitted_epoch_steady {A} (ep : Z) (m : M A) :
  steady m ->
  hoare (EmittedEpoch a c tr0 ep) m (fun _ => EmittedEpoch a c tr0 ep)
    (Emitted a c tr0).
Proof.
  intros Hs e (Hl & Hep & Hin).
  pose proof (emitted_loop_steady m Hs e Hl) as G.
  destruct (Hs e) as (_ & _ & H3 & _).
  destruct (m e) as [e1 [x|x]]; cbn [fst] in *; [|exact G].
  split; [exact G | split; [congruence | exact Hin]].
Qed.

Lemma emitted_emit (ev : Event) :
  may_emit a c ev = true ->
  hoare (Emitted a c tr0) (emit ev) (fun _ => Emitted a c tr0)
    (Emitted a c tr0).
Proof.
  intros Hev e (Hc & new & Htr & Hall). cbn.
  split; [exact Hc|]. exists (ev :: new). cbn. rewrite Htr, Hev, Hall.
  split; reflexivity.
Qed.

Lemma emitted_epoch_emit (ep : Z) (ev : Event) :
  may_emit a c ev = true ->
  hoare (EmittedEpoch a c tr0 ep) (emit ev)
    (fun _ => EmittedEpoch a c tr0 ep) (Emitted a c tr0).
Proof.
  intros Hev e ((He & Hm) & Hep & Hin).
  pose proof (emitted_emit ev Hev e He) as G. cbn in G |- *.
  split; [split; [exact G | exact Hm] | split; [exact Hep | exact Hin]].
Qed.

(** A loop keeps what each turn on an element of the list keeps. *)
Lemma hoare_for_break_in {A S} (P R : Engine -> Prop)
    (body : A -> S -> M (bool * S)) (l : list A) :
  (forall x s, In x l -> hoare P (body x s) (fun _ => P) R) ->
  forall s, hoare P (for_break body l s) (fun _ => P) R.
Proof.
  induction l as [|x l IH]; intros Hb s; cbn [for_break].
  - intros e H. exact H.
  - eapply hoare_bind; [apply Hb; left; reflexivity|].
    intros [brk s']. cbn [fst snd]. destruct brk.
    + intros e H. exact H.
    + apply IH. intros y s0 Hy. apply Hb. right. exact Hy.
Qed.

Hypothesis Hto : RunArgs.test_only a = false.

Lemma emitted_check_stop (ep : Z) :
  hoare (EmittedEpoch a c tr0 ep) (check_stop (RunArgs.stop_callback a))
    (fun _ => EmittedEpoch a c tr0 ep) (Emitted a c tr0).
Proof.
  unfold check_stop. destruct (RunArgs.stop_callback a) as [cb|] eqn:Hcb.
  - intros e (((Hc & new & Htr & Hall) & Hm) & Hep & Hin). cbn.
    assert (Hev : may_emit a c (EvPoll (cb (polls e))) = true).
    { cbn. rewrite Hto, Hcb. reflexivity. }
    split; [|split; assumption]. split; [|exact Hm]. split; [exact Hc|].
    exists (EvPoll (cb (polls e)) :: new).
    cbn [app forallb]. rewrite Hev, Hall, Htr. split; reflexivity.
  - apply emitted_epoch_steady, steady_ret.
Qed.

Lemma emitted_train_batch (ep : Z) (item : nat * Batch)
    (losses : list Loss) :
  (fst item < List.length (train_loader c))%nat ->
  hoare (EmittedEpoch a c tr0 ep)
    (train_batch (RunArgs.stop_callback a) item losses)
    (fun _ => EmittedEpoch a c tr0 ep) (Emitted a c tr0).
Proof.
  intros Hidx. unfold train_batch.
  apply hoare_bind_get. intros e0 (_ & Hep0 & Hin).
  eapply hoare_bind.
  { apply emitted_epoch_steady, steady_modify.
    intros e. repeat split; reflexivity. }
  intros ?; cbv beta.
  eapply hoare_bind.
  { apply emitted_epoch_emit. rewrite Hep0. cbn. rewrite Hto, Hin. cbn.
    apply Nat.ltb_lt. exact Hidx. }
  intros ?; cbv beta.
  eapply hoare_bind; [apply emitted_epoch_steady, steady_get_current_lr|].
  intros lr; cbv beta.
  eapply hoare_bind.
  { apply emitted_epoch_steady, steady_modify.
    intros e. repeat split; reflexivity. }
  intros ?; cbv beta.
  eapply hoare_bind; [apply emitted_check_stop|].
  intros stop; cbv beta. apply emitted_epoch_steady, steady_ret.
Qed.

Lemma enumerate_index {A} (l : list A) (item : nat * A) :
  In item (enumerate l) -> (fst item < List.length l)%nat.
Proof.
  unfold enumerate. destruct item as [i x]. intros Hin.
  apply in_combine_l, in_seq in Hin. cbn. lia.
Qed.

Lemma emitted_train (ep : Z) :
  hoare (EmittedEpoch a c tr0 ep)
    (train (RunArgs.fixbase_epoch a) (RunArgs.open_layers a)
       (RunArgs.lr_finder a) (RunArgs.stop_callback a))
    (fun _ => EmittedEpoch a c tr0 ep) (Emitted a c tr0).
Proof.
  unfold train.
  eapply hoare_bind; [apply emitted_epoch_steady, steady_train_prologue|].
  intros ?; cbv beta.
  apply hoare_bind_get. intros e0 (((Hc0 & _) & _) & _).
  eapply hoare_bind.
  { apply hoare_for_break_in. intros item s Hin.
    apply emitted_train_batch. rewrite <- Hc0.
    apply enumerate_index. exact Hin. }
  intros losses; cbv beta.
  apply emitted_epoch_steady.
  apply steady_if; [apply steady_update_lr | apply steady_ret].
Qed.

Lemma emitted_run_periodic_eval (ep : Z) :
  in_epochs a ep = true -> periodic_due a ep = true ->
  hoare (EmittedEpoch a c tr0 ep) (run_periodic_eval a ep)
    (fun _ => EmittedEpoch a c tr0 ep) (Emitted a c tr0).
Proof.
  intros Hin Hdue. unfold run_periodic_eval.
  eapply hoare_bind.
  { apply emitted_epoch_emit. cbn. rewrite Hto, Hin, Hdue. reflexivity. }
  intros ?; cbv beta.
  apply hoare_bind_get. intros e1 _.
  eapply hoare_bind; [apply emitted_epoch_steady, steady_test|].
  intros r; cbv beta.
  eapply hoare_bind.
  { apply emitted_epoch_steady.
    apply steady_if; [|apply steady_ret].
    apply steady_bind; [apply steady_get_current_lr|].
    intros ?. apply steady_ret. }
  intros ?; cbv beta.
  destruct (RunArgs.lr_finder a) eqn:Hlf; cbn [negb].
  { apply emitted_epoch_steady, steady_ret. }
  eapply hoare_bind;
    [apply emitted_epoch_steady, steady_exit_on_plateau_and_choose_best|].
  intros d; cbv beta.
  apply hoare_bind_get. intros e2 (((Hc2 & _) & _) & Hep2 & _).
  eapply hoare_bind; [|intros ?; apply emitted_epoch_steady, steady_ret].
  destruct (save_chkpt (conf e2)) eqn:Hsave;
    [|apply emitted_epoch_steady, steady_ret].
  unfold save_model.
  apply hoare_bind_get. intros e3 _.
  eapply hoare_bind; [apply emitted_epoch_steady, steady_lift|].
  intros ?; cbv beta. rewrite Hep2.
  apply emitted_epoch_emit. cbn.
  rewrite Hto, Hin, Hdue, Hlf, <- Hc2, Hsave. reflexivity.
Qed.

Lemma emitted_run_epoch (ep : Z) (u : unit) :
  in_epochs a ep = true ->
  hoare (EmittedLoop a c tr0) (run_epoch a ep u)
    (fun _ => EmittedLoop a c tr0) (Emitted a c tr0).
Proof.
  intros Hin. unfold run_epoch.
  eapply hoare_bind with (Q1 := fun _ => EmittedEpoch a c tr0 ep).
  { intros e [He Hm]. cbn.
    split; [split; [exact He | exact Hm] | split; [reflexivity | exact Hin]]. }
  intros ?; cbv beta.
  apply hoare_weaken with (P' := EmittedEpoch a c tr0 ep)
                          (Q' := fun _ => EmittedEpoch a c tr0 ep)
                          (R' := Emitted a c tr0); auto;
    [|intros ? e H; exact (emitted_epoch_weaken ep e H)].
  eapply hoare_bind; [apply emitted_train|]. intros ?; cbv beta.
  eapply hoare_bind; [apply emitted_check_stop|].
  intros [|]; [apply emitted_epoch_steady, steady_ret|].
  apply hoare_bind_get. intros e1 ((_ & Hm1) & _).
  rewrite Hm1. cbn [int_eqb_opt].
  fold (periodic_due a ep).
  destruct (periodic_due a ep) eqn:Hdue.
  - eapply hoare_bind; [apply emitted_run_periodic_eval; assumption|].
    intros brk. apply emitted_epoch_steady, steady_ret.
  - apply emitted_epoch_steady, steady_ret.
Qed.

Lemma range_in_epochs (ep : Z) :
  In ep (range (RunArgs.start_epoch a) (RunArgs.max_epoch a)) ->
  in_epochs a ep = true.
Proof.
  unfold range, in_epochs. intros Hin.
  apply in_map_iff in Hin as (i & <- & Hi). apply in_seq in Hi.
  apply andb_true_intro. split; [apply Z.leb_le | apply Z.ltb_lt]; lia.
Qed.

Lemma emitted_run_final_test :
  (RunArgs.max_epoch a >? 0) = true ->
  hoare (Emitted a c tr0) (run_final_test a) (fun _ => Emitted a c tr0)
    (Emitted a c tr0).
Proof.
  intros Hmax. unfold run_final_test.
  apply hoare_bind_get. intros e0 _.
  eapply hoare_bind.
  { apply emitted_emit. cbn. rewrite Hto, Hmax. reflexivity. }
  intros ?; cbv beta.
  eapply hoare_bind; [apply emitted_steady, steady_test|].
  intros r; cbv beta.
  apply hoare_bind_get. intros e1 (Hc1 & _).
  eapply hoare_bind.
  { destruct (save_chkpt (conf e1) && negb (RunArgs.lr_finder a)) eqn:Hs;
      [|apply emitted_steady, steady_ret].
    apply andb_prop in Hs as [Hsave Hlf].
    eapply hoare_bind;
      [apply emitted_steady, steady_exit_on_plateau_and_choose_best|].
    intros d; cbv beta.
    apply hoare_bind_get. intros e2 _.
    unfold save_model.
    apply hoare_bind_get. intros e3 _.
    eapply hoare_bind; [apply emitted_steady, steady_lift|].
    intros ?; cbv beta.
    destruct (epoch e2) as [ep|]; [|apply emitted_steady, steady_raise].
    apply emitted_emit. cbn. rewrite Hto, Hmax, <- Hc1, Hsave, Hlf.
    reflexivity. }
  intros ?; cbv beta.
  eapply hoare_bind.
  { apply emitted_steady.
    apply steady_if; [|apply steady_ret].
    apply steady_bind; [apply steady_get_current_lr|].
    intros ?. apply steady_ret. }
  intros ?; cbv beta. apply emitted_steady, steady_ret.
Qed.

Lemma emitted_run_training :
  hoare (Emitted a c tr0) (run a) (fun _ => Emitted a c tr0)
    (Emitted a c tr0).
Proof.
  unfold run. rewrite Hto. cbn [negb]. rewrite andb_true_r.
  destruct (RunArgs.visrank a); [apply emitted_steady, steady_raise|].
  eapply hoare_bind.
  { destruct (RunArgs.lr_finder a) eqn:Hlf; cbn [negb];
      [apply emitted_steady, steady_ret|].
    eapply hoare_bind.
    { apply emitted_emit. cbn. rewrite Hto, Hlf. reflexivity. }
    intros ?; cbv beta.
    eapply hoare_bind; [apply emitted_steady, steady_test|].
    intros r. apply emitted_steady, steady_ret. }
  intros ?; cbv beta.
  eapply hoare_bind with (Q1 := fun _ => EmittedLoop a c tr0).
  { intros e He. cbn. split; [exact He | reflexivity]. }
  intros ?; cbv beta.
  eapply hoare_bind with (Q1 := fun _ => Emitted a c tr0).
  { apply hoare_weaken with (P' := EmittedLoop a c tr0)
                            (Q' := fun _ => EmittedLoop a c tr0)
                            (R' := Emitted a c tr0).
    - apply hoare_for_break_in. intros ep s Hin.
      apply emitted_run_epoch, range_in_epochs, Hin.
    - auto.
    - intros ? e H. exact (emitted_loop_weaken e H).
    - auto. }
  intros ?; cbv beta.
  eapply hoare_bind with (Q1 := fun _ => Emitted a c tr0).
  { destruct (RunArgs.max_epoch a >? 0) eqn:Hmax.
    - eapply hoare_bind; [apply emitted_run_final_test; exact Hmax|].
      intros t. apply emitted_steady, steady_ret.
    - apply emitted_steady, steady_ret. }
  intros [t|]; apply emitted_steady; [apply steady_ret | apply steady_raise].
Qed.

End RunEmits.

Section RunEmitsAll.
Context {ext : Externals}.

(** Every event a run adds to the trace is one [may_emit] allows. *)
Lemma run_emits (a : RunArgs.t) (e : Engine) :
  exists new,
    trace (fst (run a e)) = new ++ trace e /\
    forallb (may_emit a (conf e)) new = true.
Proof.
  assert (H0 : Emitted a (conf e) (trace e) e).
  { split; [reflexivity|]. exists []. split; reflexivity. }
  assert (G : Emitted a (conf e) (trace e) (fst (run a e))).
  { destruct (RunArgs.test_only a) eqn:Hto.
    - assert (H : hoare (Emitted a (conf e) (trace e)) (run a)
                    (fun _ => Emitted a (conf e) (trace e))
                    (Emitted a (conf e) (trace e))).
      { unfold run. rewrite Hto. cbn [negb]. rewrite andb_false_r.
        eapply hoare_bind.
        { apply emitted_emit. cbn. exact Hto. }
        intros ?; cbv beta.
        eapply hoare_bind; [apply emitted_steady, steady_test|].
        intros r. apply emitted_steady, steady_ret. }
      specialize (H e H0). destruct (run a e) as [e' [r|x]]; exact H.
    - pose proof (emitted_run_training a (conf e) (trace e) Hto e H0) as H.
      destruct (run a e) as [e' [r|x]]; exact H. }
  destruct G as (_ & new & Htr & Hall). exists new. auto.
Qed.

Lemma in_epochs_spec (a : RunArgs.t) (ep : Z) :
  in_epochs a ep = true ->
  RunArgs.start_epoch a <= ep < RunArgs.max_epoch a.
Proof.
  unfold in_epochs. intros H. apply andb_prop in H as [H1 H2].
  apply Z.leb_le in H1. apply Z.ltb_lt in H2. lia.
Qed.

Lemma periodic_due_spec (a : RunArgs.t) (ep : Z) :
  periodic_due a ep = true ->
  RunArgs.start_eval a <= ep + 1 /\ 0 < RunArgs.eval_freq a /\
  (ep + 1) mod RunArgs.eval_freq a = 0 /\ ep + 1 <> RunArgs.max_epoch a.
Proof.
  unfold periodic_due. intros H.
  apply andb_prop in H as [H H4]. apply andb_prop in H as [H H3].
  apply andb_prop in H as [H1 H2].
  rewrite Z.geb_leb in H1. apply Z.leb_le in H1.
  rewrite Z.gtb_ltb in H2. apply Z.ltb_lt in H2.
  apply Z.eqb_eq in H3. apply negb_true_iff, Z.eqb_neq in H4.
  auto.
Qed.

End RunEmitsAll.

(** X11. [run] calls [save_model] only if the engine was built with
    [save_chkpt], [lr_finder] is off and the run is not [test_only]; and
    then only from the final block (which needs [max_epoch > 0]) or after a
    periodic evaluation that is due: an epoch [ep] of the run with
    [ep + 1 >= start_eval], [eval_freq > 0], [(ep + 1) % eval_freq == 0]
    and [ep + 1 != max_epoch]. *)
Theorem run_saves_only_when_asked :
  forall (ext : Externals) (a : RunArgs.t) (e : Engine),
    exists new,
      trace (fst (run a e)) = new ++ trace e /\
      forall site ep is_best,
        In (EvSave site ep is_best) new ->
        save_chkpt (conf e) = true /\ RunArgs.lr_finder a = false /\
        RunArgs.test_only a = false /\
        ((site = Final /\ 0 < RunArgs.max_epoch a) \/
         (site = Periodic /\
          RunArgs.start_epoch a <= ep < RunArgs.max_epoch a /\
          RunArgs.start_eval a <= ep + 1 /\ 0 < RunArgs.eval_freq a /\
          (ep + 1) mod RunArgs.eval_freq a = 0 /\
          ep + 1 <> RunArgs.max_epoch a)).
Proof.
  intros ext a e. destruct (run_emits a e) as (new & Htr & Hall).
  exists new. split; [exact Htr|].
  intros site ep is_best Hin.
  rewrite forallb_forall in Hall. specialize (Hall _ Hin). cbn in Hall.
  destruct site; try discriminate.
  - apply andb_prop in Hall as [H Hlf]. apply andb_prop in H as [H Hsave].
    apply andb_prop in H as [H Hdue]. apply andb_prop in H as [Hto Hin'].
    apply negb_true_iff in Hto, Hlf.
    repeat split; auto. right. split; [reflexivity|].
    split; [exact (in_epochs_spec a ep Hin')|].
    exact (periodic_due_spec a ep Hdue).
  - apply andb_prop in Hall as [H Hlf]. apply andb_prop in H as [H Hsave].
    apply andb_prop in H as [Hto Hmax].
    apply negb_true_iff in Hto, Hlf.
    rewrite Z.gtb_ltb in Hmax. apply Z.ltb_lt in Hmax.
    repeat split; auto.
Qed.

(** X12. [run] evaluates inside the epoch loop only when an evaluation is
    due: after an epoch [ep] of [range(start_epoch, max_epoch)] with
    [ep + 1 >= start_eval], [eval_freq > 0], [(ep + 1) % eval_freq == 0]
    and [ep + 1 != max_epoch]; so never with the default [eval_freq = -1]
    and never after the last epoch. The test before training is skipped by
    [lr_finder], and the final test needs [max_epoch > 0]. *)
Theorem run_evaluates_on_schedule :
  forall (ext : Externals) (a : RunArgs.t) (e : Engine),
    exists new,
      trace (fst (run a e)) = new ++ trace e /\
      forall site oep,
        In (EvTest site oep) new ->
        match site with
        | TestOnly => RunArgs.test_only a = true
        | BeforeTraining =>
            RunArgs.test_only a = false /\ RunArgs.lr_finder a = false
        | Periodic =>
            RunArgs.test_only a = false /\
            exists ep,
              oep = Some ep /\
              RunArgs.start_epoch a <= ep < RunArgs.max_epoch a /\
              RunArgs.start_eval a <= ep + 1 /\ 0 < RunArgs.eval_freq a /\
              (ep + 1) mod RunArgs.eval_freq a = 0 /\
              ep + 1 <> RunArgs.max_epoch a
        | Final => RunArgs.test_only a = false /\ 0 < RunArgs.max_epoch a
        end.
Proof.
  intros ext a e. destruct (run_emits a e) as (new & Htr & Hall).
  exists new. split; [exact Htr|].
  intros site oep Hin.
  rewrite forallb_forall in Hall. specialize (Hall _ Hin). cbn in Hall.
  destruct site.
  - exact Hall.
  - apply andb_prop in Hall as [Hto Hlf].
    apply negb_true_iff in Hto, Hlf. auto.
  - destruct oep as [ep|]; [|discriminate].
    apply andb_prop in Hall as [H Hdue]. apply andb_prop in H as [Hto Hin'].
    apply negb_true_iff in Hto. split; [exact Hto|].
    exists ep. split; [reflexivity|].
    split; [exact (in_epochs_spec a ep Hin')|].
    exact (periodic_due_spec a ep Hdue).
  - apply andb_prop in Hall as [Hto Hmax]. apply negb_true_iff in Hto.
    rewrite Z.gtb_ltb in Hmax. apply Z.ltb_lt in Hmax. auto.
Qed.

(** X13. Every training step of [run] belongs to an epoch of
    [range(start_epoch, max_epoch)] and to a batch index below
    [len(train_loader)]; a [test_only] run trains nothing; and the stop
    callback is polled only if one was given and the run is not
    [test_only]. *)
Theorem run_trains_within_epochs :
  forall (ext : Externals) (a : RunArgs.t) (e : Engine),
    exists new,
      trace (fst (run a e)) = new ++ trace e /\
      (forall oep batch_idx,
         In (EvBatch oep batch_idx) new ->
         RunArgs.test_only a = false /\
         (batch_idx < List.length (train_loader (conf e)))%nat /\
         exists ep,
           oep = Some ep /\
           RunArgs.start_epoch a <= ep < RunArgs.max_epoch a) /\
      (forall positive,
         In (EvPoll positive) new ->
         RunArgs.test_only a = false /\ RunArgs.stop_callback a <> None).
Proof.
  intros ext a e. destruct (run_emits a e) as (new & Htr & Hall).
  exists new. split; [exact Htr|].
  rewrite forallb_forall in Hall. split.
  - intros oep batch_idx Hin. specialize (Hall _ Hin). cbn in Hall.
    destruct oep as [ep|]; [|discriminate].
    apply andb_prop in Hall as [H Hidx]. apply andb_prop in H as [Hto Hin'].
    apply negb_true_iff in Hto. apply Nat.ltb_lt in Hidx.
    repeat split; auto. exists ep. split; [reflexivity|].
    exact (in_epochs_spec a ep Hin').
  - intros positive Hin. specialize (Hall _ Hin). cbn in Hall.
    apply andb_prop in Hall as [Hto Hcb]. apply negb_true_iff in Hto.
    split; [exact Hto|]. destruct (RunArgs.stop_callback a); discriminate.
Qed.

(** X14. A [test_only] run is one evaluation and nothing else: it returns
    what [test(0)] returns (or raises what it raises), records that single
    test, and leaves the selector state, the recorded LR, the epoch and the
    parameters as they were, whatever the other arguments are. *)
Theorem run_test_only_is_one_test :
  forall (ext : Externals) (a : RunArgs.t) (e : Engine),
    RunArgs.test_only a = true ->
    let r := test (Some 0) (test_args a (RunArgs.rerank a) false)
               (fst (emit (EvTest TestOnly (Some 0)) e)) in
    snd (run a e)
    = match snd r with
      | Ok m => Ok (TestResults (fst (fst m)) (snd (fst m)) (snd m))
      | Err x => Err x
      end /\
    trace (fst (run a e)) = EvTest TestOnly (Some 0) :: trace e /\
    iter_to_wait (fst (run a e)) = iter_to_wait e /\
    best_metric (fst (run a e)) = best_metric e /\
    lr_prev_best_metric (fst (run a e)) = lr_prev_best_metric e /\
    lr_of_previous_iter (fst (run a e)) = lr_of_previous_iter e /\
    epoch (fst (run a e)) = epoch e /\
    world (fst (run a e)) = world e.
Proof.
  intros ext a e Hto r.
  assert (Hrun : run a e
                 = (fst r,
                    match snd r with
                    | Ok m => Ok (TestResults (fst (fst m)) (snd (fst m))
                                    (snd m))
                    | Err x => Err x
                    end)).
  { unfold run. rewrite Hto. cbn [negb]. rewrite andb_false_r.
    unfold emit at 1. rewrite bind_modify. unfold bind. subst r.
    cbn [emit modify fst].
    destruct (test (Some 0) (test_args a (RunArgs.rerank a) false) _)
      as [e1 [m|x]]; reflexivity. }
  rewrite Hrun. cbn [fst snd]. split; [reflexivity|].
  subst r. rewrite test_state. cbn. repeat split.
Qed.

Lemma run_test_only_is_one_test_witness :
  snd (run
         {| RunArgs.max_epoch := 5; RunArgs.start_epoch := 0;
            RunArgs.fixbase_epoch := 0; RunArgs.open_layers := None;
            RunArgs.start_eval := 0; RunArgs.eval_freq := 1;
            RunArgs.test_only := true; RunArgs.dist_metric := "euclidean";
            RunArgs.normalize_feature := false; RunArgs.visrank := true;
            RunArgs.use_metric_cuhk03 := false; RunArgs.rerank := false;
            RunArgs.lr_finder := false; RunArgs.stop_callback := None |}
         training_engine)
  = Ok (TestResults (Some (21 # 100)) (Some (21 # 100)) (Some (21 # 100))).
Proof.
  apply (run_test_only_is_one_test toy_externals
           {| RunArgs.max_epoch := 5; RunArgs.start_epoch := 0;
              RunArgs.fixbase_epoch := 0; RunArgs.open_layers := None;
              RunArgs.start_eval := 0; RunArgs.eval_freq := 1;
              RunArgs.test_only := true; RunArgs.dist_metric := "euclidean";
              RunArgs.normalize_feature := false; RunArgs.visrank := true;
              RunArgs.use_metric_cuhk03 := false; RunArgs.rerank := false;
              RunArgs.lr_finder := false; RunArgs.stop_callback := None |}
           training_engine eq_refl).
Defined.

(* ================================================================== *)
(** * The number of classes of an exported model *)

(** X15. Whatever [parse_num_classes] returns is a non-empty list: it
    never hands an empty list of class counts to [build_model], it fails an
    assertion instead. *)
Theorem parse_num_classes_nonempty :
  forall (load_checkpoint : string -> ConvertToOnnx.SnapClasses)
         (source_datasets : list ConvertToOnnx.Source) (classification : bool)
         (num_classes : option (list Z)) (snap_path : option string)
         (result : list Z),
    ConvertToOnnx.parse_num_classes load_checkpoint source_datasets
      classification num_classes snap_path = ConvertToOnnx.Passed result ->
    result <> [].
Proof.
  intros load sources cls nc snap result.
  unfold ConvertToOnnx.parse_num_classes.
  set (nc' := match snap with
              | Some path =>
                  match nc with
                  | None =>
                      match load path with
                      | ConvertToOnnx.NoNumClasses => None
                      | ConvertToOnnx.NumClassesInt n => Some [n]
                      | ConvertToOnnx.NumClassesList l => Some l
                      end
                  | Some _ => nc
                  end
              | None => nc
              end).
  set (total := (_ + _)%nat).
  assert (Hdummy : (if (0 <? total)%nat
                    then ConvertToOnnx.Passed (repeat 0 total)
                    else ConvertToOnnx.AssertionError)
                   = ConvertToOnnx.Passed result -> result <> []).
  { destruct total as [|k]; cbn; [discriminate|].
    intros [= <-]. discriminate. }
  destruct cls.
  - destruct (ConvertToOnnx.given nc'); [|discriminate].
    destruct nc' as [[|n l]|]; auto. intros [= <-]. discriminate.
  - destruct nc as [[|n l]|]; auto. intros [= <-]. discriminate.
Qed.

Lemma parse_num_classes_nonempty_witness :
  ConvertToOnnx.parse_num_classes
    (fun _ => ConvertToOnnx.NumClassesInt 37) [] true None (Some "snap.pth")
  = ConvertToOnnx.Passed [37] /\
  [37] <> [].
Proof.
  split; [reflexivity|].
  apply (parse_num_classes_nonempty (fun _ => ConvertToOnnx.NumClassesInt 37)
           [] true None (Some "snap.pth") [37]).
  reflexivity.
Defined.

(** X16. Class counts given on the command line always win: a non-empty
    [num_classes] is returned as it is, for classification models whatever
    the snapshot holds and for the others whatever the datasets are. And
    for a classification model the result never depends on the datasets. *)
Theorem parse_num_classes_command_line_wins :
  forall (load_checkpoint : string -> ConvertToOnnx.SnapClasses)
         (source_datasets source_datasets' : list ConvertToOnnx.Source)
         (classification : bool) (num_classes : option (list Z))
         (snap_path : option string) (n : Z) (l : list Z),
    ConvertToOnnx.parse_num_classes load_checkpoint source_datasets
      classification (Some (n :: l)) snap_path
    = ConvertToOnnx.Passed (n :: l) /\
    ConvertToOnnx.parse_num_classes load_checkpoint source_datasets
      true num_classes snap_path
    = ConvertToOnnx.parse_num_classes load_checkpoint source_datasets'
        true num_classes snap_path.
Proof.
  intros load sources sources' cls nc snap n l. split.
  - unfold ConvertToOnnx.parse_num_classes.
    destruct cls, snap; reflexivity.
  - unfold ConvertToOnnx.parse_num_classes.
    match goal with
    | |- context [ConvertToOnnx.given ?x] => destruct x as [[|k ks]|]
    end; reflexivity.
Qed.

(** X17. For a model that is not a classification model and without class
    counts on the command line, the result is a dummy list of zeros with one
    entry per clustered source plus one for all the plain sources together;
    the assertion fails exactly when there is no source at all. *)
Theorem parse_num_classes_dummy :
  forall (load_checkpoint : string -> ConvertToOnnx.SnapClasses)
         (source_datasets : list ConvertToOnnx.Source)
         (num_classes : option (list Z)) (snap_path : option string),
    ConvertToOnnx.given num_classes = false ->
    let groups :=
      List.length (filter ConvertToOnnx.is_group source_datasets) in
    let plain :=
      existsb (fun src => negb (ConvertToOnnx.is_group src)) source_datasets in
    ConvertToOnnx.parse_num_classes load_checkpoint source_datasets
      false num_classes snap_path
    = match source_datasets with
      | [] => ConvertToOnnx.AssertionError
      | _ => ConvertToOnnx.Passed
               (repeat 0 (groups + (if plain then 1 else 0)))
      end.
Proof.
  intros load sources nc snap Hgiven groups plain.
  unfold ConvertToOnnx.parse_num_classes.
  assert (Hnc : match nc with
                | Some (n :: l) => False
                | _ => True
                end).
  { destruct nc as [[|n l]|]; cbn in Hgiven; auto. discriminate. }
  assert (Hplain : (0 <? List.length
                           (filter (fun src => negb (ConvertToOnnx.is_group src))
                              sources))%nat = plain).
  { subst plain. clear. induction sources as [|src sources IH];
      [reflexivity|].
    cbn. destruct (ConvertToOnnx.is_group src); cbn; [exact IH | reflexivity]. }
  rewrite Hplain. fold groups.
  assert (Htotal : (0 <? groups + (if plain then 1 else 0))%nat
                   = match sources with [] => false | _ => true end).
  { subst groups plain. destruct sources as [|src sources]; [reflexivity|].
    cbn. destruct (ConvertToOnnx.is_group src); cbn; [reflexivity|].
    rewrite Nat.add_1_r. reflexivity. }
  destruct nc as [[|n l]|]; try contradiction; cbv zeta; rewrite Htotal;
    destruct sources; reflexivity.
Qed.

Lemma parse_num_classes_dummy_witness :
  ConvertToOnnx.parse_num_classes (fun _ => ConvertToOnnx.NoNumClasses)
    [ConvertToOnnx.SourceGroup ["a"; "b"]; ConvertToOnnx.SourceName "c";
     ConvertToOnnx.SourceName "d"] false None (Some "snap.pth")
  = ConvertToOnnx.Passed [0; 0].
Proof.
  apply (parse_num_classes_dummy (fun _ => ConvertToOnnx.NoNumClasses)
           [ConvertToOnnx.SourceGroup ["a"; "b"]; ConvertToOnnx.SourceName "c";
            ConvertToOnnx.SourceName "d"] None (Some "snap.pth")).
  reflexivity.
Defined.

(* ================================================================== *)
(** * The tracks file of a submission *)

Section Traverse.
Import PrepareSubmission.

Lemma traverse_done {A B} (f : A -> outcome B) (l : list A) (ys : list B) :
  traverse f l = Done ys -> Forall2 (fun x y => f x = Done y) l ys.
Proof.
  revert ys. induction l as [|x l IH]; cbn; intros ys H.
  - injection H as <-. constructor.
  - destruct (f x) as [y|err] eqn:Hx; cbn in H; [|discriminate].
    destruct (traverse f l) as [ys'|err]; cbn in H; [|discriminate].
    injection H as <-. constructor; auto.
Qed.

Lemma traverse_raised {A B} (f : A -> outcome B) (l : list A) (x : A)
    (err : Error) :
  In x l -> f x = Raised err -> exists err', traverse f l = Raised err'.
Proof.
  induction l as [|x' l IH]; cbn; intros Hin Hx; [contradiction|].
  destruct Hin as [->|Hin].
  - rewrite Hx. cbn. eauto.
  - destruct (f x') as [y|err0]; cbn; [|eauto].
    destruct (IH Hin Hx) as [err' ->]. cbn. eauto.
Qed.

Lemma traverse_check {A} (p : A -> bool) (err : Error) (l ys : list A) :
  traverse (fun x => if p x then Done x else Raised err) l = Done ys ->
  ys = l /\ Forall (fun x => p x = true) l.
Proof.
  intros H. apply traverse_done in H.
  induction H as [|x y l ys Hx _ [IH1 IH2]]; [auto|].
  destruct (p x) eqn:Hp; [|discriminate]. injection Hx as <-.
  split; [congruence | constructor; assumption].
Qed.

Lemma mem_Z_In (x : Z) (l : list Z) : mem_Z x l = true <-> In x l.
Proof.
  unfold mem_Z. rewrite existsb_exists. split.
  - intros (y & Hin & Heq). apply Z.eqb_eq in Heq. congruence.
  - intros Hin. exists x. split; [exact Hin | apply Z.eqb_refl].
Qed.

Lemma all_distinct_NoDup (l : list Z) : all_distinct l = true -> NoDup l.
Proof.
  induction l as [|x l IH]; cbn; intros H; constructor.
  - apply andb_prop in H as [H _]. apply negb_true_iff in H.
    intros Hin. apply mem_Z_In in Hin. congruence.
  - apply andb_prop in H as [_ H]. exact (IH H).
Qed.

Lemma ids_upto_In (n : nat) (x : Z) :
  In x (ids_upto n) <-> 0 <= x < Z.of_nat n.
Proof.
  unfold ids_upto. rewrite in_map_iff. split.
  - intros (i & <- & Hi). apply in_seq in Hi. lia.
  - intros Hx. exists (Z.to_nat x). split; [lia|]. apply in_seq. lia.
Qed.

Lemma ids_upto_NoDup (n : nat) : NoDup (ids_upto n).
Proof.
  unfold ids_upto. apply NoDup_map_NoDup_ForallPairs; [|apply seq_NoDup].
  intros i j _ _ H. lia.
Qed.

Lemma filter_split_permutation {A} (p : A -> bool) (l : list A) :
  Permutation (filter p l ++ filter (fun x => negb (p x)) l) l.
Proof.
  induction l as [|x l IH]; cbn; [constructor|].
  destruct (p x); cbn.
  - constructor. exact IH.
  - apply Permutation_sym, Permutation_cons_app, Permutation_sym, IH.
Qed.

(** Distinct ids of the gallery, with the remaining ones after them, are
    the gallery. *)
Lemma with_rest_permutation (n : nat) (ids : list Z) :
  NoDup ids -> Forall (fun x => 0 <= x < Z.of_nat n) ids ->
  Permutation
    (ids ++ filter (fun i => negb (mem_Z i ids)) (ids_upto n)) (ids_upto n).
Proof.
  intros Hnd Hrange.
  eapply Permutation_trans;
    [|apply (filter_split_permutation (fun i => mem_Z i ids))].
  apply Permutation_app_tail, NoDup_Permutation.
  - exact Hnd.
  - apply NoDup_filter, ids_upto_NoDup.
  - intros x. rewrite filter_In, mem_Z_In, ids_upto_In.
    rewrite Forall_forall in Hrange. split; [|tauto].
    intros Hin. split; [apply Hrange|]; exact Hin.
Qed.

Lemma concat_singletons {A} (l : list A) :
  List.concat (map (fun x => [x]) l) = l.
Proof. induction l as [|x l IH]; cbn; congruence. Qed.

Lemma list_sum_lengths {A} (l : list (list A)) :
  list_sum (map (@List.length A) l) = List.length (List.concat l).
Proof.
  unfold list_sum. induction l as [|x l IH]; cbn; [reflexivity|].
  rewrite length_app, IH. reflexivity.
Qed.

End Traverse.

Lemma traverse_raised_inv {A B} (f : A -> PrepareSubmission.outcome B)
    (l : list A) (err : PrepareSubmission.Error) :
  PrepareSubmission.traverse f l = PrepareSubmission.Raised err ->
  exists x, In x l /\ f x = PrepareSubmission.Raised err.
Proof.
  induction l as [|x l IH]; cbn; [discriminate|].
  destruct (f x) as [y|e] eqn:Hx; cbn.
  - destruct (PrepareSubmission.traverse f l) as [ys|e]; cbn;
      [discriminate|].
    intros [= ->]. destruct (IH eq_refl) as (x' & Hin & Hx').
    exists x'. split; [right; exact Hin | exact Hx'].
  - intros [= ->]. exists x. split; [left; reflexivity | exact Hx].
Qed.

Section LoadTracks.
Import PrepareSubmission.
Variable int : string -> option Z.

Lemma parse_track_done (n : nat) (line : string) (ids : list Z) :
  parse_track int n line = Done ids ->
  ids <> [] /\ Forall (fun x => 0 <= x < Z.of_nat n) ids /\
  Forall2 (fun s id => int s = Some (id + 1)) (str_values line) ids.
Proof.
  unfold parse_track. intros H.
  destruct (traverse _ (str_values line)) as [ids'|err] eqn:Hparse;
    cbn [and_then] in H; [|discriminate].
  destruct ids' as [|x ids']; cbn [List.length Nat.ltb Nat.leb] in H;
    [discriminate|].
  destruct (traverse _ (x :: ids')) as [checked|err] eqn:Hcheck;
    cbn [and_then] in H; [|discriminate].
  injection H as <-.
  apply traverse_check in Hcheck as [_ Hrange].
  split; [discriminate|]. split.
  - eapply Forall_impl; [|exact Hrange]. cbv beta. intros y Hy.
    apply andb_prop in Hy as [H1 H2].
    apply Z.leb_le in H1. apply Z.ltb_lt in H2. lia.
  - apply traverse_done in Hparse.
    eapply Forall2_impl; [|exact Hparse]. cbv beta. intros s y Hs.
    destruct (int s) as [v|]; [|discriminate]. injection Hs as <-.
    f_equal. lia.
Qed.

(** What [load_tracks] does once the lines are parsed. *)
Lemma load_tracks_parsed (lines : list string) (n : nat)
    (file_tracks : list (list Z)) :
  traverse (parse_track int n) lines = Done file_tracks ->
  load_tracks int lines n
  = if all_distinct (List.concat file_tracks) then
      Done (file_tracks
            ++ map (fun rest_id => [rest_id])
                 (filter (fun i => negb (mem_Z i (List.concat file_tracks)))
                    (ids_upto n)))
    else Raised DuplicateId.
Proof.
  intros Hparse. unfold load_tracks. rewrite Hparse. cbn [and_then].
  destruct (all_distinct (List.concat file_tracks)) eqn:Hd; [|reflexivity].
  assert (Hrange : Forall (fun x => 0 <= x < Z.of_nat n)
                     (List.concat file_tracks)).
  { apply traverse_done in Hparse. clear Hd.
    induction Hparse as [|line t ls ts Ht _ IH]; cbn; [constructor|].
    apply Forall_app. split; [|exact IH].
    apply parse_track_done in Ht. tauto. }
  rewrite list_sum_lengths, concat_app, concat_singletons.
  rewrite (Permutation_length
             (with_rest_permutation n _ (all_distinct_NoDup _ Hd) Hrange)).
  unfold ids_upto. rewrite length_map, length_seq, Nat.eqb_refl.
  reflexivity.
Qed.

End LoadTracks.

(** X18. The tracks [load_tracks] returns partition the gallery: every id
    of [range(gallery_size)] belongs to exactly one track, no track is
    empty, the tracks of the file come first (each line read as 1-based ids)
    and every gallery image the file does not mention follows as a track of
    its own. *)
Theorem load_tracks_partition :
  forall (int : string -> option Z) (lines : list string)
         (gallery_size : nat) (tracks : list (list Z)),
    PrepareSubmission.load_tracks int lines gallery_size
    = PrepareSubmission.Done tracks ->
    Permutation (List.concat tracks)
      (PrepareSubmission.ids_upto gallery_size) /\
    Forall (fun track => track <> []) tracks /\
    exists file_tracks rest_ids,
      tracks = file_tracks ++ map (fun rest_id => [rest_id]) rest_ids /\
      Forall2
        (fun line track =>
           Forall2 (fun s id => int s = Some (id + 1))
             (PrepareSubmission.str_values line) track)
        lines file_tracks.
Proof.
  intros int lines n tracks H.
  destruct (PrepareSubmission.traverse
              (PrepareSubmission.parse_track int n) lines)
    as [file_tracks|err] eqn:Hparse.
  2:{ unfold PrepareSubmission.load_tracks in H. rewrite Hparse in H.
      discriminate. }
  rewrite (load_tracks_parsed int lines n file_tracks Hparse) in H.
  destruct (PrepareSubmission.all_distinct (List.concat file_tracks)) eqn:Hd;
    [|discriminate].
  injection H as <-.
  apply traverse_done in Hparse.
  assert (Hfacts : Forall (fun t => t <> []) file_tracks /\
                   Forall (fun x => 0 <= x < Z.of_nat n)
                     (List.concat file_tracks) /\
                   Forall2
                     (fun line track =>
                        Forall2 (fun s id => int s = Some (id + 1))
                          (PrepareSubmission.str_values line) track)
                     lines file_tracks).
  { clear Hd. induction Hparse as [|line t ls ts Ht _ (I1 & I2 & I3)]; cbn.
    - repeat split; constructor.
    - apply parse_track_done in Ht as (T1 & T2 & T3).
      repeat split; [constructor | apply Forall_app | constructor]; auto. }
  destruct Hfacts as (Hne & Hrange & Hlines).
  split; [|split].
  - rewrite concat_app, concat_singletons.
    apply with_rest_permutation; [apply all_distinct_NoDup, Hd | exact Hrange].
  - apply Forall_app. split; [exact Hne|].
    apply Forall_forall. intros t Hin. apply in_map_iff in Hin as (i & <- & _).
    discriminate.
  - eexists _, _. split; [reflexivity | exact Hlines].
Qed.

(** A file with the tracks [1 2] and [4] for a gallery of five images. *)
Lemma load_tracks_partition_witness :
  PrepareSubmission.load_tracks PrepareSubmission.decimal_int
    [String.append "1 2" (String PrepareSubmission.newline ""); "4"] 5
  = PrepareSubmission.Done [[0; 1]; [3]; [2]; [4]] /\
  Permutation (List.concat [[0; 1]; [3]; [2]; [4]])
    (PrepareSubmission.ids_upto 5).
Proof.
  split; [reflexivity|].
  apply (load_tracks_partition PrepareSubmission.decimal_int
           [String.append "1 2" (String PrepareSubmission.newline ""); "4"] 5
           [[0; 1]; [3]; [2]; [4]]).
  reflexivity.
Defined.

(** X19. The last assertion of [load_tracks]
    ([sum of the track lengths == gallery_size]) can never fail: the
    checks before it already imply it. *)
Theorem load_tracks_size_check_never_fails :
  forall (int : string -> option Z) (lines : list string)
         (gallery_size : nat),
    PrepareSubmission.load_tracks int lines gallery_size
    <> PrepareSubmission.Raised PrepareSubmission.SizeMismatch.
Proof.
  intros int lines n.
  destruct (PrepareSubmission.traverse
              (PrepareSubmission.parse_track int n) lines)
    as [file_tracks|err] eqn:Hparse.
  - rewrite (load_tracks_parsed int lines n file_tracks Hparse).
    destruct (PrepareSubmission.all_distinct _); discriminate.
  - unfold PrepareSubmission.load_tracks. rewrite Hparse. cbn.
    intros [= ->].
    apply traverse_raised_inv in Hparse as (line & _ & Ht).
    unfold PrepareSubmission.parse_track in Ht.
    destruct (PrepareSubmission.traverse _ (PrepareSubmission.str_values line))
      as [ids|err] eqn:H1; cbn [PrepareSubmission.and_then] in Ht.
    + destruct (0 <? List.length ids)%nat; [|discriminate].
      destruct (PrepareSubmission.traverse _ ids) as [c|err] eqn:H2;
        cbn [PrepareSubmission.and_then] in Ht; [discriminate|].
      injection Ht as ->.
      apply traverse_raised_inv in H2 as (x & _ & Hx).
      destruct ((0 <=? x) && (x <? Z.of_nat n)); discriminate.
    + injection Ht as ->.
      apply traverse_raised_inv in H1 as (x & _ & Hx).
      destruct (int x); discriminate.
Qed.

(** X20. A line of the tracks file without any id (an empty line, or one
    of spaces only, also as the last line) makes [load_tracks] fail. *)
Theorem load_tracks_rejects_blank_line :
  forall (int : string -> option Z) (lines : list string)
         (gallery_size : nat) (line : string),
    In line lines ->
    PrepareSubmission.str_values line = [] ->
    exists err,
      PrepareSubmission.load_tracks int lines gallery_size
      = PrepareSubmission.Raised err.
Proof.
  intros int lines n line Hin Hblank.
  assert (Hline : PrepareSubmission.parse_track int n line
                  = PrepareSubmission.Raised PrepareSubmission.EmptyLine).
  { unfold PrepareSubmission.parse_track. rewrite Hblank. reflexivity. }
  destruct (traverse_raised _ lines line _ Hin Hline) as [err Herr].
  exists err. unfold PrepareSubmission.load_tracks. rewrite Herr. reflexivity.
Qed.

Lemma load_tracks_rejects_blank_line_witness :
  exists err,
    PrepareSubmission.load_tracks PrepareSubmission.decimal_int
      [String.append "1 2" (String PrepareSubmission.newline "");
       String PrepareSubmission.newline ""] 5
    = PrepareSubmission.Raised err.
Proof.
  apply (load_tracks_rejects_blank_line PrepareSubmission.decimal_int
           [String.append "1 2" (String PrepareSubmission.newline "");
            String PrepareSubmission.newline ""] 5
           (String PrepareSubmission.newline "")).
  - right. left. reflexivity.
  - reflexivity.
Defined.

(* ================================================================== *)
(** * Matching with track information *)

Lemma traverse_map {A B} (f : A -> PrepareSubmission.outcome B)
    (g : A -> B) (l : list A) :
  (forall x, In x l -> f x = PrepareSubmission.Done (g x)) ->
  PrepareSubmission.traverse f l = PrepareSubmission.Done (map g l).
Proof.
  induction l as [|x l IH]; intros H; cbn; [reflexivity|].
  rewrite (H x (or_introl eq_refl)). cbn.
  rewrite IH by (intros y Hy; apply H; right; exact Hy). reflexivity.
Qed.

Lemma traverse_total {A B} (f : A -> PrepareSubmission.outcome B)
    (l : list A) :
  (forall x, In x l -> exists y, f x = PrepareSubmission.Done y) ->
  exists ys, PrepareSubmission.traverse f l = PrepareSubmission.Done ys.
Proof.
  induction l as [|x l IH]; intros H; cbn; [eauto|].
  destruct (H x (or_introl eq_refl)) as [y ->]. cbn.
  destruct IH as [ys ->]; [intros z Hz; apply H; right; exact Hz|].
  cbn. eauto.
Qed.

Lemma take_ids_in_range {A} (d : A) (l : list A) (ids : list nat) :
  Forall (fun i => (i < List.length l)%nat) ids ->
  PrepareSubmission.take_ids l ids
  = PrepareSubmission.Done (map (fun i => nth i l d) ids).
Proof.
  intros H. unfold PrepareSubmission.take_ids. apply traverse_map.
  intros i Hi. rewrite Forall_forall in H.
  rewrite (nth_error_nth' l d (H i Hi)). reflexivity.
Qed.

Lemma take_ids_total {A} (l : list A) (ids : list nat) :
  Forall (fun i => (i < List.length l)%nat) ids ->
  exists xs, PrepareSubmission.take_ids l ids = PrepareSubmission.Done xs.
Proof.
  intros H. unfold PrepareSubmission.take_ids. apply traverse_total.
  intros i Hi. rewrite Forall_forall in H. specialize (H i Hi).
  destruct (nth_error l i) as [x|] eqn:Hx; [eauto|].
  apply nth_error_None in Hx. lia.
Qed.

Lemma map_nth_seq {A} (d : A) (l : list A) :
  map (fun i => nth i l d) (seq 0 (List.length l)) = l.
Proof.
  apply (nth_ext _ _ d d).
  - rewrite length_map, length_seq. reflexivity.
  - intros i Hi. rewrite length_map, length_seq in Hi.
    rewrite (nth_indep _ d (nth (List.length l) l d))
      by (rewrite length_map, length_seq; exact Hi).
    rewrite (map_nth (fun i => nth i l d)).
    rewrite seq_nth by exact Hi. reflexivity.
Qed.

Lemma Permutation_concat {A} (l l' : list (list A)) :
  Permutation l l' -> Permutation (List.concat l) (List.concat l').
Proof.
  induction 1; cbn.
  - constructor.
  - apply Permutation_app_head. assumption.
  - rewrite !app_assoc. apply Permutation_app_tail, Permutation_app_comm.
  - etransitivity; eassumption.
Qed.

Lemma NoDup_firstn {A} (k : nat) (l : list A) :
  NoDup l -> NoDup (firstn k l).
Proof.
  intros H. rewrite <- (firstn_skipn k l) in H.
  apply NoDup_app_remove_r in H. exact H.
Qed.

Lemma Forall_firstn {A} (P : A -> Prop) (k : nat) (l : list A) :
  Forall P l -> Forall P (firstn k l).
Proof.
  intros H. rewrite <- (firstn_skipn k l) in H.
  apply Forall_app in H. tauto.
Qed.

(** Reordering the tracks by a permutation of their positions. *)
Lemma take_ids_permutation {A} (l : list A) (ids : list nat) :
  Permutation ids (seq 0 (List.length l)) ->
  exists xs, PrepareSubmission.take_ids l ids = PrepareSubmission.Done xs /\
             Permutation xs l.
Proof.
  intros Hperm.
  destruct l as [|d l'] eqn:Hl.
  - apply Permutation_sym, Permutation_nil in Hperm. subst ids. exists [].
    split;
      [reflexivity | constructor].
  - rewrite <- Hl in *. exists (map (fun i => nth i l d) ids). split.
    + apply take_ids_in_range.
      apply (Permutation_Forall (Permutation_sym Hperm)).
      apply Forall_forall. intros i Hi. apply in_seq in Hi. lia.
    + etransitivity; [apply Permutation_map; exact Hperm|].
      rewrite map_nth_seq. reflexivity.
Qed.

(** X21. With track information, and distances for every gallery image,
    [find_matches] returns one row per query; a row lists the tracks whole,
    one after the other in some order, cut after [top_k] entries.  When the
    tracks partition the gallery, a row names no gallery image twice, only
    images of the gallery, and [min(top_k, gallery_size)] of them. *)
Theorem find_matches_keeps_tracks_together :
  forall (Dist : Type) (percentile10 : list Dist -> Dist)
         (argsort : list Dist -> list nat)
         (distance_matrix : list (list Dist)) (tracks : list (list nat))
         (top_k gallery_size : nat),
    (forall values,
        Permutation (argsort values) (seq 0 (List.length values))) ->
    distance_matrix <> [] ->
    Forall (fun row => List.length row = gallery_size) distance_matrix ->
    (0 < gallery_size)%nat ->
    Forall (fun track => track <> []) tracks ->
    Permutation (List.concat tracks) (seq 0 gallery_size) ->
    exists matches,
      PrepareSubmission.find_matches percentile10 argsort
        distance_matrix tracks top_k true
      = PrepareSubmission.Done matches /\
      List.length matches = List.length distance_matrix /\
      Forall
        (fun row =>
           (exists ordered,
               Permutation ordered tracks /\
               row = firstn top_k (List.concat ordered)) /\
           NoDup row /\
           Forall (fun i => (i < gallery_size)%nat) row /\
           List.length row = Nat.min top_k gallery_size)
        matches.
Proof.
  intros Dist percentile10 argsort dm tracks top_k n
         Hargsort Hdm Hrows Hn Hne Hpart.
  unfold PrepareSubmission.find_matches. cbn [negb].
  destruct tracks as [|t0 ts] eqn:Htracks.
  { cbn in Hpart. apply Permutation_nil in Hpart.
    destruct n; [lia | discriminate]. }
  rewrite <- Htracks in *. clear Htracks t0 ts.
  (* the distances of the queries to the tracks *)
  set (group := fun row : list Dist =>
         PrepareSubmission.traverse
           (fun track_ids =>
              PrepareSubmission.and_then
                (PrepareSubmission.take_ids row track_ids)
                (fun distances =>
                   PrepareSubmission.Done (percentile10 distances)))
           tracks).
  assert (Hgroup : forall row, In row dm ->
            exists gd, group row = PrepareSubmission.Done gd).
  { intros row Hrow. apply traverse_total. intros t Ht.
    destruct (take_ids_total row t) as [xs ->]; [|cbn; eauto].
    rewrite Forall_forall in Hrows. rewrite (Hrows row Hrow).
    apply Forall_forall. intros i Hi.
    assert (Hin : In i (List.concat tracks)).
    { apply in_concat. exists t. split; assumption. }
    apply (Permutation_in _ Hpart), in_seq in Hin. lia. }
  destruct (traverse_total group dm Hgroup) as [track_distances Htd].
  fold group. rewrite Htd. cbn [PrepareSubmission.and_then].
  apply traverse_done in Htd.
  (* every row of them has an entry per track *)
  assert (Hlen : Forall (fun gd => List.length gd = List.length tracks)
                   track_distances).
  { clear - Htd. induction Htd as [|row gd ? ? Hgd _ IH]; constructor;
      [|exact IH].
    apply traverse_done, Forall2_length in Hgd. symmetry. exact Hgd. }
  set (order := fun group_distances : list Dist =>
         PrepareSubmission.and_then
           (PrepareSubmission.take_ids tracks (argsort group_distances))
           (fun ordered => PrepareSubmission.Done (List.concat ordered))).
  assert (Horder : forall gd, In gd track_distances ->
            exists ordered,
              order gd = PrepareSubmission.Done (List.concat ordered) /\
              Permutation ordered tracks).
  { intros gd Hgd. rewrite Forall_forall in Hlen.
    destruct (take_ids_permutation tracks (argsort gd)) as (xs & Hxs & Hp).
    - rewrite <- (Hlen gd Hgd). apply Hargsort.
    - exists xs. unfold order. rewrite Hxs. split; [reflexivity | exact Hp]. }
  destruct (traverse_total order track_distances) as [out_matches Hout].
  { intros gd Hgd. destruct (Horder gd Hgd) as (o & -> & _). eauto. }
  rewrite Hout. cbn [PrepareSubmission.and_then].
  apply traverse_done in Hout.
  assert (Hcount : List.length out_matches = List.length dm).
  { apply Forall2_length in Htd, Hout. congruence. }
  unfold PrepareSubmission.first_columns.
  destruct out_matches as [|m0 ms] eqn:Hom.
  { destruct dm; [congruence | discriminate]. }
  rewrite <- Hom in *. clear Hom m0 ms.
  eexists. split; [reflexivity|]. split.
  { rewrite length_map. exact Hcount. }
  apply Forall_forall. intros row Hrow.
  apply in_map_iff in Hrow as (full & <- & Hfull).
  assert (Hfrom : exists gd, In gd track_distances /\
                             order gd = PrepareSubmission.Done full).
  { clear - Hout Hfull. induction Hout as [|gd m ? ? Hm _ IH];
      [destruct Hfull|].
    destruct Hfull as [<- | Hin].
    - exists gd. split; [left; reflexivity | exact Hm].
    - destruct (IH Hin) as (gd' & ? & ?). exists gd'. split;
        [right; assumption | assumption]. }
  destruct Hfrom as (gd & Hgd & Hfull').
  destruct (Horder gd Hgd) as (ordered & Ho & Hp).
  rewrite Ho in Hfull'. injection Hfull' as <-.
  assert (Hall : Permutation (List.concat ordered) (seq 0 n)).
  { etransitivity; [apply Permutation_concat; exact Hp | exact Hpart]. }
  split; [exists ordered; split; [exact Hp | reflexivity]|].
  split; [|split].
  - apply NoDup_firstn.
    apply (Permutation_NoDup (Permutation_sym Hall)), seq_NoDup.
  - apply Forall_firstn.
    apply (Permutation_Forall (Permutation_sym Hall)).
    apply Forall_forall. intros i Hi. apply in_seq in Hi. lia.
  - rewrite length_firstn, (Permutation_length Hall), length_seq.
    reflexivity.
Qed.

Lemma insert_by_value_permutation (p : nat * Q) (l : list (nat * Q)) :
  Permutation (NumpyQ.insert_by_value p l) (p :: l).
Proof.
  induction l as [|q l IH]; cbn; [reflexivity|].
  destruct (Qle_bool (snd p) (snd q)); [reflexivity|].
  etransitivity; [apply perm_skip, IH | apply perm_swap].
Qed.

Lemma map_fst_combine {A B} (a : list A) (b : list B) :
  List.length a = List.length b -> map fst (combine a b) = a.
Proof.
  revert b. induction a as [|x a IH]; intros [|y b] H; cbn in *;
    try reflexivity; try discriminate.
  f_equal. apply IH. lia.
Qed.

Lemma argsort_permutation (values : list Q) :
  Permutation (NumpyQ.argsort values) (seq 0 (List.length values)).
Proof.
  unfold NumpyQ.argsort, NumpyQ.sort_indexed.
  rewrite <- (map_fst_combine (seq 0 (List.length values)) values) at 2
    by apply length_seq.
  apply Permutation_map.
  induction (combine (seq 0 (List.length values)) values) as [|p l IH];
    cbn; [constructor|].
  etransitivity; [apply insert_by_value_permutation | apply perm_skip, IH].
Qed.

(** One query, four gallery images; the image with the largest distance
    is ranked first with its track. *)
Lemma find_matches_keeps_tracks_together_witness :
  PrepareSubmission.find_matches NumpyQ.percentile10 NumpyQ.argsort
    [[9 # 10; 1 # 10; 5 # 10; 3 # 10]%Q] [[0; 1]; [3]; [2]]%nat 3 true
  = PrepareSubmission.Done [[0; 1; 3]%nat] /\
  exists matches,
    PrepareSubmission.find_matches NumpyQ.percentile10 NumpyQ.argsort
      [[9 # 10; 1 # 10; 5 # 10; 3 # 10]%Q] [[0; 1]; [3]; [2]]%nat 3 true
    = PrepareSubmission.Done matches /\
    List.length matches = 1%nat /\
    Forall
      (fun row =>
         (exists ordered,
             Permutation ordered [[0; 1]; [3]; [2]]%nat /\
             row = firstn 3 (List.concat ordered)) /\
         NoDup row /\
         Forall (fun i => (i < 4)%nat) row /\
         List.length row = Nat.min 3 4)
      matches.
Proof.
  split; [vm_compute; reflexivity|].
  apply (find_matches_keeps_tracks_together Q NumpyQ.percentile10
           NumpyQ.argsort [[9 # 10; 1 # 10; 5 # 10; 3 # 10]%Q]
           [[0; 1]; [3]; [2]]%nat 3%nat 4%nat).
  - exact argsort_permutation.
  - discriminate.
  - repeat constructor.
  - lia.
  - repeat constructor; discriminate.
  - cbn. do 2 apply perm_skip. apply perm_swap.
Defined.

Lemma concat_nth_singletons (n : nat) (ids : list nat) :
  Forall (fun i => (i < n)%nat) ids ->
  List.concat
    (map (fun i => nth i (map (fun j => [j]) (seq 0 n)) []) ids) = ids.
Proof.
  induction 1 as [|i ids Hi _ IH]; cbn [map List.concat]; [reflexivity|].
  rewrite IH.
  rewrite (nth_indep _ [] ((fun j => [j]) 0%nat))
    by (rewrite length_map, length_seq; exact Hi).
  rewrite (map_nth (fun j => [j])), seq_nth by exact Hi. reflexivity.
Qed.

(** X22. Track information that puts every gallery image in a track of its
    own changes nothing: when the percentile of a single value is that
    value, [find_matches] with the tracks [[0], [1], ...] returns what it
    returns without track information. *)
Theorem find_matches_singleton_tracks :
  forall (Dist : Type) (percentile10 : list Dist -> Dist)
         (argsort : list Dist -> list nat)
         (distance_matrix : list (list Dist)) (ignored : list (list nat))
         (top_k gallery_size : nat),
    (forall d, percentile10 [d] = d) ->
    (forall values,
        Forall (fun i => (i < List.length values)%nat) (argsort values)) ->
    distance_matrix <> [] ->
    Forall (fun row => List.length row = gallery_size) distance_matrix ->
    (0 < gallery_size)%nat ->
    PrepareSubmission.find_matches percentile10 argsort distance_matrix
      (map (fun i => [i]) (seq 0 gallery_size)) top_k true
    = PrepareSubmission.find_matches percentile10 argsort distance_matrix
        ignored top_k false.
Proof.
  intros Dist percentile10 argsort dm ignored top_k n
         Hsingle Hargsort Hdm Hrows Hn.
  unfold PrepareSubmission.find_matches. cbn [negb].
  destruct (map (fun i => [i]) (seq 0 n)) as [|t0 ts] eqn:Htracks.
  { apply (f_equal (@List.length _)) in Htracks.
    rewrite length_map, length_seq in Htracks. cbn in Htracks. lia. }
  rewrite <- Htracks. clear Htracks t0 ts.
  rewrite Forall_forall in Hrows.
  (* the distances to the tracks are the distances to the images *)
  rewrite (traverse_map _ (fun row => row)).
  2:{ intros row Hrow. specialize (Hrows row Hrow).
      destruct row as [|d r] eqn:Hr; [cbn in Hrows; lia|].
      rewrite <- Hr in *.
      rewrite (traverse_map _
                 (fun t => percentile10 (map (fun i => nth i row d) t))).
      - rewrite map_map. cbn [map]. f_equal.
        etransitivity; [|apply (map_nth_seq d row)]. rewrite Hrows.
        apply map_ext. intros i. apply Hsingle.
      - intros t Ht. apply in_map_iff in Ht as (i & <- & Hi).
        apply in_seq in Hi.
        rewrite (take_ids_in_range d) by (repeat constructor; lia).
        reflexivity. }
  rewrite map_id. cbn [PrepareSubmission.and_then].
  rewrite (traverse_map _ argsort).
  2:{ intros row Hrow.
      rewrite (take_ids_in_range []).
      - cbn [PrepareSubmission.and_then]. f_equal.
        apply concat_nth_singletons. rewrite <- (Hrows row Hrow).
        apply Hargsort.
      - rewrite length_map, length_seq, <- (Hrows row Hrow).
        apply Hargsort. }
  cbn [PrepareSubmission.and_then]. unfold PrepareSubmission.first_columns.
  destruct dm as [|row0 dm']; [congruence|].
  cbn [map]. rewrite map_map. reflexivity.
Qed.

Lemma find_matches_singleton_tracks_witness :
  PrepareSubmission.find_matches NumpyQ.percentile10 NumpyQ.argsort
    [[9 # 10; 1 # 10; 5 # 10; 3 # 10]%Q]
    (map (fun i => [i]) (seq 0 4)) 3 true
  = PrepareSubmission.find_matches NumpyQ.percentile10 NumpyQ.argsort
      [[9 # 10; 1 # 10; 5 # 10; 3 # 10]%Q] [] 3 false.
Proof.
  apply (find_matches_singleton_tracks Q NumpyQ.percentile10
           NumpyQ.argsort [[9 # 10; 1 # 10; 5 # 10; 3 # 10]%Q] []
           3%nat 4%nat).
  - intros d. reflexivity.
  - intros values.
    apply (Permutation_Forall (Permutation_sym (argsort_permutation values))).
    apply Forall_forall. intros i Hi. apply in_seq in Hi. lia.
  - discriminate.
  - repeat constructor.
  - lia.
Defined.

(* ================================================================== *)
(** * The submission file, read as a tracks file *)

Section Lines.
Import PrepareSubmission.

Lemma remove_char_append (c : Ascii.ascii) (a b : string) :
  remove_char c (String.append a b)
  = String.append (remove_char c a) (remove_char c b).
Proof.
  induction a as [|x a IH]; cbn; [reflexivity|].
  destruct (Ascii.eqb x c); cbn; rewrite IH; reflexivity.
Qed.

Lemma remove_char_absent (c : Ascii.ascii) (s : string) :
  has_char c s = false -> remove_char c s = s.
Proof.
  induction s as [|x s IH]; cbn; [reflexivity|]. intros H.
  apply orb_false_elim in H as [-> H]. rewrite (IH H). reflexivity.
Qed.

Lemma remove_char_join (c sep : Ascii.ascii) (pieces : list string) :
  Ascii.eqb sep c = false ->
  Forall (fun s => has_char c s = false) pieces ->
  remove_char c (join_char sep pieces) = join_char sep pieces.
Proof.
  intros Hsep. induction 1 as [|s pieces Hs _ IH]; [reflexivity|].
  destruct pieces as [|s' pieces'].
  - cbn. apply remove_char_absent, Hs.
  - change (join_char sep (s :: s' :: pieces'))
      with (String.append s (String sep (join_char sep (s' :: pieces')))).
    rewrite remove_char_append, (remove_char_absent c s Hs).
    cbn [remove_char]. rewrite Hsep, IH. reflexivity.
Qed.

Lemma split_char_absent (c : Ascii.ascii) (s : string) :
  has_char c s = false -> split_char c s = [s].
Proof.
  induction s as [|x s IH]; cbn; [reflexivity|]. intros H.
  apply orb_false_elim in H as [-> H]. rewrite (IH H). reflexivity.
Qed.

Lemma split_char_append (c : Ascii.ascii) (s rest : string) :
  has_char c s = false ->
  split_char c (String.append s (String c rest)) = s :: split_char c rest.
Proof.
  induction s as [|x s IH]; cbn.
  - intros _. rewrite Ascii.eqb_refl. reflexivity.
  - intros H. apply orb_false_elim in H as [-> H]. rewrite (IH H).
    reflexivity.
Qed.

Lemma split_char_join (c : Ascii.ascii) (pieces : list string) :
  pieces <> [] ->
  Forall (fun s => has_char c s = false) pieces ->
  split_char c (join_char c pieces) = pieces.
Proof.
  intros Hne H. induction H as [|s pieces Hs _ IH]; [congruence|].
  destruct pieces as [|s' pieces'].
  - cbn. apply split_char_absent, Hs.
  - change (join_char c (s :: s' :: pieces'))
      with (String.append s (String c (join_char c (s' :: pieces')))).
    rewrite (split_char_append c s _ Hs), IH by discriminate. reflexivity.
Qed.

Lemma filter_all {A} (p : A -> bool) (l : list A) :
  Forall (fun x => p x = true) l -> filter p l = l.
Proof.
  induction 1 as [|x l Hx _ IH]; cbn; [reflexivity|].
  rewrite Hx, IH. reflexivity.
Qed.

(** The decimal numeral of an int is not empty and made of digits and a
    sign only. *)
Lemma digits_plain (d : Decimal.uint) :
  has_char space (NilEmpty.string_of_uint d) = false /\
  has_char newline (NilEmpty.string_of_uint d) = false.
Proof.
  induction d as [|d [IH1 IH2]|d [IH1 IH2]|d [IH1 IH2]|d [IH1 IH2]
                  |d [IH1 IH2]|d [IH1 IH2]|d [IH1 IH2]|d [IH1 IH2]
                  |d [IH1 IH2]|d [IH1 IH2]];
    cbn [NilEmpty.string_of_uint has_char]; rewrite ?IH1, ?IH2;
    split; reflexivity.
Qed.

Lemma str_plain (z : Z) :
  has_char space (str z) = false /\ has_char newline (str z) = false /\
  String.eqb (str z) EmptyString = false.
Proof.
  assert (Hu : forall d,
             has_char space (NilZero.string_of_uint d) = false /\
             has_char newline (NilZero.string_of_uint d) = false /\
             String.eqb (NilZero.string_of_uint d) EmptyString = false).
  { intros d. destruct (digits_plain d) as [H1 H2].
    destruct d; cbn [NilZero.string_of_uint]; repeat split;
      try assumption; reflexivity. }
  unfold str. destruct (Z.to_int z) as [d|d]; cbn [NilZero.string_of_int].
  - apply Hu.
  - destruct (Hu d) as (H1 & H2 & _). cbn [has_char]. rewrite H1, H2.
    repeat split; reflexivity.
Qed.

Lemma str_values_dump_row (row : list Z) :
  row <> [] ->
  str_values (dump_row row) = map str (map (fun m => m + 1) row).
Proof.
  intros Hne. unfold str_values, dump_row.
  set (pieces := map str (map (fun m => m + 1) row)).
  assert (Hpieces : pieces <> []) by (destruct row; [congruence | discriminate]).
  assert (Hplain : forall c,
             c = space \/ c = newline ->
             Forall (fun s => has_char c s = false) pieces).
  { intros c Hc. apply Forall_forall. intros s Hs.
    apply in_map_iff in Hs as (z & <- & _).
    destruct (str_plain z) as (H1 & H2 & _). destruct Hc; subst c; assumption. }
  rewrite remove_char_append.
  rewrite remove_char_join by (auto || reflexivity).
  change (remove_char newline (String newline EmptyString)) with EmptyString.
  assert (Hnil : forall s, String.append s EmptyString = s).
  { induction s as [|x s IH]; cbn; [|rewrite IH]; reflexivity. }
  rewrite Hnil, split_char_join by auto.
  apply filter_all, Forall_forall. intros s Hs.
  apply in_map_iff in Hs as (z & <- & _).
  destruct (str_plain z) as (_ & _ & ->). reflexivity.
Qed.

Lemma traverse_of_map {A B C} (f : B -> outcome C) (h : A -> B)
    (l : list A) :
  traverse f (map h l) = traverse (fun x => f (h x)) l.
Proof.
  induction l as [|x l IH]; cbn; [|rewrite IH]; reflexivity.
Qed.

Lemma decimal_int_str (z : Z) : decimal_int (str z) = Some z.
Proof.
  unfold decimal_int, str. rewrite NilZero.isi.
  - cbn. rewrite DecimalZ.of_to. reflexivity.
  - destruct z as [|p|p]; cbn; try discriminate.
    intros [= H]. exact (DecimalPos.Unsigned.to_uint_nonnil p H).
  - destruct z as [|p|p]; cbn; try discriminate.
    intros [= H]. exact (DecimalPos.Unsigned.to_uint_nonnil p H).
Qed.

End Lines.


